(** * Leave-request agent: reply detection and alert dispatch

    A shallow embedding of the decision engine of the leave-request agent
    (gmailClient.js, leaveAgent.js, firebaseService.js, notificationService.js)
    and the properties of it that the specification states.

    Conventions of the embedding.
    - A JavaScript string is a sequence of UTF-16 code units; a character
      of [string] is read as one code unit, so the embedding covers the
      strings whose code units are below 256 (Basic Latin and Latin-1
      Supplement). On these [toLowerCase] and [trim] are the built-ins of
      the language: the cased letters are A-Z, U+00C0-U+00D6 and
      U+00D8-U+00DE, and the white space and line terminators are
      U+0009-U+000D, U+0020 and U+00A0. Strings with a code unit of 256 or
      more are outside the model.
    - An absent property ([undefined]) is [None]; [x || d] is [or_else].
    - Epoch milliseconds are integers ([Z]); an age in hours is an exact
      rational ([Q]): the rounding of the IEEE double division is abstracted.
    - A JavaScript [Set] is an insertion-ordered list without duplicates
      where the order is observable ([Array.from]), a [gset] otherwise. *)

From Stdlib Require Import ZArith QArith Qround String Ascii List Lia.
From stdpp Require Import base gmap strings list.

#[local] Set Warnings "-clear-no-such-hyp".

Open Scope string_scope.

(* ================================================================== *)
(** * Part I: definitions                                              *)
(* ================================================================== *)

(** ** JavaScript string primitives *)

Module JS.

(** [x || d] for an optional string: [undefined] and the empty string are
    both falsy. *)
Definition or_else (x : option string) (d : string) : string :=
  match x with
  | Some s => if String.eqb s "" then d else s
  | None => d
  end.

(** Truthiness of an optional string. *)
Definition truthy (x : option string) : bool :=
  match x with
  | Some s => negb (String.eqb s "")
  | None => false
  end.

(** The code units below 256 that [toLowerCase] changes: A-Z, and the
    capital letters U+00C0-U+00DE of Latin-1 (U+00D7, the multiplication
    sign, is not a letter). Each maps to the code unit 32 above it. *)
Definition isUpperCase (c : ascii) : bool :=
  let n := nat_of_ascii c in
  ((65 <=? n)%nat && (n <=? 90)%nat)
  || ((192 <=? n)%nat && (n <=? 222)%nat && negb (n =? 215)%nat).

Definition lowerChar (c : ascii) : ascii :=
  if isUpperCase c then ascii_of_nat (nat_of_ascii c + 32) else c.

Fixpoint toLowerCase (s : string) : string :=
  match s with
  | EmptyString => EmptyString
  | String c s' => String (lowerChar c) (toLowerCase s')
  end.

(** What [trim] strips, below 256: TAB, LF, VT, FF, CR, SPACE and the
    no-break space U+00A0. *)
Definition isWhiteSpace (c : ascii) : bool :=
  let n := nat_of_ascii c in
  ((9 <=? n)%nat && (n <=? 13)%nat) || (n =? 32)%nat || (n =? 160)%nat.

Fixpoint trimStart (s : string) : string :=
  match s with
  | EmptyString => EmptyString
  | String c s' => if isWhiteSpace c then trimStart s' else s
  end.

Definition trimEnd (s : string) : string :=
  String.rev (trimStart (String.rev s)).

Definition trim (s : string) : string := trimEnd (trimStart s).

(** [s.startsWith(p)] *)
Definition startsWith (s p : string) : bool := String.prefix p s.

(** [s.includes(k)]: [k] occurs in [s] at some position. *)
Fixpoint includes (s k : string) : bool :=
  String.prefix k s ||
  match s with
  | EmptyString => false
  | String _ s' => includes s' k
  end.

End JS.

(** ** The regular-expression fragment used by the classifier *)

Module RegExp.

Inductive regex : Type :=
| Eps : regex
| Chr : ascii -> regex
| Seq : regex -> regex -> regex
| Alt : regex -> regex -> regex
| Opt : regex -> regex                      (* r? *)
| PlusClass : (ascii -> bool) -> regex.     (* [class]+ *)

Definition orElse (x y : option string) : option string :=
  match x with
  | Some r => Some r
  | None => y
  end.

(** Greedy [class]+ : the longest run first, then shorter ones. *)
Fixpoint plusClass (p : ascii -> bool) (s : string)
    (k : string -> option string) : option string :=
  match s with
  | EmptyString => None
  | String c s' => if p c then orElse (plusClass p s' k) (k s') else None
  end.

(** Backtracking matcher in continuation style, as ECMAScript specifies
    pattern matching: [k] receives the rest of the input, and the result is
    the input left after the first match in priority order. *)
Fixpoint rmatch (r : regex) (s : string) (k : string -> option string)
    : option string :=
  match r with
  | Eps => k s
  | Chr c =>
      match s with
      | EmptyString => None
      | String c' s' => if Ascii.eqb c c' then k s' else None
      end
  | Seq r1 r2 => rmatch r1 s (fun s' => rmatch r2 s' k)
  | Alt r1 r2 => orElse (rmatch r1 s k) (rmatch r2 s k)
  | Opt r1 => orElse (rmatch r1 s k) (k s)
  | PlusClass p => plusClass p s k
  end.

Fixpoint lit (p : string) : regex :=
  match p with
  | EmptyString => Eps
  | String c p' => Seq (Chr c) (lit p')
  end.

(** [s.match(/^r/)] is non-null: some prefix of [s] matches [r]. *)
Definition matchAtStart (r : regex) (s : string) : bool :=
  match rmatch r s Some with
  | Some _ => true
  | None => false
  end.

(** [s.match(/r/)]: the text of the leftmost match, [None] for [null]. *)
Fixpoint search (r : regex) (s : string) : option string :=
  match rmatch r s Some with
  | Some rest => Some (String.substring 0 (String.length s - String.length rest) s)
  | None =>
      match s with
      | EmptyString => None
      | String _ s' => search r s'
      end
  end.

(** [/^(re:|fwd?:|fw:)/] *)
Definition replyOrForward : regex :=
  Alt (lit "re:")
      (Alt (Seq (lit "fw") (Seq (Opt (Chr "d")) (Chr ":")))
           (lit "fw:")).

(** [\w]: ASCII letters, digits and the underscore. *)
Definition wordChar (c : ascii) : bool :=
  let n := nat_of_ascii c in
  ((48 <=? n)%nat && (n <=? 57)%nat) || ((65 <=? n)%nat && (n <=? 90)%nat)
  || ((97 <=? n)%nat && (n <=? 122)%nat) || (n =? 95)%nat.

(** [[\w\.-]] *)
Definition addressChar (c : ascii) : bool :=
  wordChar c || Ascii.eqb c "." || Ascii.eqb c "-".

(** [/[\w\.-]+@[\w\.-]+\.\w+/] *)
Definition emailAddress : regex :=
  Seq (PlusClass addressChar)
      (Seq (Chr "@")
           (Seq (PlusClass addressChar)
                (Seq (Chr ".") (PlusClass wordChar)))).

End RegExp.

(** ** Messages *)

(** The normalized message record built by [getEmailDetails]. The fields
    [id], [from] and [to] of the source are [msg_id], [from_] and [to_]. *)
Record Email : Type := mkEmail {
  msg_id : string;
  thread_id : option string;
  snippet : string;
  internal_date : option Z;
  from_ : option string;
  to_ : option string;
  subject : option string;
  date : option string;
  body : string
}.

(** [parseInt(x || 0)] on a timestamp: absent reads as 0. *)
Definition parseIntOr0 (x : option Z) : Z := default 0%Z x.

(** ** Leave-request classifier (gmailClient.js, findLeaveRequests) *)

Module Classifier.
Import JS RegExp.

Definition subjectLower (email : Email) : string :=
  trim (toLowerCase (or_else (subject email) "")).

(** The loop over the search results; [leaveRequests] is the array being
    filled by [push]. *)
Fixpoint classifyLoop (keywords : list string) (emails : list Email)
    (leaveRequests : list Email) : list Email :=
  match emails with
  | [] => leaveRequests
  | email :: rest =>
      if matchAtStart replyOrForward (subjectLower email) then
        classifyLoop keywords rest leaveRequests
      else if existsb (fun keyword =>
                 includes (subjectLower email) (toLowerCase keyword)) keywords then
        classifyLoop keywords rest (leaveRequests ++ [email])
      else
        classifyLoop keywords rest leaveRequests
  end.

Definition classify (keywords : list string) (emails : list Email) : list Email :=
  classifyLoop keywords emails [].

(** The Boolean test one iteration of the loop applies. *)
Definition keeps (keywords : list string) (email : Email) : bool :=
  negb (matchAtStart replyOrForward (subjectLower email)) &&
  existsb (fun keyword => includes (subjectLower email) (toLowerCase keyword)) keywords.

(** The specification's wording of the filter, written on the code units
    of the subject and not with the functions of the code. *)

(** The capital letters among the code units below 256. *)
Definition isCapital (n : nat) : Prop :=
  (65 <= n <= 90)%nat \/ (192 <= n <= 214)%nat \/ (216 <= n <= 222)%nat.

(** [t] is [s] lower-cased: every capital letter replaced by its small
    letter, 32 code units above it, every other code unit kept. *)
Inductive lowerCased : string -> string -> Prop :=
| lowerCased_empty : lowerCased "" ""
| lowerCased_capital c d s t :
    isCapital (nat_of_ascii c) -> nat_of_ascii d = (nat_of_ascii c + 32)%nat ->
    lowerCased s t -> lowerCased (String c s) (String d t)
| lowerCased_other c s t :
    ~ isCapital (nat_of_ascii c) ->
    lowerCased s t -> lowerCased (String c s) (String c t).

(** The white space and line terminator code units below 256. *)
Definition whiteSpaceUnit (n : nat) : Prop :=
  n = 9%nat \/ n = 10%nat \/ n = 11%nat \/ n = 12%nat \/ n = 13%nat \/
  n = 32%nat \/ n = 160%nat.

Inductive blank : string -> Prop :=
| blank_empty : blank ""
| blank_cons c s : whiteSpaceUnit (nat_of_ascii c) -> blank s -> blank (String c s).

Definition startsBlank (t : string) : Prop :=
  exists c rest, t = String c rest /\ whiteSpaceUnit (nat_of_ascii c).

Definition endsBlank (t : string) : Prop :=
  exists init c, t = init ++ String c "" /\ whiteSpaceUnit (nat_of_ascii c).

(** [t] is [s] trimmed: [s] without its leading and trailing white space. *)
Definition trimmed (s t : string) : Prop :=
  exists leading trailing,
    s = leading ++ t ++ trailing /\ blank leading /\ blank trailing /\
    ~ startsBlank t /\ ~ endsBlank t.

(** [t] is the subject lower-cased and trimmed. *)
Definition normalized (subject t : string) : Prop :=
  exists lowered, lowerCased subject lowered /\ trimmed lowered t.

Definition isSubstring (k s : string) : Prop :=
  exists a b, s = a ++ k ++ b.

(** [s] matches ^(re:|fwd?:|fw:). *)
Definition hasReplyForwardPrefix (s : string) : Prop :=
  exists rest, s = "re:" ++ rest \/ s = "fwd:" ++ rest \/ s = "fw:" ++ rest.

Definition qualifies (keywords : list string) (email : Email) : Prop :=
  exists t,
    normalized (or_else (subject email) "") t /\
    ~ hasReplyForwardPrefix t /\
    exists keyword k, keyword ∈ keywords /\ lowerCased keyword k /\ isSubstring k t.

End Classifier.

(** ** The mailbox provider (external collaborator)

    The Gmail REST resources the client consumes. A request that fails
    (network or API error, a rejected promise) is [None]. *)

Record RawMessage : Type := mkRaw {
  raw_id : string;                       (* message.id *)
  threadId : option string;
  raw_snippet : option string;
  internalDate : option Z;               (* decimal string of epoch ms *)
  headers : list (string * string);      (* payload.headers: name, value *)
  raw_body : string                      (* the text _extractBody decodes *)
}.

Record GmailService : Type := mkService {
  messages_list : string -> option (list string);   (* users.messages.list *)
  messages_get : string -> option RawMessage;       (* users.messages.get *)
  threads_get : string -> option (list RawMessage)  (* users.threads.get *)
}.

(** ** Gmail client (gmailClient.js) *)

Module GmailClient.
Import JS.

Definition setHeader (emailData : Email) (header : string * string) : Email :=
  let name := toLowerCase (fst header) in
  let value := snd header in
  if String.eqb name "from" then
    mkEmail (msg_id emailData) (thread_id emailData) (snippet emailData)
      (internal_date emailData) (Some value) (to_ emailData)
      (subject emailData) (date emailData) (body emailData)
  else if String.eqb name "to" then
    mkEmail (msg_id emailData) (thread_id emailData) (snippet emailData)
      (internal_date emailData) (from_ emailData) (Some value)
      (subject emailData) (date emailData) (body emailData)
  else if String.eqb name "subject" then
    mkEmail (msg_id emailData) (thread_id emailData) (snippet emailData)
      (internal_date emailData) (from_ emailData) (to_ emailData)
      (Some value) (date emailData) (body emailData)
  else if String.eqb name "date" then
    mkEmail (msg_id emailData) (thread_id emailData) (snippet emailData)
      (internal_date emailData) (from_ emailData) (to_ emailData)
      (subject emailData) (Some value) (body emailData)
  else emailData.

(** [getEmailDetails(messageId)]: [None] is the [null] of the catch. *)
Definition getEmailDetails (service : GmailService) (messageId : string)
    : option Email :=
  match messages_get service messageId with
  | None => None
  | Some message =>
      let emailData :=
        mkEmail messageId (threadId message)
          (or_else (raw_snippet message) "")
          (Some (parseIntOr0 (internalDate message)))
          None None None None "" in
      let emailData := fold_left setHeader (headers message) emailData in
      Some (mkEmail (msg_id emailData) (thread_id emailData)
              (snippet emailData) (internal_date emailData)
              (from_ emailData) (to_ emailData) (subject emailData)
              (date emailData) (raw_body message))
  end.

(** [searchEmails(query)]: details of every listed id; ids whose details
    cannot be fetched are dropped; a failing list request gives []. *)
Fixpoint collectDetails (service : GmailService) (ids : list string)
    (emailList : list Email) : list Email :=
  match ids with
  | [] => emailList
  | msgId :: rest =>
      match getEmailDetails service msgId with
      | Some emailData => collectDetails service rest (emailList ++ [emailData])
      | None => collectDetails service rest emailList
      end
  end.

Definition searchEmails (service : GmailService) (query : string) : list Email :=
  match messages_list service query with
  | None => []
  | Some messages => collectDetails service messages []
  end.

(** [keywords.map(k => `subject:"${k}"`).join(' OR ')] *)
Fixpoint subjectQuery (keywords : list string) : string :=
  match keywords with
  | [] => ""
  | [keyword] => "subject:" ++ String (ascii_of_nat 34) keyword ++ String (ascii_of_nat 34) ""
  | keyword :: rest =>
      "subject:" ++ String (ascii_of_nat 34) keyword ++ String (ascii_of_nat 34) ""
        ++ " OR " ++ subjectQuery rest
  end.

(** [dateStr] is the day [daysBack] days before now, as YYYY/MM/DD, which
    the platform's [Date] computes. *)
Definition buildQuery (keywords : list string) (dateStr : string) : string :=
  "in:sent" ++ " " ++ ("(" ++ subjectQuery keywords ++ ")") ++ " " ++ ("after:" ++ dateStr).

Definition findLeaveRequests (service : GmailService) (keywords : list string)
    (dateStr : string) : list Email :=
  Classifier.classify keywords (searchEmails service (buildQuery keywords dateStr)).

(** [[...messages].sort((a, b) => date(a) - date(b))]: the sort is stable. *)
Definition date_of (m : RawMessage) : Z := parseIntOr0 (internalDate m).

Fixpoint insertByDate (m : RawMessage) (sorted : list RawMessage) : list RawMessage :=
  match sorted with
  | [] => [m]
  | x :: rest =>
      if (date_of m <=? date_of x)%Z then m :: sorted
      else x :: insertByDate m rest
  end.

Definition sortByDate (messages : list RawMessage) : list RawMessage :=
  fold_right insertByDate [] messages.

(** Ascending by date: what the sort establishes. *)
Definition ascending (l : list RawMessage) : Prop :=
  forall i j x y, l !! i = Some x -> l !! j = Some y -> (i <= j)%nat ->
                  (date_of x <= date_of y)%Z.

(** [firstMessage?.id] *)
Definition firstMessageId (messages : list RawMessage) : option string :=
  raw_id <$> head (sortByDate messages).

(** The test applied to the details of a later message. *)
Definition looksLikeReply (originalEmail msgDetails : Email) : bool :=
  let originalFrom := or_else (from_ originalEmail) "" in
  let replyFrom := or_else (from_ msgDetails) "" in
  let replySubject := toLowerCase (or_else (subject msgDetails) "") in
  negb (String.eqb originalFrom replyFrom) || startsWith replySubject "re:".

(** The loop over the thread in fetch order, with its early [return true]. *)
Fixpoint replyLoop (service : GmailService) (originalEmail : Email)
    (originalMessageId : option string) (messages : list RawMessage) : bool :=
  match messages with
  | [] => false
  | message :: rest =>
      let msgId := raw_id message in
      let msgDate := date_of message in
      let originalId := msg_id originalEmail in
      let originalDate := parseIntOr0 (internal_date originalEmail) in
      if String.eqb msgId originalId
         || bool_decide (originalMessageId = Some msgId) then
        replyLoop service originalEmail originalMessageId rest
      else if (originalDate <? msgDate)%Z then
        match getEmailDetails service msgId with
        | Some msgDetails =>
            if looksLikeReply originalEmail msgDetails then true
            else replyLoop service originalEmail originalMessageId rest
        | None => replyLoop service originalEmail originalMessageId rest
        end
      else replyLoop service originalEmail originalMessageId rest
  end.

Definition checkForReply (service : GmailService) (originalEmail : Email) : bool :=
  if negb (truthy (thread_id originalEmail)) then false
  else
    match threads_get service (or_else (thread_id originalEmail) "") with
    | None => false
    | Some messages =>
        replyLoop service originalEmail (firstMessageId messages) messages
    end.

(** [getEmailAgeHours(email)], with the clock reading [now] made explicit. *)
Definition getEmailAgeHours (now : Z) (email : Email) : Q :=
  let internalDate := parseIntOr0 (internal_date email) in
  if (internalDate =? 0)%Z then 0%Q
  else
    let ageMs := (now - internalDate)%Z in
    (inject_Z ageMs / inject_Z (1000 * 60 * 60))%Q.

End GmailClient.

(** ** Run orchestrator (leaveAgent.js)

    The agent is written against the collaborators it is constructed with:
    an injected Gmail client and the notification service. Their methods
    act on the state [W] of the outside world and may throw. *)

Module Agent.

Inductive outcome (A : Type) : Type :=
| Ok (a : A)
| Throw (message : string).
Arguments Ok {A} a.
Arguments Throw {A} message.

(** The calls the orchestrator makes, in the order it makes them; a ghost
    log used to state which collaborator was called for which message. *)
Inductive Call : Type :=
| Evaluated (requestId : string) (hoursOld : Q)   (* age computed in the first loop *)
| CheckForReply (requestId : string)
| Notify (requestId : string)                     (* notifyPendingLeaveRequest *)
| Summary (count : nat)                           (* notifySummary *)
| MarkProcessed (requestId : string).             (* processedRequests.add *)

Record Results : Type := mkResults {
  checked_requests : nat;
  pending_requests : nat;
  notifications_sent : nat;
  errors : list string
}.

(** [hoursOld < REPLY_TIMEOUT_HOURS] *)
Definition Qltb (x y : Q) : bool := negb (Qle_bool y x).

(** [Math.max(7, Math.ceil(REPLY_TIMEOUT_HOURS / 24) + 1)] *)
Definition daysBack (REPLY_TIMEOUT_HOURS : Z) : Z :=
  Z.max 7 (Qceiling (inject_Z REPLY_TIMEOUT_HOURS / 24) + 1).

Section Orchestrator.

Context {W : Type}.

Record GmailClientOps : Type := mkGmailOps {
  authenticate : W -> outcome unit * W;
  findLeaveRequests : Z -> W -> outcome (list Email) * W;
  getEmailAgeHours : Email -> W -> outcome Q * W;
  checkForReply : Email -> W -> outcome bool * W
}.

Record NotificationOps : Type := mkNotifyOps {
  notifyPendingLeaveRequest : Email -> Q -> option string -> W -> outcome bool * W;
  notifySummary : nat -> W -> outcome bool * W
}.

Variable gmailClient : GmailClientOps.
Variable notificationService : NotificationOps.
Variable REPLY_TIMEOUT_HOURS : Z.

(** The agent instance: its collaborators' world and its processed set. *)
Record Agent : Type := mkAgent {
  world : W;
  processedRequests : gset string;
  calls : list Call
}.

(** The state of one run: the instance and the [results] object. *)
Record Frame : Type := mkFrame {
  agent : Agent;
  results : Results
}.

Definition M (A : Type) : Type := Frame -> outcome A * Frame.

Definition ret {A} (a : A) : M A := fun f => (Ok a, f).

Definition bind {A B} (c : M A) (k : A -> M B) : M B :=
  fun f =>
    match c f with
    | (Ok a, f') => k a f'
    | (Throw message, f') => (Throw message, f')
    end.

Notation "x <- c ;; k" := (bind c (fun x => k))
  (at level 100, c at next level, right associativity).
Notation "c ;;; k" := (bind c (fun _ => k))
  (at level 100, right associativity).

(** Await a collaborator's method. *)
Definition perform {A} (op : W -> outcome A * W) : M A :=
  fun f =>
    let '(out, w) := op (world (agent f)) in
    (out, mkFrame (mkAgent w (processedRequests (agent f)) (calls (agent f)))
                  (results f)).

Definition record (c : Call) : M unit :=
  fun f =>
    (Ok tt, mkFrame (mkAgent (world (agent f)) (processedRequests (agent f))
                             (calls (agent f) ++ [c])%list)
                    (results f)).

Definition hasProcessed (requestId : string) : M bool :=
  fun f => (Ok (bool_decide (requestId ∈ processedRequests (agent f))), f).

Definition addProcessed (requestId : string) : M unit :=
  fun f =>
    (Ok tt, mkFrame (mkAgent (world (agent f))
                             ({[requestId]} ∪ processedRequests (agent f))
                             (calls (agent f) ++ [MarkProcessed requestId])%list)
                    (results f)).

Definition update (g : Results -> Results) : M unit :=
  fun f => (Ok tt, mkFrame (agent f) (g (results f))).

(** One iteration of the first loop; [pendingRequests] is the array the
    loop pushes to. *)
Definition evaluateRequest (request : Email) (pendingRequests : list Email)
    : M (list Email) :=
  let requestId := msg_id request in
  processed <- hasProcessed requestId ;;
  if processed then ret pendingRequests
  else
    hoursOld <- perform (getEmailAgeHours gmailClient request) ;;
    record (Evaluated requestId hoursOld) ;;;
    if Qltb hoursOld (inject_Z REPLY_TIMEOUT_HOURS) then ret pendingRequests
    else
      record (CheckForReply requestId) ;;;
      hasReply <- perform (checkForReply gmailClient request) ;;
      if hasReply then
        addProcessed requestId ;;; ret pendingRequests
      else
        update (fun r => mkResults (checked_requests r) (S (pending_requests r))
                           (notifications_sent r) (errors r)) ;;;
        ret (pendingRequests ++ [request])%list.

Fixpoint evaluateAll (leaveRequests : list Email) (pendingRequests : list Email)
    : M (list Email) :=
  match leaveRequests with
  | [] => ret pendingRequests
  | request :: rest =>
      pendingRequests' <- evaluateRequest request pendingRequests ;;
      evaluateAll rest pendingRequests'
  end.

Definition recipientEmailOf (request : Email) : option string :=
  let recipient := JS.or_else (to_ request) "Unknown" in
  if JS.includes recipient "@" then RegExp.search RegExp.emailAddress recipient
  else None.

(** One iteration of the second loop. *)
Definition notifyRequest (request : Email) : M unit :=
  hoursOld <- perform (getEmailAgeHours gmailClient request) ;;
  record (Notify (msg_id request)) ;;;
  perform (notifyPendingLeaveRequest notificationService request hoursOld
             (recipientEmailOf request)) ;;;
  update (fun r => mkResults (checked_requests r) (pending_requests r)
                     (S (notifications_sent r)) (errors r)) ;;;
  addProcessed (msg_id request).

Fixpoint notifyAll (pendingRequests : list Email) : M unit :=
  match pendingRequests with
  | [] => ret tt
  | request :: rest => notifyRequest request ;;; notifyAll rest
  end.

(** The body of the [try] block. *)
Definition scan : M unit :=
  leaveRequests <- perform (findLeaveRequests gmailClient (daysBack REPLY_TIMEOUT_HOURS)) ;;
  update (fun r => mkResults (length leaveRequests) (pending_requests r)
                     (notifications_sent r) (errors r)) ;;;
  pendingRequests <- evaluateAll leaveRequests [] ;;
  notifyAll pendingRequests ;;;
  if (0 <? length pendingRequests)%nat then
    record (Summary (length pendingRequests)) ;;;
    perform (notifySummary notificationService (length pendingRequests)) ;;;
    ret tt
  else ret tt.

Definition emptyResults : Results := mkResults 0 0 0 [].

(** [runOnce()]: [initialize()] is awaited before the [try]; whatever is
    thrown inside the [try] is caught and recorded in [errors]. *)
Definition runOnce (a : Agent) : outcome Results * Agent :=
  match authenticate gmailClient (world a) with
  | (Throw message, w) =>
      (Throw message, mkAgent w (processedRequests a) (calls a))
  | (Ok _, w) =>
      match scan (mkFrame (mkAgent w (processedRequests a) (calls a)) emptyResults) with
      | (Ok _, f) => (Ok (results f), agent f)
      | (Throw message, f) =>
          let r := results f in
          (Ok (mkResults (checked_requests r) (pending_requests r)
                 (notifications_sent r)
                 (errors r ++ [("Error during agent execution: " ++ message)%string])%list),
           agent f)
      end
  end.

(** The outcomes of one iteration of each loop, read off the code: the
    frame reached, the calls added to the log, and the value or exception. *)
Definition frameWith (f : Frame) (w : W) (processed : gset string)
    (new : list Call) (r : Results) : Frame :=
  mkFrame (mkAgent w processed (calls (agent f) ++ new)%list) r.

Definition countPending (r : Results) : Results :=
  mkResults (checked_requests r) (S (pending_requests r))
    (notifications_sent r) (errors r).

Definition countSent (r : Results) : Results :=
  mkResults (checked_requests r) (pending_requests r)
    (S (notifications_sent r)) (errors r).

Inductive evaluated (request : Email) (pendingRequests : list Email) (f : Frame)
    : outcome (list Email) -> Frame -> Prop :=
| ev_already_processed :
    msg_id request ∈ processedRequests (agent f) ->
    evaluated request pendingRequests f (Ok pendingRequests) f
| ev_age_throws message w :
    msg_id request ∉ processedRequests (agent f) ->
    getEmailAgeHours gmailClient request (world (agent f)) = (Throw message, w) ->
    evaluated request pendingRequests f (Throw message)
      (frameWith f w (processedRequests (agent f)) [] (results f))
| ev_within_timeout hoursOld w :
    msg_id request ∉ processedRequests (agent f) ->
    getEmailAgeHours gmailClient request (world (agent f)) = (Ok hoursOld, w) ->
    Qltb hoursOld (inject_Z REPLY_TIMEOUT_HOURS) = true ->
    evaluated request pendingRequests f (Ok pendingRequests)
      (frameWith f w (processedRequests (agent f))
         [Evaluated (msg_id request) hoursOld] (results f))
| ev_check_throws hoursOld w message w' :
    msg_id request ∉ processedRequests (agent f) ->
    getEmailAgeHours gmailClient request (world (agent f)) = (Ok hoursOld, w) ->
    Qltb hoursOld (inject_Z REPLY_TIMEOUT_HOURS) = false ->
    checkForReply gmailClient request w = (Throw message, w') ->
    evaluated request pendingRequests f (Throw message)
      (frameWith f w' (processedRequests (agent f))
         [Evaluated (msg_id request) hoursOld; CheckForReply (msg_id request)]
         (results f))
| ev_reply_found hoursOld w w' :
    msg_id request ∉ processedRequests (agent f) ->
    getEmailAgeHours gmailClient request (world (agent f)) = (Ok hoursOld, w) ->
    Qltb hoursOld (inject_Z REPLY_TIMEOUT_HOURS) = false ->
    checkForReply gmailClient request w = (Ok true, w') ->
    evaluated request pendingRequests f (Ok pendingRequests)
      (frameWith f w' ({[msg_id request]} ∪ processedRequests (agent f))
         [Evaluated (msg_id request) hoursOld; CheckForReply (msg_id request);
          MarkProcessed (msg_id request)]
         (results f))
| ev_queued hoursOld w w' :
    msg_id request ∉ processedRequests (agent f) ->
    getEmailAgeHours gmailClient request (world (agent f)) = (Ok hoursOld, w) ->
    Qltb hoursOld (inject_Z REPLY_TIMEOUT_HOURS) = false ->
    checkForReply gmailClient request w = (Ok false, w') ->
    evaluated request pendingRequests f (Ok (pendingRequests ++ [request])%list)
      (frameWith f w' (processedRequests (agent f))
         [Evaluated (msg_id request) hoursOld; CheckForReply (msg_id request)]
         (countPending (results f))).

Inductive notified (request : Email) (f : Frame) : outcome unit -> Frame -> Prop :=
| nt_age_throws message w :
    getEmailAgeHours gmailClient request (world (agent f)) = (Throw message, w) ->
    notified request f (Throw message)
      (frameWith f w (processedRequests (agent f)) [] (results f))
| nt_notify_throws hoursOld w message w' :
    getEmailAgeHours gmailClient request (world (agent f)) = (Ok hoursOld, w) ->
    notifyPendingLeaveRequest notificationService request hoursOld
      (recipientEmailOf request) w = (Throw message, w') ->
    notified request f (Throw message)
      (frameWith f w' (processedRequests (agent f)) [Notify (msg_id request)]
         (results f))
| nt_dispatched hoursOld w delivered w' :
    getEmailAgeHours gmailClient request (world (agent f)) = (Ok hoursOld, w) ->
    notifyPendingLeaveRequest notificationService request hoursOld
      (recipientEmailOf request) w = (Ok delivered, w') ->
    notified request f (Ok tt)
      (frameWith f w' ({[msg_id request]} ∪ processedRequests (agent f))
         [Notify (msg_id request); MarkProcessed (msg_id request)]
         (countSent (results f))).

(** What the first loop, run over [leaveRequests] from frame [f] to frame
    [f'], has done: [new] are the calls it added and [added] the requests it
    queued. *)
Definition evaluationSummary (leaveRequests : list Email) (f f' : Frame)
    (new : list Call) (added : list Email) : Prop :=
  calls (agent f') = (calls (agent f) ++ new)%list /\
  processedRequests (agent f) ⊆ processedRequests (agent f') /\
  (forall requestId, Notify requestId ∉ new) /\
  (forall count, Summary count ∉ new) /\
  (forall requestId, CheckForReply requestId ∈ new ->
     exists hoursOld, Evaluated requestId hoursOld ∈ new /\
       Qltb hoursOld (inject_Z REPLY_TIMEOUT_HOURS) = false) /\
  (forall requestId, MarkProcessed requestId ∈ new ->
     CheckForReply requestId ∈ new /\
     requestId ∈ processedRequests (agent f') /\
     requestId ∈ msg_id <$> leaveRequests) /\
  (forall requestId, requestId ∈ processedRequests (agent f') ->
     requestId ∈ processedRequests (agent f) \/ MarkProcessed requestId ∈ new) /\
  added `sublist_of` leaveRequests /\
  (forall request, request ∈ added ->
     (msg_id request ∉ processedRequests (agent f)) /\
     CheckForReply (msg_id request) ∈ new) /\
  results f' =
    mkResults (checked_requests (results f))
      (pending_requests (results f) + length added)
      (notifications_sent (results f)) (errors (results f)) /\
  (NoDup (msg_id <$> leaveRequests) ->
     forall request, request ∈ added ->
       msg_id request ∉ processedRequests (agent f')).

(** The calls of one dispatched alert. *)
Definition alertCalls (request : Email) : list Call :=
  [Notify (msg_id request); MarkProcessed (msg_id request)].

(** What the second loop has done when it stops, normally or by an
    exception: [done] are the requests alerted and marked, [tail] the call
    in flight when an exception stopped the loop. *)
Definition notificationSummary (pendingRequests : list Email) (f f' : Frame)
    (out : outcome unit) (done : list Email) (tail : list Call) : Prop :=
  (exists rest, pendingRequests = (done ++ rest)%list /\
     (tail = [] \/ exists request rest', rest = request :: rest' /\
                     tail = [Notify (msg_id request)]) /\
     (forall u, out = Ok u -> rest = [] /\ tail = [])) /\
  calls (agent f') = (calls (agent f) ++ (done ≫= alertCalls) ++ tail)%list /\
  processedRequests (agent f') =
    list_to_set (msg_id <$> done) ∪ processedRequests (agent f) /\
  results f' =
    mkResults (checked_requests (results f)) (pending_requests (results f))
      (notifications_sent (results f) + length done) (errors (results f)).

(** A freshly constructed agent. *)
Definition newAgent (w : W) : Agent := mkAgent w ∅ [].

(** What can happen to an instance during the life of the process: a run
    ([runContinuous] repeats [runOnce] on the same instance), or the outside
    world changing between runs. *)
Inductive later : Agent -> Agent -> Prop :=
| later_refl a : later a a
| later_run a a' a'' out :
    later a a' -> runOnce a' = (out, a'') -> later a a''
| later_world a a' w :
    later a a' ->
    later a (mkAgent w (processedRequests a') (calls a')).

(** No per-candidate alert for an id after it was marked processed. *)
Definition noNotifyAfterMark (log : list Call) : Prop :=
  forall before after requestId,
    log = (before ++ MarkProcessed requestId :: after)%list ->
    Notify requestId ∉ after.

(** The search of the run that starts from the instance [a] lists a
    message at most once, as [users.messages.list] does. *)
Definition searchDistinct (a : Agent) : Prop :=
  forall u w leaveRequests w',
    authenticate gmailClient (world a) = (Ok u, w) ->
    findLeaveRequests gmailClient (daysBack REPLY_TIMEOUT_HOURS) w
      = (Ok leaveRequests, w') ->
    NoDup (msg_id <$> leaveRequests).

(** A life of the instance in which every search listed a message at most
    once. *)
Inductive laterDistinct : Agent -> Agent -> Prop :=
| laterDistinct_refl a : laterDistinct a a
| laterDistinct_run a a' a'' out :
    laterDistinct a a' -> searchDistinct a' -> runOnce a' = (out, a'') ->
    laterDistinct a a''
| laterDistinct_world a a' w :
    laterDistinct a a' ->
    laterDistinct a (mkAgent w (processedRequests a') (calls a')).

(** The ids for which [notifyPendingLeaveRequest] was called, in order. *)
Definition notifyIds (log : list Call) : list string :=
  omap (fun c => match c with Notify requestId => Some requestId | _ => None end) log.

(** What one run that got past [initialize()] has done, from the instance
    [a] to the instance [a'] with result [r]: the search result, the first
    loop ([new], [added], reaching frame [f1]), the second loop ([done],
    [rest], [tail]) and the summary call ([fin]). *)
Definition runSummary (a a' : Agent) (r : Results) : Prop :=
  exists (leaveRequests : list Email) (f0 f1 : Frame)
         (new : list Call) (added done rest : list Email) (tail fin : list Call),
    (searchDistinct a -> NoDup (msg_id <$> leaveRequests)) /\
    processedRequests (agent f0) = processedRequests a /\
    calls (agent f0) = calls a /\
    evaluationSummary leaveRequests f0 f1 new added /\
    added = (done ++ rest)%list /\
    calls a' = (calls (agent f1) ++ (done ≫= alertCalls) ++ tail ++ fin)%list /\
    processedRequests a' =
      list_to_set (msg_id <$> done) ∪ processedRequests (agent f1) /\
    pending_requests r = length added /\
    notifications_sent r = length done /\
    (tail = [] \/ exists request rest', rest = request :: rest' /\
                    tail = [Notify (msg_id request)]) /\
    (fin = [] \/ (fin = [Summary (length added)] /\ rest = [] /\ tail = [])) /\
    (errors r = [] -> rest = [] /\ tail = [] /\
                      checked_requests r = length leaveRequests) /\
    (errors r = [] \/
     exists message, errors r = [("Error during agent execution: " ++ message)%string]).

End Orchestrator.

End Agent.

(** ** Push channel (firebaseService.js) *)

Module FirebaseService.

(** [fcmTokens] is a [Set] of strings: a list without duplicates in
    insertion order, which is the order [Array.from] yields. *)
Record t : Type := mk {
  initialized : bool;
  fcmTokens : list string
}.

Definition addFCMToken (fs : t) (token : string) : t :=
  if negb (String.eqb token "") then
    mk (initialized fs)
       (if bool_decide (token ∈ fcmTokens fs) then fcmTokens fs
        else (fcmTokens fs ++ [token])%list)
  else fs.

(** [Set.prototype.delete] *)
Definition deleteToken (token : string) (tokens : list string) : list string :=
  List.filter (fun t' => negb (String.eqb t' token)) tokens.

Definition removeFCMToken (fs : t) (token : string) : t :=
  mk (initialized fs) (deleteToken token (fcmTokens fs)).

(** The [BatchResponse] of [sendMulticast]: one result per token, in the
    order of the tokens sent. *)
Record BatchResponse : Type := mkResponse {
  responses : list bool;          (* resp.success *)
  successCount : nat;
  failureCount : nat
}.

(** [response.responses.forEach((resp, idx) => ...)]: [tokens[idx]] is
    [undefined] past the end of [tokens], and [failedToken.substring] then
    throws a TypeError, which leaves the registry as pruned so far. *)
Fixpoint pruneFailed (resps : list bool) (idx : nat) (tokens : list string)
    (registry : list string) : bool * list string :=
  match resps with
  | [] => (true, registry)
  | success :: rest =>
      if success then pruneFailed rest (S idx) tokens registry
      else
        match tokens !! idx with
        | Some failedToken =>
            pruneFailed rest (S idx) tokens (deleteToken failedToken registry)
        | None => (false, registry)
        end
  end.

(** [sendNotification(title, body, data)]; [sendMulticast] is the push
    service, [None] when the request is rejected. *)
Definition sendNotification (sendMulticast : list string -> option BatchResponse)
    (fs : t) : bool * t :=
  if negb (initialized fs) || (length (fcmTokens fs) =? 0)%nat then (false, fs)
  else
    let tokens := fcmTokens fs in
    match sendMulticast tokens with
    | None => (false, fs)
    | Some response =>
        if (0 <? failureCount response)%nat then
          let '(completed, registry) :=
            pruneFailed (responses response) 0 tokens (fcmTokens fs) in
          (completed, mk (initialized fs) registry)
        else (true, fs)
    end.

(** [sendSummaryNotification(count)] *)
Definition sendSummaryNotification
    (sendMulticast : list string -> option BatchResponse) (fs : t) (count : nat)
    : bool * t :=
  if (count =? 0)%nat then (true, fs) else sendNotification sendMulticast fs.

(** The token at position [idx] was reported as failed. *)
Definition failed (tokens : list string) (response : BatchResponse)
    (token : string) : Prop :=
  exists idx, tokens !! idx = Some token /\ responses response !! idx = Some false.

End FirebaseService.

(** ** Notification service (notificationService.js) *)

Module NotificationService.

Inductive NotificationType : Type := leave_request | summary | test.

(** A notification record. The rendered texts ([message], the numbers
    printed with [toFixed], the ISO timestamp) are left out; [hoursOld] is
    kept as the number it renders. *)
Record Notification : Type := mkNotification {
  type : NotificationType;
  title : string;
  shortSubject : option string;     (* subject, truncated to 60 characters *)
  data_subject : option string;
  data_emailDate : option string;
  data_hoursOld : option Q;
  data_recipientEmail : option string;
  data_count : option nat
}.

(** A connected event-stream client; [writable] is false when [write]
    throws. *)
Record WebClient : Type := mkClient {
  client_id : nat;
  writable : bool
}.

Record t : Type := mk {
  isProduction : bool;
  webNotifications : list Notification;
  webClients : list WebClient;
  desktopWorks : bool        (* the platform notifier calls back without error *)
}.

(** [sendToWebClients]: a client whose write throws is removed. *)
Definition sendToWebClients (ns : t) : t :=
  mk (isProduction ns) (webNotifications ns)
     (List.filter writable (webClients ns)) (desktopWorks ns).

Definition push (ns : t) (notification : Notification) : t :=
  mk (isProduction ns) (webNotifications ns ++ [notification])%list
     (webClients ns) (desktopWorks ns).

Definition truncateSubject (subject : string) : string :=
  if (60 <? String.length subject)%nat
  then String.substring 0 57 subject ++ "..."
  else subject.

Definition notifyPendingLeaveRequest (ns : t) (request : Email) (hoursOld : Q)
    (recipientEmail : option string) : bool * t :=
  let subject := JS.or_else (subject request) "No Subject" in
  let emailDate := JS.or_else (date request) "Unknown" in
  let notification :=
    mkNotification leave_request "Leave Request - No Reply"
      (Some (truncateSubject subject)) (Some subject) (Some emailDate)
      (Some hoursOld) recipientEmail None in
  if isProduction ns then (true, sendToWebClients (push ns notification))
  else (desktopWorks ns, ns).

Definition notifySummary (ns : t) (count : nat) : bool * t :=
  if (count =? 0)%nat then (true, ns)
  else
    let notification :=
      mkNotification summary "Leave Request Summary"
        None None None None None (Some count) in
    if isProduction ns then (true, sendToWebClients (push ns notification))
    else (desktopWorks ns, ns).

Definition testNotification (ns : t) : bool * t :=
  if isProduction ns then (true, sendToWebClients ns)
  else (desktopWorks ns, ns).

(** [array.slice(start)] *)
Definition sliceFrom {A} (start : Z) (l : list A) : list A :=
  let len := Z.of_nat (length l) in
  let k := if (start <? 0)%Z then Z.max (len + start) 0 else Z.min start len in
  drop (Z.to_nat k) l.

(** [getRecentNotifications(limit = 10)] is [webNotifications.slice(-limit)]. *)
Definition getRecentNotifications (ns : t) (limit : Z) : list Notification :=
  sliceFrom (- limit) (webNotifications ns).

Definition defaultLimit : Z := 10.

End NotificationService.

(** ** The agent with its real collaborators *)

Module Deployment.
Import Agent.

Record Config : Type := mkConfig {
  LEAVE_REQUEST_SUBJECT_KEYWORDS : list string;
  CHECK_INTERVAL_HOURS : Z;
  REPLY_TIMEOUT_HOURS : Z
}.

(** [s.split(',')]; [current] holds the characters of the piece being
    read, last first. *)
Fixpoint splitComma (s : string) (current : string) : list string :=
  match s with
  | EmptyString => [String.rev current]
  | String c s' =>
      if Ascii.eqb c "," then String.rev current :: splitComma s' ""
      else splitComma s' (String c current)
  end.

(** [(process.env.LEAVE_REQUEST_KEYWORDS || '...').split(',').map(k => k.trim())] *)
Definition keywordsFromEnv (env : option string) : list string :=
  List.map JS.trim
    (splitComma
       (JS.or_else env "leave request,leave application,vacation request,leave") "").

Definition defaultConfig : Config := mkConfig (keywordsFromEnv None) 24 1.

(** The world outside the agent. *)
Record World : Type := mkWorld {
  service : GmailService;                 (* the mailbox *)
  credentialsError : option string;       (* what [_authenticate] throws, if it does *)
  now : Z;                                (* the clock, epoch ms *)
  dateStr : Z -> option string;           (* YYYY/MM/DD of now minus so many days;
                                             [None] when that day is outside the
                                             range of [Date] *)
  notifications : NotificationService.t
}.

Definition withNotifications (w : World) (ns : NotificationService.t) : World :=
  mkWorld (service w) (credentialsError w) (now w) (dateStr w) ns.

(** The client of gmailClient.js over the world. [findLeaveRequests]
    formats the first day of the search with [toISOString], which throws
    RangeError: Invalid time value, before the mailbox is asked, when
    [setDate] has moved the date out of the range of [Date]. *)
Definition gmailClient (config : Config) : @GmailClientOps World :=
  mkGmailOps
    (fun w =>
       match credentialsError w with
       | Some message => (Throw message, w)
       | None => (Ok tt, w)
       end)
    (fun daysBack w =>
       match dateStr w daysBack with
       | Some since =>
           (Ok (GmailClient.findLeaveRequests (service w)
                  (LEAVE_REQUEST_SUBJECT_KEYWORDS config) since), w)
       | None => (Throw "Invalid time value", w)
       end)
    (fun email w => (Ok (GmailClient.getEmailAgeHours (now w) email), w))
    (fun email w => (Ok (GmailClient.checkForReply (service w) email), w)).

Definition notificationService : @NotificationOps World :=
  mkNotifyOps
    (fun request hoursOld recipientEmail w =>
       let '(sent, ns) :=
         NotificationService.notifyPendingLeaveRequest (notifications w)
           request hoursOld recipientEmail in
       (Ok sent, withNotifications w ns))
    (fun count w =>
       let '(sent, ns) := NotificationService.notifySummary (notifications w) count in
       (Ok sent, withNotifications w ns)).

Definition runOnce (config : Config) : Agent -> outcome Results * Agent :=
  Agent.runOnce (gmailClient config) notificationService (REPLY_TIMEOUT_HOURS config).

(** A client injected at construction whose [checkForReply] rejects for
    one message id. *)
Definition rejectingClient (config : Config) (badId message : string)
    : @GmailClientOps World :=
  mkGmailOps
    (authenticate (gmailClient config))
    (findLeaveRequests (gmailClient config))
    (getEmailAgeHours (gmailClient config))
    (fun email w =>
       if String.eqb (msg_id email) badId then (Throw message, w)
       else checkForReply (gmailClient config) email w).

End Deployment.

(** ** Sample mailboxes *)

Module Scenario.
Import Agent Deployment.

Definition config48 : Config := mkConfig ["leave request"] 24 48.

Definition sentAt : Z := 1000000000000.
Definition hour : Z := 3600000.

Definition rawRequest : RawMessage :=
  mkRaw "m1" (Some "t1") (Some "Requesting leave") (Some sentAt)
    [("From", "john@example.com"); ("To", "Boss <boss@example.com>");
     ("Subject", "Leave Request - John"); ("Date", "Sun, 09 Sep 2001")]
    "I would like to take leave.".

(** Sent ten hours after the request, by somebody else. *)
Definition rawReply : RawMessage :=
  mkRaw "m2" (Some "t1") (Some "Approved") (Some (sentAt + 10 * hour)%Z)
    [("From", "boss@example.com"); ("To", "john@example.com");
     ("Subject", "Re: Leave Request - John"); ("Date", "Sun, 09 Sep 2001")]
    "Approved.".

Definition rawSecond : RawMessage :=
  mkRaw "m3" (Some "t3") None (Some sentAt)
    [("From", "john@example.com"); ("To", "hr");
     ("Subject", "leave request for May"); ("Date", "Sun, 09 Sep 2001")]
    "".

Definition rawNoSubject : RawMessage :=
  mkRaw "m4" (Some "t4") None (Some sentAt) [("From", "john@example.com")] "".

(** A mailbox: the ids a search lists, and the thread of the request. *)
Definition mailbox (listed : list string) (thread : list RawMessage) : GmailService :=
  mkService
    (fun _ => Some listed)
    (fun messageId =>
       if String.eqb messageId "m1" then Some rawRequest
       else if String.eqb messageId "m2" then Some rawReply
       else if String.eqb messageId "m3" then Some rawSecond
       else if String.eqb messageId "m4" then Some rawNoSubject
       else None)
    (fun threadId =>
       if String.eqb threadId "t1" then Some thread
       else if String.eqb threadId "t3" then Some [rawSecond]
       else None).

Definition desktop (works : bool) : NotificationService.t :=
  NotificationService.mk false [] [] works.

Definition production : NotificationService.t :=
  NotificationService.mk true [] [NotificationService.mkClient 1 true] true.

(** Seventy-two hours after the request was sent. *)
Definition worldWith (svc : GmailService) (ns : NotificationService.t) : World :=
  mkWorld svc None (sentAt + 72 * hour)%Z (fun _ => Some "2001/09/02") ns.

Definition unanswered : World := worldWith (mailbox ["m1"] [rawRequest]) production.
Definition answered : World := worldWith (mailbox ["m1"] [rawRequest; rawReply]) production.
Definition listedTwice : World :=
  worldWith (mailbox ["m1"; "m1"] [rawRequest]) (desktop true).
Definition twoRequests : World :=
  worldWith (mailbox ["m1"; "m3"] [rawRequest]) (desktop true).
Definition notifierDown : World :=
  worldWith (mailbox ["m1"] [rawRequest]) (desktop false).
Definition tooEarly : World :=
  mkWorld (mailbox ["m1"] [rawRequest]) None (sentAt + 10 * hour)%Z
    (fun _ => Some "2001/09/02") (desktop true).
Definition noCredentials : World :=
  mkWorld (mailbox ["m1"] [rawRequest]) (Some "Gmail credentials file not found")
    (sentAt + 72 * hour)%Z (fun _ => Some "2001/09/02") (desktop true).

Definition request : Email :=
  default (mkEmail "" None "" None None None None None "")
    (GmailClient.getEmailDetails (mailbox [] []) "m1").

Definition reply : Email :=
  default (mkEmail "" None "" None None None None None "")
    (GmailClient.getEmailDetails (mailbox [] []) "m2").

Definition second : Email :=
  default (mkEmail "" None "" None None None None None "")
    (GmailClient.getEmailDetails (mailbox [] []) "m3").

Definition noSubject : Email :=
  default (mkEmail "" None "" None None None None None "")
    (GmailClient.getEmailDetails (mailbox [] []) "m4").

(** The instance after one run and after two runs over the same mailbox. *)
Definition afterFirstRun : @Agent World :=
  (Deployment.runOnce config48 (newAgent unanswered)).2.

Definition afterSecondRun : @Agent World :=
  (Deployment.runOnce config48 afterFirstRun).2.

(** Eleven alerts dispatched in production mode. *)
Definition elevenAlerts : NotificationService.t :=
  Nat.iter 11
    (fun ns => (NotificationService.notifyPendingLeaveRequest ns request 72 None).2)
    production.

Definition pushABC : FirebaseService.t := FirebaseService.mk true ["A"; "B"; "C"].

Definition failsForB (tokens : list string) : option FirebaseService.BatchResponse :=
  Some (FirebaseService.mkResponse [true; false; true] 2 1).

End Scenario.

(** ** Notions used to state further properties *)

Module Derived.
Import JS.

(** The value of the last header whose name, lower-cased, is [name]. *)
Fixpoint headerValue (name : string) (headers : list (string * string))
    : option string :=
  match headers with
  | [] => None
  | header :: rest =>
      match headerValue name rest with
      | Some value => Some value
      | None =>
          if String.eqb (toLowerCase (fst header)) name then Some (snd header)
          else None
      end
  end.

(** The messages of a thread sent at a given time, in their order. *)
Definition sentAtTime (d : Z) (messages : list RawMessage) : list RawMessage :=
  List.filter (fun m => (GmailClient.date_of m =? d)%Z) messages.

(** Every character of [s] is in the class [p]. *)
Fixpoint everyChar (p : ascii -> bool) (s : string) : bool :=
  match s with
  | EmptyString => true
  | String c s' => p c && everyChar p s'
  end.

(** local@domain.tld, each part non-empty, the local part and the domain
    made of word characters, dots and hyphens, the last part of word
    characters. *)
Definition addressShaped (m : string) : Prop :=
  exists localPart domain tld,
    m = localPart ++ "@" ++ domain ++ "." ++ tld /\
    localPart <> "" /\ domain <> "" /\ tld <> "" /\
    everyChar RegExp.addressChar localPart = true /\
    everyChar RegExp.addressChar domain = true /\
    everyChar RegExp.wordChar tld = true.

(** A dispatch asked of the notification service. *)
Inductive Dispatch : Type :=
| Alert (request : Email) (hoursOld : Q) (recipientEmail : option string)
| Digest (count : nat)
| Probe.

Definition dispatch (ns : NotificationService.t) (d : Dispatch)
    : bool * NotificationService.t :=
  match d with
  | Alert request hoursOld recipientEmail =>
      NotificationService.notifyPendingLeaveRequest ns request hoursOld recipientEmail
  | Digest count => NotificationService.notifySummary ns count
  | Probe => NotificationService.testNotification ns
  end.

(** The service after a sequence of dispatches. *)
Fixpoint dispatchAll (ns : NotificationService.t) (ds : list Dispatch)
    : NotificationService.t :=
  match ds with
  | [] => ns
  | d :: rest => dispatchAll (dispatch ns d).2 rest
  end.

(** The requests the search of a run finds, with the repository's own
    Gmail client. *)
Definition found (config : Deployment.Config) (w : Deployment.World) : list Email :=
  match Deployment.dateStr w (Agent.daysBack (Deployment.REPLY_TIMEOUT_HOURS config)) with
  | Some since =>
      GmailClient.findLeaveRequests (Deployment.service w)
        (Deployment.LEAVE_REQUEST_SUBJECT_KEYWORDS config) since
  | None => []
  end.

(** The error a run records when the search throws. *)
Definition searchErrors (config : Deployment.Config) (w : Deployment.World)
    : list string :=
  match Deployment.dateStr w (Agent.daysBack (Deployment.REPLY_TIMEOUT_HOURS config)) with
  | Some _ => []
  | None => ["Error during agent execution: Invalid time value"]
  end.

(** The request has reached the reply timeout. *)
Definition overdue (config : Deployment.Config) (w : Deployment.World)
    (request : Email) : bool :=
  negb (Agent.Qltb (GmailClient.getEmailAgeHours (Deployment.now w) request)
          (inject_Z (Deployment.REPLY_TIMEOUT_HOURS config))).

(** The first loop of a run as a function of the mailbox, the clock and
    the processed set: the requests queued for an alert, in order, and the
    processed set after the loop. *)
Fixpoint triage (config : Deployment.Config) (w : Deployment.World)
    (processed : gset string) (requests : list Email) : list Email * gset string :=
  match requests with
  | [] => ([], processed)
  | request :: rest =>
      if bool_decide (msg_id request ∈ processed) then triage config w processed rest
      else if negb (overdue config w request) then triage config w processed rest
      else if GmailClient.checkForReply (Deployment.service w) request then
        triage config w ({[msg_id request]} ∪ processed) rest
      else
        let '(queued, resolved) := triage config w processed rest in
        (request :: queued, resolved)
  end.

(** The dispatches the second loop and the summary step ask of the
    notification service for the queued requests. *)
Definition dispatchesFor (w : Deployment.World) (queued : list Email) : list Dispatch :=
  (List.map (fun request =>
               Alert request
                 (GmailClient.getEmailAgeHours (Deployment.now w) request)
                 (Agent.recipientEmailOf request)) queued
   ++ (if (0 <? length queued)%nat then [Digest (length queued)] else []))%list.

End Derived.

(** ** The Reply Resolver in the specification's words *)

Module ReplyResolver.
Import JS GmailClient.

(** The earliest message of the thread after sorting it ascending by
    internal date, the sort keeping the listed order of messages of equal
    date: the first listed among the messages of least date. *)
Definition earliestOf (messages : list RawMessage) (first : RawMessage) : Prop :=
  exists before after,
    messages = (before ++ first :: after)%list /\
    (forall m, m ∈ before -> (date_of first < date_of m)%Z) /\
    (forall m, m ∈ after -> (date_of first <= date_of m)%Z).

(** A message of the thread other than the original and the earliest one,
    sent strictly after the original. *)
Definition laterMessage (originalEmail : Email) (messages : list RawMessage)
    (m : RawMessage) : Prop :=
  m ∈ messages /\
  raw_id m <> msg_id originalEmail /\
  (exists first, earliestOf messages first /\ raw_id m <> raw_id first) /\
  (parseIntOr0 (internal_date originalEmail) < date_of m)%Z.

(** The claim as stated: the sender and the subject are those of the
    message as the thread lists it. *)
Definition claimedReply (originalEmail : Email) (messages : list RawMessage)
    (m : RawMessage) : Prop :=
  laterMessage originalEmail messages m /\
  (or_else (Derived.headerValue "from" (headers m)) ""
     <> or_else (from_ originalEmail) "" \/
   exists lowered rest,
     Classifier.lowerCased (or_else (Derived.headerValue "subject" (headers m)) "")
       lowered /\
     lowered = "re:" ++ rest).

(** The claim as amended: the sender and the subject are those of the
    details of the message, fetched again by its id, and a message whose
    details cannot be fetched does not count. *)
Definition genuineReply (service : GmailService) (originalEmail : Email)
    (messages : list RawMessage) (m : RawMessage) : Prop :=
  laterMessage originalEmail messages m /\
  exists details, getEmailDetails service (raw_id m) = Some details /\
    (or_else (from_ details) "" <> or_else (from_ originalEmail) "" \/
     exists lowered rest,
       Classifier.lowerCased (or_else (subject details) "") lowered /\
       lowered = "re:" ++ rest).

End ReplyResolver.

(** ** API server and scheduler (server.js) *)

Module Server.
Import Agent Deployment.

(** What a request handler or a scheduled check finds around it:
    [getAuthorizedClient] resolves to the user's mailbox, to [null] when no
    tokens are stored for the user, or rejects; the clock is read once per
    run. *)
Record Env : Type := mkEnv {
  getAuthorizedClient : string -> outcome (option GmailService);
  clock : Z;
  dateOf : Z -> option string;   (* as [dateStr] of the world *)
  production : bool;             (* NODE_ENV === 'production' *)
  notifierWorks : bool
}.

(** [new LeaveRequestAgent(new GmailClient(auth))]: the service of the
    client is set, so [_authenticate] returns at once; the notification
    service and the processed set are new. *)
Definition construct (env : Env) (auth : GmailService) : @Agent World :=
  newAgent
    (mkWorld auth None (clock env) (dateOf env)
       (NotificationService.mk (production env) [] [] (notifierWorks env))).

Inductive Response : Type :=
| Json (results : Results)                 (* 200, { results } *)
| Status (code : Z) (error : string).      (* { error } *)

(** [POST /api/check] *)
Definition apiCheck (config : Config) (env : Env) (userEmail : option string)
    : Response :=
  if negb (JS.truthy userEmail) then Status 400 "userEmail required"
  else
    match getAuthorizedClient env (JS.or_else userEmail "") with
    | Throw message => Status 500 message
    | Ok None => Status 400 "No tokens for this user. Connect Gmail first."
    | Ok (Some auth) =>
        match Deployment.runOnce config (construct env auth) with
        | (Ok results, _) => Json results
        | (Throw message, _) => Status 500 message
        end
    end.

(** One user's turn in the scheduled job; [None] when the user is skipped
    or the check throws, which the job logs and passes over. *)
Definition checkUser (config : Config) (env : Env) (userEmail : string)
    : option (string * Results) :=
  match getAuthorizedClient env userEmail with
  | Ok (Some auth) =>
      match Deployment.runOnce config (construct env auth) with
      | (Ok results, _) => Some (userEmail, results)
      | (Throw _, _) => None
      end
  | _ => None
  end.

(** The scheduled job: the users checked and the result of each check, in
    the order of [listUsers()]; [envAt] is what the job finds around it
    when a user's turn comes. *)
Definition scheduledChecks (config : Config) (envAt : string -> Env)
    (listUsers : outcome (list string)) : list (string * Results) :=
  match listUsers with
  | Throw _ => []
  | Ok users => omap (fun userEmail => checkUser config (envAt userEmail) userEmail) users
  end.

End Server.

(** ** Notification service, push variant (desktop notifications locally,
    push notifications in production) *)

Module PushNotificationService.

Record t : Type := mk {
  isProduction : bool;
  firebaseService : FirebaseService.t;
  initialized : bool;
  desktopWorks : bool        (* the platform notifier calls back without error *)
}.

(** [new NotificationService()] *)
Definition construct (production works : bool) : t :=
  mk production (FirebaseService.mk false []) false works.

(** [firebaseService.initialize()]; [configured] says that the Admin SDK
    has an app already, or that a service account key is set and accepted. *)
Definition firebaseInitialize (configured : bool) (fs : FirebaseService.t)
    : bool * FirebaseService.t :=
  if configured then (true, FirebaseService.mk true (FirebaseService.fcmTokens fs))
  else (false, fs).

Definition initialize (configured : bool) (ns : t) : bool * t :=
  if isProduction ns then
    let '(ok, fs) := firebaseInitialize configured (firebaseService ns) in
    (ok, mk (isProduction ns) fs ok (desktopWorks ns))
  else (true, mk (isProduction ns) (firebaseService ns) true (desktopWorks ns)).

Definition registerFCMToken (ns : t) (token : string) : t :=
  if isProduction ns && initialized ns then
    mk (isProduction ns) (FirebaseService.addFCMToken (firebaseService ns) token)
       (initialized ns) (desktopWorks ns)
  else ns.

Definition unregisterFCMToken (ns : t) (token : string) : t :=
  if isProduction ns && initialized ns then
    mk (isProduction ns) (FirebaseService.removeFCMToken (firebaseService ns) token)
       (initialized ns) (desktopWorks ns)
  else ns.

(** [notifyPendingLeaveRequest]: [sendLeaveRequestNotification] formats the
    texts and calls [sendNotification]. *)
Definition notifyPendingLeaveRequest
    (sendMulticast : list string -> option FirebaseService.BatchResponse) (ns : t)
    : bool * t :=
  if isProduction ns && initialized ns then
    let '(sent, fs) := FirebaseService.sendNotification sendMulticast (firebaseService ns) in
    (sent, mk (isProduction ns) fs (initialized ns) (desktopWorks ns))
  else (desktopWorks ns, ns).

Definition notifySummary
    (sendMulticast : list string -> option FirebaseService.BatchResponse) (ns : t)
    (count : nat) : bool * t :=
  if (count =? 0)%nat then (true, ns)
  else if isProduction ns && initialized ns then
    let '(sent, fs) :=
      FirebaseService.sendSummaryNotification sendMulticast (firebaseService ns) count in
    (sent, mk (isProduction ns) fs (initialized ns) (desktopWorks ns))
  else (desktopWorks ns, ns).

(** [testNotification]: [sendTestNotification] calls [sendNotification]. *)
Definition testNotification
    (sendMulticast : list string -> option FirebaseService.BatchResponse) (ns : t)
    : bool * t :=
  if isProduction ns && initialized ns then
    let '(sent, fs) := FirebaseService.sendNotification sendMulticast (firebaseService ns) in
    (sent, mk (isProduction ns) fs (initialized ns) (desktopWorks ns))
  else (desktopWorks ns, ns).

(** A call made on the service, with the answer of the push service where
    it would be asked. *)
Inductive Op : Type :=
| Initialize (configured : bool)
| Register (token : string)
| Unregister (token : string)
| SendAlert (sendMulticast : list string -> option FirebaseService.BatchResponse)
| SendSummary (sendMulticast : list string -> option FirebaseService.BatchResponse)
              (count : nat)
| SendTest (sendMulticast : list string -> option FirebaseService.BatchResponse).

Definition step (ns : t) (op : Op) : t :=
  match op with
  | Initialize configured => (initialize configured ns).2
  | Register token => registerFCMToken ns token
  | Unregister token => unregisterFCMToken ns token
  | SendAlert sendMulticast => (notifyPendingLeaveRequest sendMulticast ns).2
  | SendSummary sendMulticast count => (notifySummary sendMulticast ns count).2
  | SendTest sendMulticast => (testNotification sendMulticast ns).2
  end.

(** The service after a sequence of calls. *)
Fixpoint run (ns : t) (ops : list Op) : t :=
  match ops with
  | [] => ns
  | op :: rest => run (step ns op) rest
  end.

End PushNotificationService.

(** ** Further sample data *)

Module MoreSamples.
Import Agent Deployment Scenario.

(** The thread lists the request and the reply, but the details of the
    reply cannot be fetched. *)
Definition replyUnfetchable : GmailService :=
  mkService
    (fun _ => Some ["m1"])
    (fun messageId => if String.eqb messageId "m1" then Some rawRequest else None)
    (fun _ => Some [rawRequest; rawReply]).

(** The reply is listed first in the thread, the request second. *)
Definition replyListedFirst : GmailService := mailbox ["m1"] [rawReply; rawRequest].

Definition withSubject (subject : string) : Email :=
  mkEmail "s" None "" None None None (Some subject) None "".

Definition nbsp : string := String (ascii_of_nat 160) "".
Definition capitalEAcute : string := String (ascii_of_nat 201) "".
Definition smallEAcute : string := String (ascii_of_nat 233) "".

(** " Re: leave request", with a leading space; the same with a leading
    no-break space and a tab; "  LEAVE REQUEST  "; and a subject and a
    keyword that differ in the case of a Latin-1 letter. *)
Definition paddedReply : Email := withSubject " Re: leave request".
Definition nbspReply : Email :=
  withSubject (nbsp ++ String (ascii_of_nat 9) "FWD: leave request").
Definition paddedRequest : Email := withSubject "  LEAVE REQUEST  ".
Definition accentedRequest : Email :=
  withSubject ("CONG" ++ capitalEAcute ++ " annuel").
Definition accentedKeyword : string := "cong" ++ smallEAcute.

(** A timeout so long that the first day of the search is outside the
    range of [Date]. *)
Definition config3e9 : Config := mkConfig ["leave request"] 24 3000000000.

Definition outOfRange : World :=
  mkWorld (mailbox ["m1"] [rawRequest]) None (sentAt + 72 * hour)%Z
    (fun days => if (days <? 100000000)%Z then Some "2001/09/02" else None)
    (desktop true).

End MoreSamples.

(** ** Sample server environments *)

Module ServerScenario.
Import Agent Deployment Scenario.

(** The mailbox of the unanswered request, checked 72 and 96 hours after
    the request was sent. *)
Definition inbox : GmailService := mailbox ["m1"] [rawRequest].

Definition envAfter (hours : Z) : Server.Env :=
  Server.mkEnv (fun _ => Ok (Some inbox)) (sentAt + hours * hour)%Z
    (fun _ => Some "2001/09/02") true true.

End ServerScenario.

(* ================================================================== *)
(** * Part II: properties                                              *)
(* ================================================================== *)

(** ** Strings *)

Section StringFacts.

Lemma append_cons (c : ascii) (s1 s2 : string) :
  String c s1 ++ s2 = String c (s1 ++ s2).
Proof. reflexivity. Qed.

Lemma append_nil_r (s : string) : s ++ "" = s.
Proof. induction s as [|c s IH]; [done|]. by rewrite append_cons, IH. Qed.

Lemma append_assoc (s1 s2 s3 : string) : (s1 ++ s2) ++ s3 = s1 ++ (s2 ++ s3).
Proof. induction s1 as [|c s1 IH]; [done|]. by rewrite !append_cons, IH. Qed.

Lemma length_append (s1 s2 : string) :
  String.length (s1 ++ s2) = (String.length s1 + String.length s2)%nat.
Proof.
  induction s1 as [|c s1 IH]; [done|].
  rewrite append_cons. cbn [String.length]. by rewrite IH.
Qed.

Lemma substring_prefix (m rest : string) :
  String.substring 0 (String.length m) (m ++ rest) = m.
Proof.
  induction m as [|c m IH].
  - by destruct rest.
  - rewrite append_cons. cbn [String.length String.substring]. by rewrite IH.
Qed.

Lemma rev_app_append (s1 s2 : string) :
  String.rev_app s1 s2 = String.rev s1 ++ s2.
Proof.
  unfold String.rev. revert s2. induction s1 as [|c s1 IH]; intros s2; cbn [String.rev_app].
  - done.
  - rewrite (IH (String c s2)), (IH (String c "")), append_assoc. done.
Qed.

Lemma rev_cons (c : ascii) (s : string) :
  String.rev (String c s) = String.rev s ++ String c "".
Proof. unfold String.rev at 1. cbn [String.rev_app]. apply rev_app_append. Qed.

Lemma rev_append (s1 s2 : string) :
  String.rev (s1 ++ s2) = String.rev s2 ++ String.rev s1.
Proof.
  induction s1 as [|c s1 IH].
  - change ("" ++ s2) with s2. change (String.rev "") with "". by rewrite append_nil_r.
  - rewrite append_cons, !rev_cons, IH, append_assoc. done.
Qed.

Lemma rev_involutive (s : string) : String.rev (String.rev s) = s.
Proof.
  induction s as [|c s IH]; [done|].
  rewrite rev_cons, rev_append, IH. done.
Qed.

Lemma append_eq_append (a b c d : string) :
  a ++ b = c ++ d ->
  (exists y, c = a ++ y /\ b = y ++ d) \/ (exists z, a = c ++ z /\ d = z ++ b).
Proof.
  revert c. induction a as [|x a IH]; intros c Heq.
  - left. by exists c.
  - destruct c as [|x' c].
    + right. by exists (String x a).
    + rewrite !append_cons in Heq. injection Heq as <- Heq.
      destruct (IH c Heq) as [(y & -> & ->)|(z & -> & ->)].
      * left. by exists y.
      * right. by exists z.
Qed.

Lemma string_last (s : string) :
  s <> "" -> exists init c, s = init ++ String c "".
Proof.
  induction s as [|x s IH]; [done|]. intros _. destruct s as [|y s].
  - by exists "", x.
  - destruct (IH ltac:(done)) as (init & c & Heq). exists (String x init), c.
    by rewrite append_cons, <- Heq.
Qed.

End StringFacts.

(* ------------------------------------------------------------------ *)
(** ** C4: the leave-request classifier *)

Section ClassifierFacts.
Import JS RegExp Classifier.

Ltac case_chars :=
  repeat match goal with
  | |- context [Ascii.eqb ?a ?b] => destruct (Ascii.eqb_spec a b); subst
  | |- context [ascii_dec ?a ?b] => destruct (ascii_dec a b); subst
  end; cbn [orb andb]; try congruence; try reflexivity.

(** The anchored pattern accepts exactly the subjects that start with one
    of the three markers. *)
Lemma replyOrForward_startsWith s :
  matchAtStart replyOrForward s =
  startsWith s "re:" || startsWith s "fwd:" || startsWith s "fw:".
Proof.
  unfold matchAtStart, replyOrForward, startsWith.
  destruct s as [|c1 [|c2 [|c3 [|c4 s]]]];
    cbn [rmatch lit String.prefix orb orElse]; case_chars.
  all: destruct s; reflexivity.
Qed.

Lemma prefix_app k s : String.prefix k s = true <-> exists b, s = k ++ b.
Proof.
  revert s. induction k as [|c k IH]; intros s; simpl.
  - split; [intros _; exists s; reflexivity | intros _; by destruct s].
  - destruct s as [|c' s].
    + split; [discriminate | intros [b Hb]; discriminate].
    + simpl. destruct (ascii_dec c c') as [->|Hne].
      * rewrite IH. split; intros [b Hb]; exists b; [by rewrite Hb | by inversion Hb].
      * split; [discriminate | intros [b Hb]; inversion Hb; congruence].
Qed.

Lemma matchAtStart_prefix s :
  matchAtStart replyOrForward s = true <-> hasReplyForwardPrefix s.
Proof.
  rewrite replyOrForward_startsWith, !orb_true_iff. unfold startsWith, hasReplyForwardPrefix.
  rewrite !prefix_app. split.
  - intros [[[b ->]|[b ->]]|[b ->]]; exists b; tauto.
  - intros [b [->|[->| ->]]]; eauto.
Qed.

Lemma includes_isSubstring s k : includes s k = true <-> isSubstring k s.
Proof.
  unfold isSubstring. induction s as [|c s IH].
  - cbn [includes]. rewrite orb_false_r, prefix_app. split.
    + intros [b Hb]. exists "", b. exact Hb.
    + intros [a [b Hab]]. destruct a; [|discriminate]. exists b. exact Hab.
  - cbn [includes]. rewrite orb_true_iff, prefix_app, IH. split.
    + intros [[b Hb]|[a [b Hab]]].
      * exists "", b. exact Hb.
      * exists (String c a), b. simpl. by rewrite Hab.
    + intros [a [b Hab]]. destruct a as [|c' a].
      * left. exists b. exact Hab.
      * right. exists a, b. simpl in Hab. by inversion Hab.
Qed.

(** *** [toLowerCase] is lower-casing *)

Lemma isUpperCase_capital (c : ascii) :
  isUpperCase c = true <-> isCapital (nat_of_ascii c).
Proof.
  unfold isUpperCase, isCapital.
  rewrite orb_true_iff, !andb_true_iff, negb_true_iff,
    !Nat.leb_le, Nat.eqb_neq. lia.
Qed.

Lemma toLowerCase_lowerCased (s t : string) :
  lowerCased s t <-> t = toLowerCase s.
Proof.
  split.
  - induction 1 as [|c d s t Hcap Hd _ IH|c s t Hcap _ IH]; cbn [toLowerCase];
      unfold lowerChar.
    + done.
    + rewrite (proj2 (isUpperCase_capital c) Hcap), <- Hd, ascii_nat_embedding.
      by rewrite IH.
    + destruct (isUpperCase c) eqn:E; [by apply isUpperCase_capital in E|].
      by rewrite IH.
  - intros ->. induction s as [|c s IH]; cbn [toLowerCase]; [constructor|].
    unfold lowerChar. destruct (isUpperCase c) eqn:E.
    + apply isUpperCase_capital in E. apply lowerCased_capital; [done| |done].
      apply nat_ascii_embedding. unfold isCapital in E. lia.
    + apply lowerCased_other; [|done]. intros Hcap.
      apply isUpperCase_capital in Hcap. congruence.
Qed.

(** *** [trim] is trimming *)

Lemma isWhiteSpace_unit (c : ascii) :
  isWhiteSpace c = true <-> whiteSpaceUnit (nat_of_ascii c).
Proof.
  unfold isWhiteSpace, whiteSpaceUnit.
  rewrite !orb_true_iff, andb_true_iff, !Nat.leb_le, !Nat.eqb_eq. lia.
Qed.

Lemma blank_append (s1 s2 : string) : blank s1 -> blank s2 -> blank (s1 ++ s2).
Proof. induction 1; [done|]. intros H2. rewrite append_cons. constructor; auto. Qed.

Lemma blank_rev (s : string) : blank s -> blank (String.rev s).
Proof.
  induction 1 as [|c s Hc _ IH]; [constructor|].
  rewrite rev_cons. apply blank_append; [done|]. constructor; [done | constructor].
Qed.

Lemma trimStart_blank (s rest : string) :
  blank s -> trimStart (s ++ rest) = trimStart rest.
Proof.
  induction 1 as [|c s Hc _ IH]; [done|].
  rewrite append_cons. cbn [trimStart].
  by rewrite (proj2 (isWhiteSpace_unit c) Hc).
Qed.

Lemma trimStart_unchanged (s : string) : ~ startsBlank s -> trimStart s = s.
Proof.
  destruct s as [|c s]; [done|]. intros Hno. cbn [trimStart].
  destruct (isWhiteSpace c) eqn:E; [|done].
  exfalso. apply Hno. exists c, s. split; [done | by apply isWhiteSpace_unit].
Qed.

Lemma trimStart_split (s : string) :
  exists leading, s = leading ++ trimStart s /\ blank leading /\
                  ~ startsBlank (trimStart s).
Proof.
  induction s as [|c s (leading & Hs & Hb & Hno)].
  - exists "". split; [done|]. split; [constructor|]. by intros (c & rest & [=] & _).
  - cbn [trimStart]. destruct (isWhiteSpace c) eqn:E.
    + exists (String c leading). rewrite append_cons, <- Hs.
      split; [done|]. split; [|done]. constructor; [by apply isWhiteSpace_unit | done].
    + exists "". split; [done|]. split; [constructor|].
      intros (c' & rest & [= <- <-] & Hc). apply isWhiteSpace_unit in Hc. congruence.
Qed.

Lemma startsBlank_rev (s : string) : startsBlank (String.rev s) <-> endsBlank s.
Proof.
  split.
  - intros (c & rest & Hrev & Hc). exists (String.rev rest), c. split; [|done].
    rewrite <- (rev_involutive s), Hrev, rev_cons. done.
  - intros (init & c & -> & Hc). exists c, (String.rev init). split; [|done].
    by rewrite rev_append.
Qed.

Lemma trimEnd_split (s : string) :
  exists trailing, s = trimEnd s ++ trailing /\ blank trailing /\
                   ~ endsBlank (trimEnd s).
Proof.
  unfold trimEnd. destruct (trimStart_split (String.rev s)) as (leading & Hs & Hb & Hno).
  exists (String.rev leading). split; [|split].
  - rewrite <- rev_append, <- Hs. by rewrite rev_involutive.
  - by apply blank_rev.
  - intros Hends. apply Hno. apply startsBlank_rev in Hends.
    by rewrite rev_involutive in Hends.
Qed.

Lemma trim_trimmed (s t : string) : trimmed s t <-> t = trim s.
Proof.
  split.
  - intros (leading & trailing & -> & Hl & Hr & Hstart & Hend). unfold trim.
    rewrite (trimStart_blank _ _ Hl).
    destruct t as [|c t].
    + change ("" ++ trailing) with trailing.
      rewrite <- (append_nil_r trailing), (trimStart_blank _ _ Hr). done.
    + assert (trimStart (String c t ++ trailing) = String c t ++ trailing) as ->.
      { apply trimStart_unchanged. intros (c' & rest & Heq & Hc').
        apply Hstart. exists c', t. rewrite append_cons in Heq.
        injection Heq as <- _. done. }
      unfold trimEnd. rewrite rev_append, (trimStart_blank _ _ (blank_rev _ Hr)).
      rewrite trimStart_unchanged; [by rewrite rev_involutive|].
      by rewrite startsBlank_rev.
  - intros ->. unfold trim.
    destruct (trimStart_split s) as (leading & Hs & Hl & Hstart).
    destruct (trimEnd_split (trimStart s)) as (trailing & Hs' & Hr & Hend).
    exists leading, trailing. split; [by rewrite <- Hs'|].
    do 2 (split; [done|]). split; [|done].
    intros (c & rest & Heq & Hc). apply Hstart.
    exists c, (rest ++ trailing). by rewrite Hs', Heq.
Qed.

Lemma subjectLower_normalized (email : Email) (t : string) :
  normalized (or_else (subject email) "") t <-> t = subjectLower email.
Proof.
  unfold normalized, subjectLower. split.
  - intros (lowered & Hl & Ht). apply toLowerCase_lowerCased in Hl as ->.
    by apply trim_trimmed.
  - intros ->. exists (toLowerCase (or_else (subject email) "")).
    split; [by apply toLowerCase_lowerCased | by apply trim_trimmed].
Qed.

Lemma classifyLoop_filter keywords emails acc :
  classifyLoop keywords emails acc = (acc ++ List.filter (keeps keywords) emails)%list.
Proof.
  revert acc. induction emails as [|e emails IH]; intros acc; simpl.
  - by rewrite app_nil_r.
  - unfold keeps at 1.
    destruct (matchAtStart replyOrForward (subjectLower e)); simpl; [apply IH|].
    destruct (existsb _ keywords); [|apply IH].
    rewrite IH. by rewrite <- app_assoc.
Qed.

Lemma keeps_qualifies keywords email :
  keeps keywords email = true <-> qualifies keywords email.
Proof.
  unfold keeps, qualifies.
  rewrite andb_true_iff, negb_true_iff, existsb_exists.
  split.
  - intros [Hno (keyword & Hin & Hk)]. exists (subjectLower email).
    split; [by apply subjectLower_normalized|]. split.
    + intros Hp. apply matchAtStart_prefix in Hp. congruence.
    + exists keyword, (toLowerCase keyword). split; [by apply list_elem_of_In|].
      split; [by apply toLowerCase_lowerCased | by apply includes_isSubstring].
  - intros (t & Ht & Hno & keyword & k & Hin & Hk & Hsub).
    apply subjectLower_normalized in Ht as ->. apply toLowerCase_lowerCased in Hk as ->.
    split.
    + destruct (matchAtStart replyOrForward (subjectLower email)) eqn:E; [|done].
      by apply matchAtStart_prefix in E.
    + exists keyword. split; [by apply list_elem_of_In | by apply includes_isSubstring].
Qed.

Lemma classify_elem keywords emails email :
  email ∈ classify keywords emails <-> email ∈ emails /\ qualifies keywords email.
Proof.
  unfold classify. rewrite classifyLoop_filter. simpl.
  rewrite list_elem_of_In, filter_In, <- list_elem_of_In, keeps_qualifies. tauto.
Qed.

Lemma lowerCased_empty_inv k : lowerCased k "" -> k = "".
Proof. by inversion 1. Qed.

Lemma normalized_blank (s : string) : blank s -> normalized s "".
Proof.
  intros Hb. assert (Hl : lowerCased s s).
  { induction Hb as [|c s Hc _ IH]; [constructor|]. apply lowerCased_other; [|done].
    unfold isCapital, whiteSpaceUnit in *. lia. }
  exists s. split; [done|]. exists s, "". rewrite append_nil_r.
  split; [done|]. split; [done|]. split; [constructor|].
  split; [by intros (? & ? & [=] & _)|].
  intros (init & c & Heq & _). by destruct init.
Qed.

Lemma blank_append_inv (s1 s2 : string) : blank (s1 ++ s2) -> blank s1 /\ blank s2.
Proof.
  induction s1 as [|c s1 IH]; [by split; [constructor|]|].
  rewrite append_cons. inversion 1; subst. destruct (IH ltac:(done)). split; [|done].
  by constructor.
Qed.

Lemma endsBlank_last (s : string) (c : ascii) :
  endsBlank (s ++ String c "") <-> whiteSpaceUnit (nat_of_ascii c).
Proof.
  rewrite <- startsBlank_rev, rev_append. change (String.rev (String c "")) with (String c "").
  rewrite append_cons. split.
  - by intros (c' & rest & [= <- _] & Hc).
  - intros Hc. by exists c, ("" ++ String.rev s).
Qed.

Lemma trimEnd_keeps_prefix (p x : string) :
  ~ endsBlank p -> exists rest, trimEnd (p ++ x) = p ++ rest.
Proof.
  intros Hp. destruct (trimEnd_split (p ++ x)) as (trailing & Heq & Hb & _).
  destruct (append_eq_append _ _ _ _ Heq) as [(y & Ht & _)|(z & Hz & Htrail)].
  - by exists y.
  - destruct z as [|c z];
      [exists ""; rewrite append_nil_r in Hz; by rewrite append_nil_r|].
    exfalso. apply Hp. rewrite Htrail in Hb. apply blank_append_inv in Hb as [Hb _].
    destruct (string_last (String c z) ltac:(done)) as (init & d & Hlast).
    rewrite Hlast in Hb. apply blank_append_inv in Hb as [_ Hd]. inversion Hd; subst.
    rewrite Hz, Hlast, <- append_assoc. by apply endsBlank_last.
Qed.

Lemma toLowerCase_append (s1 s2 : string) :
  toLowerCase (s1 ++ s2) = toLowerCase s1 ++ toLowerCase s2.
Proof.
  induction s1 as [|c s1 IH]; [done|].
  rewrite append_cons. cbn [toLowerCase]. by rewrite IH, append_cons.
Qed.

Lemma toLowerCase_blank (s : string) : blank s -> toLowerCase s = s.
Proof.
  induction 1 as [|c s Hc _ IH]; [done|]. cbn [toLowerCase]. rewrite IH. f_equal.
  unfold lowerChar. destruct (isUpperCase c) eqn:E; [|done].
  apply isUpperCase_capital in E. unfold isCapital, whiteSpaceUnit in *. lia.
Qed.

Lemma marker_survives (padding marker rest low : string) :
  blank padding -> lowerCased marker low -> ~ startsBlank low -> ~ endsBlank low ->
  low <> "" ->
  exists rest', trim (toLowerCase (padding ++ marker ++ rest)) = low ++ rest'.
Proof.
  intros Hpad Hlow Hstart Hend Hne. apply toLowerCase_lowerCased in Hlow.
  rewrite !toLowerCase_append, (toLowerCase_blank _ Hpad), <- Hlow.
  unfold trim. rewrite (trimStart_blank _ _ Hpad).
  rewrite trimStart_unchanged; [by apply trimEnd_keeps_prefix|].
  intros (c & tail & Heq & Hc). apply Hstart. destruct low as [|c' low]; [done|].
  rewrite append_cons in Heq. injection Heq as <- _. by exists c', low.
Qed.

Lemma marker_shape (low : string) :
  low = "re:" \/ low = "fwd:" \/ low = "fw:" ->
  ~ startsBlank low /\ ~ endsBlank low /\ low <> "".
Proof.
  intros Hlow. split; [|split].
  - intros (c & rest & Heq & Hc).
    destruct Hlow as [->|[->| ->]]; injection Heq as <- _;
      unfold whiteSpaceUnit in Hc; vm_compute in Hc; lia.
  - intros Hends.
    destruct Hlow as [->|[->| ->]];
      [change "re:" with ("re" ++ ":") in Hends
      |change "fwd:" with ("fwd" ++ ":") in Hends
      |change "fw:" with ("fw" ++ ":") in Hends];
      apply endsBlank_last in Hends; unfold whiteSpaceUnit in Hends; vm_compute in Hends; lia.
  - by destruct Hlow as [->|[->| ->]].
Qed.

(** C4 (as amended). The filter of [findLeaveRequests] keeps exactly the
    messages of the search result, in their order, whose subject,
    lower-cased and trimmed, has no re:, fwd: or fw: prefix and contains a
    configured keyword, lower-cased, as a substring. A subject that,
    lower-cased and trimmed, starts with such a prefix is excluded whatever
    the keywords are: so is every subject made of white space, then one of
    the three markers in any mix of capital and small letters, then any
    text. A message whose subject is absent, empty or made of white space
    only is excluded provided no configured keyword is the empty string. *)
Theorem C4_classify_keeps_exactly_qualifying (keywords : list string) (emails : list Email) :
  (forall email, email ∈ classify keywords emails <->
                 email ∈ emails /\ qualifies keywords email) /\
  classify keywords emails = List.filter (keeps keywords) emails /\
  (forall email t, normalized (or_else (subject email) "") t ->
                   hasReplyForwardPrefix t ->
                   email ∉ classify keywords emails) /\
  (forall email padding marker rest,
     subject email = Some (padding ++ marker ++ rest) ->
     blank padding ->
     lowerCased marker "re:" \/ lowerCased marker "fwd:" \/ lowerCased marker "fw:" ->
     email ∉ classify keywords emails) /\
  ("" ∉ keywords ->
   forall email,
     subject email = None \/ (exists s, subject email = Some s /\ blank s) ->
     email ∉ classify keywords emails).
Proof.
  assert (Hprefix : forall email t, normalized (or_else (subject email) "") t ->
            hasReplyForwardPrefix t -> email ∉ classify keywords emails).
  { intros email t Ht Hp Hin. apply classify_elem in Hin as [_ (t' & Ht' & Hno & _)].
    apply subjectLower_normalized in Ht, Ht'. congruence. }
  split; [intros email; apply classify_elem|].
  split; [unfold classify; by rewrite classifyLoop_filter|].
  split; [exact Hprefix|]. split.
  - intros email padding marker rest Hsubject Hpad Hmarker.
    apply (Hprefix email (subjectLower email)); [by apply subjectLower_normalized|].
    assert (exists low, lowerCased marker low /\
              (low = "re:" \/ low = "fwd:" \/ low = "fw:")) as (low & Hlow & Hwhich).
    { destruct Hmarker as [?|[?|?]]; eauto 6. }
    destruct (marker_shape low Hwhich) as (Hstart & Hend & Hne).
    destruct (marker_survives padding marker rest low Hpad Hlow Hstart Hend Hne)
      as (rest' & Htrim).
    unfold subjectLower. rewrite Hsubject.
    assert (or_else (Some (padding ++ marker ++ rest)) "" = padding ++ marker ++ rest) as ->.
    { unfold or_else. destruct (String.eqb_spec (padding ++ marker ++ rest) "") as [Heq|]; [|done].
      rewrite Heq in Htrim. destruct low; [done | discriminate Htrim]. }
    rewrite Htrim. exists rest'. destruct Hwhich as [->|[->| ->]]; tauto.
  - intros Hk email Hs Hin. apply classify_elem in Hin as [_ (t & Ht & _ & keyword & k & Hin & Hlow & Hsub)].
    assert (Hblank : blank (or_else (subject email) "")).
    { destruct Hs as [->|(s & -> & Hb)]; [constructor|].
      unfold or_else. destruct (String.eqb s ""); [constructor | done]. }
    apply normalized_blank in Hblank. apply subjectLower_normalized in Ht, Hblank.
    rewrite <- Hblank in Ht. subst t.
    destruct Hsub as (a & b & Hab). destruct a; [|discriminate].
    destruct k; [|discriminate]. apply lowerCased_empty_inv in Hlow. by subst.
Qed.

End ClassifierFacts.

Section ReplyResolverFacts.
Import JS GmailClient.

Lemma or_else_truthy (x : option string) d :
  truthy x = true -> x = Some (or_else x d).
Proof.
  destruct x as [t|]; simpl; [|discriminate].
  destruct (String.eqb t ""); [discriminate | reflexivity].
Qed.

Lemma truthy_Some t : t <> "" -> truthy (Some t) = true.
Proof.
  intros Ht. simpl. destruct (String.eqb_spec t ""); [contradiction | reflexivity].
Qed.

(** The sort only reorders the thread, and orders it by date. *)
Lemma insertByDate_Permutation m l : insertByDate m l ≡ₚ m :: l.
Proof.
  induction l as [|x l IH]; simpl; [reflexivity|].
  destruct (date_of m <=? date_of x)%Z; [reflexivity|].
  rewrite IH. apply Permutation_swap.
Qed.

Lemma sortByDate_Permutation messages : sortByDate messages ≡ₚ messages.
Proof.
  induction messages as [|m l IH]; simpl; [reflexivity|].
  rewrite insertByDate_Permutation. by rewrite IH.
Qed.

Lemma ascending_cons x l :
  ascending (x :: l) <->
  (forall y, y ∈ l -> (date_of x <= date_of y)%Z) /\ ascending l.
Proof.
  split.
  - intros H. split.
    + intros y Hy. apply list_elem_of_lookup in Hy as [j Hj].
      apply (H 0%nat (S j) x y); [reflexivity | exact Hj | lia].
    + intros i j a b Hi Hj Hij. apply (H (S i) (S j) a b); [exact Hi | exact Hj | lia].
  - intros [Hx Hl] i j a b Hi Hj Hij. destruct i as [|i], j as [|j]; simpl in *.
    + inversion Hi; inversion Hj; subst. lia.
    + inversion Hi; subst. apply Hx. by eapply list_elem_of_lookup_2.
    + lia.
    + apply (Hl i j); [done | done | lia].
Qed.

Lemma insertByDate_ascending m l : ascending l -> ascending (insertByDate m l).
Proof.
  induction l as [|x l IH]; intros Hl; simpl.
  - apply ascending_cons. split; [intros y Hy; inversion Hy | exact Hl].
  - destruct (Z.leb_spec (date_of m) (date_of x)) as [Hle|Hgt].
    + apply ascending_cons. split; [|exact Hl].
      apply ascending_cons in Hl as [Hx _].
      intros y Hy. apply elem_of_cons in Hy as [->|Hy]; [lia|].
      specialize (Hx y Hy). lia.
    + apply ascending_cons in Hl as [Hx Hl']. apply ascending_cons. split; [|by apply IH].
      intros y Hy. rewrite insertByDate_Permutation in Hy.
      apply elem_of_cons in Hy as [->|Hy]; [lia | by apply Hx].
Qed.

Lemma sortByDate_ascending messages : ascending (sortByDate messages).
Proof.
  induction messages as [|m l IH]; simpl.
  - intros i j x y Hi. inversion Hi.
  - by apply insertByDate_ascending.
Qed.

(** [firstMessage] is a message of the thread with the least date. *)
Lemma firstMessage_earliest messages first :
  head (sortByDate messages) = Some first ->
  first ∈ messages /\ forall m, m ∈ messages -> (date_of first <= date_of m)%Z.
Proof.
  intros Hh. pose proof (sortByDate_ascending messages) as Hs.
  pose proof (sortByDate_Permutation messages) as Hp.
  destruct (sortByDate messages) as [|x l]; [discriminate|]. inversion Hh; subst x.
  apply ascending_cons in Hs as [Hx _]. split.
  - rewrite <- Hp. left.
  - intros m Hm. rewrite <- Hp in Hm. apply elem_of_cons in Hm as [->|Hm]; [lia | by apply Hx].
Qed.

Lemma head_insertByDate m l :
  head (insertByDate m l) =
  Some (match head l with
        | Some x => if (date_of m <=? date_of x)%Z then m else x
        | None => m
        end).
Proof. destruct l as [|x l]; simpl; [done|]. by destruct (date_of m <=? date_of x)%Z. Qed.

(** Ties keep the fetch order: [firstMessage] is the first message of the
    thread, in fetch order, among those with the least date. *)
Lemma firstMessage_first_of_earliest before first after :
  (forall m, m ∈ before -> (date_of first < date_of m)%Z) ->
  (forall m, m ∈ after -> (date_of first <= date_of m)%Z) ->
  head (sortByDate (before ++ first :: after)) = Some first.
Proof.
  intros Hbefore Hafter. induction before as [|x before IH]; simpl.
  - rewrite head_insertByDate.
    destruct (head (sortByDate after)) as [y|] eqn:Hy; [|done].
    apply firstMessage_earliest in Hy as [Hy _].
    destruct (Z.leb_spec (date_of first) (date_of y)); [done|].
    specialize (Hafter y Hy). lia.
  - rewrite head_insertByDate, IH by set_solver.
    destruct (Z.leb_spec (date_of x) (date_of first)); [|done].
    assert (date_of first < date_of x)%Z by set_solver. lia.
Qed.

Lemma looksLikeReply_spec originalEmail details :
  looksLikeReply originalEmail details = true <->
  or_else (from_ details) "" <> or_else (from_ originalEmail) "" \/
  startsWith (toLowerCase (or_else (subject details) "")) "re:" = true.
Proof.
  unfold looksLikeReply. rewrite orb_true_iff, negb_true_iff.
  destruct (String.eqb_spec (or_else (from_ originalEmail) "") (or_else (from_ details) "")) as [He|Hne].
  - split; (intros [H|H]; [congruence | by right]).
  - split; intros _; left; [congruence | reflexivity].
Qed.

Lemma replyLoop_true service originalEmail first messages :
  replyLoop service originalEmail first messages = true <->
  exists m, m ∈ messages /\
    raw_id m <> msg_id originalEmail /\
    first <> Some (raw_id m) /\
    (parseIntOr0 (internal_date originalEmail) < date_of m)%Z /\
    exists details, getEmailDetails service (raw_id m) = Some details /\
      looksLikeReply originalEmail details = true.
Proof.
  induction messages as [|x l IH]; cbn [replyLoop].
  - split; [discriminate | intros [m [Hm _]]; inversion Hm].
  - assert (Hrest : (exists m, m ∈ l /\
        raw_id m <> msg_id originalEmail /\ first <> Some (raw_id m) /\
        (parseIntOr0 (internal_date originalEmail) < date_of m)%Z /\
        exists details, getEmailDetails service (raw_id m) = Some details /\
          looksLikeReply originalEmail details = true) ->
      exists m, m ∈ x :: l /\
        raw_id m <> msg_id originalEmail /\ first <> Some (raw_id m) /\
        (parseIntOr0 (internal_date originalEmail) < date_of m)%Z /\
        exists details, getEmailDetails service (raw_id m) = Some details /\
          looksLikeReply originalEmail details = true).
    { intros [m [Hm H]]. exists m. split; [by right | exact H]. }
    destruct (String.eqb_spec (raw_id x) (msg_id originalEmail)) as [Heq|Hne]; cbn [orb].
    { rewrite IH. split; [exact Hrest|].
      intros [m [Hm H]]. apply elem_of_cons in Hm as [->|Hm]; [tauto | by exists m]. }
    case_bool_decide as Hfirst.
    { rewrite IH. split; [exact Hrest|].
      intros [m [Hm H]]. apply elem_of_cons in Hm as [->|Hm]; [tauto | by exists m]. }
    destruct (Z.ltb_spec (parseIntOr0 (internal_date originalEmail)) (date_of x)) as [Hlt|Hge].
    2:{ rewrite IH. split; [exact Hrest|].
        intros [m [Hm H]]. apply elem_of_cons in Hm as [->|Hm]; [lia | by exists m]. }
    destruct (getEmailDetails service (raw_id x)) as [d|] eqn:Hd.
    2:{ rewrite IH. split; [exact Hrest|].
        intros [m [Hm H]]. apply elem_of_cons in Hm as [->|Hm]; [|by exists m].
        destruct H as (_ & _ & _ & d & Hd' & _). congruence. }
    destruct (looksLikeReply originalEmail d) eqn:Hl.
    + split; [intros _|reflexivity]. exists x. split; [left|]. eauto 10.
    + rewrite IH. split; [exact Hrest|].
      intros [m [Hm H]]. apply elem_of_cons in Hm as [->|Hm]; [|by exists m].
      destruct H as (_ & _ & _ & d' & Hd' & Hl'). congruence.
Qed.

(** Every thread that holds a message has an earliest one. *)
Lemma earliest_exists messages :
  messages <> [] -> exists first, ReplyResolver.earliestOf messages first.
Proof.
  induction messages as [|x l IH]; [done|]. intros _.
  destruct l as [|y l].
  { exists x, [], []. split; [done|]. by split; intros m Hm; apply elem_of_nil in Hm. }
  destruct (IH ltac:(done)) as (first & before & after & Hl & Hbefore & Hafter).
  destruct (Z.leb_spec (date_of x) (date_of first)) as [Hle|Hgt].
  - exists x, [], (y :: l). split; [done|].
    split; [intros m Hm; by apply elem_of_nil in Hm|].
    intros m Hm. rewrite Hl in Hm. apply elem_of_app in Hm as [Hm|Hm].
    + specialize (Hbefore m Hm). lia.
    + apply elem_of_cons in Hm as [->|Hm]; [done|]. specialize (Hafter m Hm). lia.
  - exists first, (x :: before), after. split; [by rewrite Hl|]. split; [|done].
    intros m Hm. apply elem_of_cons in Hm as [->|Hm]; [done | by apply Hbefore].
Qed.

Lemma earliest_is_first messages first :
  ReplyResolver.earliestOf messages first ->
  firstMessageId messages = Some (raw_id first).
Proof.
  intros (before & after & -> & Hbefore & Hafter). unfold firstMessageId.
  by rewrite (firstMessage_first_of_earliest before first after Hbefore Hafter).
Qed.

Lemma not_first_iff messages m :
  m ∈ messages ->
  firstMessageId messages <> Some (raw_id m) <->
  exists first, ReplyResolver.earliestOf messages first /\ raw_id m <> raw_id first.
Proof.
  intros Hin. split.
  - intros Hne. destruct (earliest_exists messages) as (first & Hfirst).
    { intros ->. by apply elem_of_nil in Hin. }
    exists first. split; [done|]. intros Heq. apply Hne.
    by rewrite (earliest_is_first _ _ Hfirst), Heq.
  - intros (first & Hfirst & Hne). rewrite (earliest_is_first _ _ Hfirst). congruence.
Qed.

End ReplyResolverFacts.

(** ** The orchestrator *)

Section OrchestratorFacts.
Import Agent.

Context {W : Type}.
Variable gmailClient : @GmailClientOps W.
Variable notificationService : @NotificationOps W.
Variable REPLY_TIMEOUT_HOURS : Z.

Local Abbreviation evaluateRequest := (evaluateRequest gmailClient REPLY_TIMEOUT_HOURS).
Local Abbreviation evaluateAll := (evaluateAll gmailClient REPLY_TIMEOUT_HOURS).
Local Abbreviation notifyRequest := (notifyRequest gmailClient notificationService).
Local Abbreviation notifyAll := (notifyAll gmailClient notificationService).
Local Abbreviation scan := (scan gmailClient notificationService REPLY_TIMEOUT_HOURS).
Local Abbreviation runOnce := (runOnce gmailClient notificationService REPLY_TIMEOUT_HOURS).
Local Abbreviation evaluated := (evaluated gmailClient REPLY_TIMEOUT_HOURS).
Local Abbreviation notified := (notified gmailClient notificationService).

Ltac by_case H :=
  unfold frameWith in H; simpl in H;
  rewrite ?app_nil_r in H; rewrite <- ?app_assoc; exact H.

Lemma evaluateRequest_evaluated request pendingRequests f out f' :
  evaluateRequest request pendingRequests f = (out, f') ->
  evaluated request pendingRequests f out f'.
Proof.
  unfold Agent.evaluateRequest, bind, hasProcessed, perform, record, addProcessed,
    update, ret. simpl.
  case_bool_decide as Hp.
  { intros [= <- <-]. by constructor. }
  destruct (getEmailAgeHours gmailClient request (world (agent f)))
    as [[hoursOld|message] w] eqn:Hage; simpl.
  2:{ intros [= <- <-].
      pose proof (ev_age_throws gmailClient REPLY_TIMEOUT_HOURS request pendingRequests f
                    message w Hp Hage) as H. by_case H. }
  destruct (Qltb hoursOld (inject_Z REPLY_TIMEOUT_HOURS)) eqn:Hlt; simpl.
  { intros [= <- <-].
    pose proof (ev_within_timeout gmailClient REPLY_TIMEOUT_HOURS request pendingRequests f
                  hoursOld w Hp Hage Hlt) as H. by_case H. }
  destruct (checkForReply gmailClient request w) as [[[|]|message] w'] eqn:Hreply; simpl.
  - intros [= <- <-].
    pose proof (ev_reply_found gmailClient REPLY_TIMEOUT_HOURS request pendingRequests f
                  hoursOld w w' Hp Hage Hlt Hreply) as H. by_case H.
  - intros [= <- <-].
    pose proof (ev_queued gmailClient REPLY_TIMEOUT_HOURS request pendingRequests f
                  hoursOld w w' Hp Hage Hlt Hreply) as H. by_case H.
  - intros [= <- <-].
    pose proof (ev_check_throws gmailClient REPLY_TIMEOUT_HOURS request pendingRequests f
                  hoursOld w message w' Hp Hage Hlt Hreply) as H. by_case H.
Qed.

Lemma notifyRequest_notified request f out f' :
  notifyRequest request f = (out, f') -> notified request f out f'.
Proof.
  unfold Agent.notifyRequest, bind, perform, record, addProcessed, update, ret. simpl.
  destruct (getEmailAgeHours gmailClient request (world (agent f)))
    as [[hoursOld|message] w] eqn:Hage; simpl.
  2:{ intros [= <- <-].
      pose proof (nt_age_throws gmailClient notificationService request f
                    message w Hage) as H. by_case H. }
  destruct (notifyPendingLeaveRequest notificationService request hoursOld
              (recipientEmailOf request) w)
    as [[delivered|message] w'] eqn:Hn; simpl.
  - intros [= <- <-].
    pose proof (nt_dispatched gmailClient notificationService request f
                  hoursOld w delivered w' Hage Hn) as H. by_case H.
  - intros [= <- <-].
    pose proof (nt_notify_throws gmailClient notificationService request f
                  hoursOld w message w' Hage Hn) as H. by_case H.
Qed.

Local Abbreviation evaluationSummary := (@Agent.evaluationSummary W REPLY_TIMEOUT_HOURS).

Lemma results_eta (r : Results) :
  mkResults (checked_requests r) (pending_requests r) (notifications_sent r) (errors r) = r.
Proof. by destruct r. Qed.

Lemma evaluated_summary request pendingRequests f out f' :
  evaluated request pendingRequests f out f' ->
  exists new added,
    evaluationSummary [request] f f' new added /\
    (forall pendingRequests', out = Ok pendingRequests' ->
       pendingRequests' = (pendingRequests ++ added)%list).
Proof.
  intros H. unfold Agent.evaluationSummary.
  inversion H; subst; unfold frameWith; simpl;
    [ exists [], []
    | exists [], []
    | exists [Evaluated (msg_id request) hoursOld], []
    | exists [Evaluated (msg_id request) hoursOld; CheckForReply (msg_id request)], []
    | exists [Evaluated (msg_id request) hoursOld; CheckForReply (msg_id request);
              MarkProcessed (msg_id request)], []
    | exists [Evaluated (msg_id request) hoursOld; CheckForReply (msg_id request)],
             [request] ];
    rewrite ?app_nil_r, ?Nat.add_0_r, ?results_eta;
    (split; [|intros ? [=]; by subst]);
    repeat split;
    try apply sublist_nil_l; try reflexivity;
    try (unfold countPending; simpl; f_equal; lia);
    try (intros ? ?; exists hoursOld);
    set_solver.
Qed.

Lemma evaluationSummary_nil f : evaluationSummary [] f f [] [].
Proof.
  unfold Agent.evaluationSummary. rewrite app_nil_r, Nat.add_0_r, results_eta.
  repeat split; try reflexivity; set_solver.
Qed.

Lemma evaluationSummary_first request rest f f' new added :
  evaluationSummary [request] f f' new added ->
  evaluationSummary (request :: rest) f f' new added.
Proof.
  unfold Agent.evaluationSummary.
  intros (Hc & Hp & Hn & Hs & Hr & Hm & Hin & Hsub & Hadd & Hres & Hnd).
  do 5 (split; [done|]).
  split.
  { intros id Hid. apply Hm in Hid as (Ha & Hb & Hc'). set_solver. }
  split; [done|].
  split.
  { etrans; [exact Hsub|]. apply sublist_skip, sublist_nil_l. }
  do 2 (split; [done|]).
  intros _ r Hr'. apply Hnd; [apply NoDup_singleton | done].
Qed.

Lemma evaluationSummary_cons request rest f f1 f' new1 added1 new2 added2 :
  evaluationSummary [request] f f1 new1 added1 ->
  evaluationSummary rest f1 f' new2 added2 ->
  evaluationSummary (request :: rest) f f'
    (new1 ++ new2)%list (added1 ++ added2)%list.
Proof.
  unfold Agent.evaluationSummary.
  intros (Hc1 & Hp1 & Hn1 & Hs1 & Hr1 & Hm1 & Hin1 & Hsub1 & Hadd1 & Hres1 & Hnd1)
         (Hc2 & Hp2 & Hn2 & Hs2 & Hr2 & Hm2 & Hin2 & Hsub2 & Hadd2 & Hres2 & Hnd2).
  split; [by rewrite Hc2, Hc1, app_assoc|].
  split; [set_solver|].
  split; [set_solver|].
  split; [set_solver|].
  split.
  { intros id Hid. apply elem_of_app in Hid as [Hid|Hid].
    - destruct (Hr1 id Hid) as [h [Hh Hlt]]. exists h. set_solver.
    - destruct (Hr2 id Hid) as [h [Hh Hlt]]. exists h. set_solver. }
  split.
  { intros id Hid. apply elem_of_app in Hid as [Hid|Hid].
    - destruct (Hm1 id Hid) as (Ha & Hb & Hc). set_solver.
    - destruct (Hm2 id Hid) as (Ha & Hb & Hc). set_solver. }
  split.
  { intros id Hid. destruct (Hin2 id Hid) as [Hid'|Hid']; [|set_solver].
    destruct (Hin1 id Hid'); set_solver. }
  split.
  { change (request :: rest) with ([request] ++ rest)%list. by apply sublist_app. }
  split.
  { intros r Hr. apply elem_of_app in Hr as [Hr|Hr].
    - destruct (Hadd1 r Hr). set_solver.
    - destruct (Hadd2 r Hr). set_solver. }
  split.
  { rewrite Hres2, Hres1. simpl. rewrite length_app. f_equal. lia. }
  intros Hnd r Hr. rewrite fmap_cons in Hnd. apply NoDup_cons in Hnd as [Hfresh Hnd].
  apply elem_of_app in Hr as [Hr|Hr]; [|by apply Hnd2].
  assert (r = request) as ->.
  { pose proof (elem_of_sublist _ _ r Hr Hsub1). set_solver. }
  intros Hin. apply Hin2 in Hin as [Hin|Hin].
  - revert Hin. apply Hnd1; [apply NoDup_singleton | done].
  - apply Hm2 in Hin as (_ & _ & Hin). contradiction.
Qed.

Lemma evaluateAll_summary leaveRequests pendingRequests f out f' :
  evaluateAll leaveRequests pendingRequests f = (out, f') ->
  exists new added,
    evaluationSummary leaveRequests f f' new added /\
    (forall pendingRequests', out = Ok pendingRequests' ->
       pendingRequests' = (pendingRequests ++ added)%list).
Proof.
  revert pendingRequests f.
  induction leaveRequests as [|request rest IH]; intros pendingRequests f.
  - intros [= <- <-]. exists [], []. split; [apply evaluationSummary_nil|].
    intros ? [= <-]. by rewrite app_nil_r.
  - cbn [Agent.evaluateAll]. unfold bind.
    destruct (evaluateRequest request pendingRequests f) as [[pending1|message] f1] eqn:Hstep;
      apply evaluateRequest_evaluated, evaluated_summary in Hstep
        as (new1 & added1 & Hsum1 & Hout1).
    + intros Hrest. apply IH in Hrest as (new2 & added2 & Hsum2 & Hout2).
      exists (new1 ++ new2)%list, (added1 ++ added2)%list.
      split; [by eapply evaluationSummary_cons|].
      intros p Hp. rewrite (Hout2 p Hp), (Hout1 pending1 eq_refl). by rewrite app_assoc.
    + intros [= <- <-]. exists new1, added1.
      split; [by apply evaluationSummary_first | by intros ? [=]].
Qed.

Lemma notified_summary request f out f' :
  notified request f out f' ->
  exists done tail, notificationSummary [request] f f' out done tail.
Proof.
  intros H. unfold notificationSummary.
  inversion H; subst; unfold frameWith; simpl.
  - exists [], []. simpl. rewrite Nat.add_0_r, results_eta, app_nil_r.
    split; [|split; [done|split; [set_solver|done]]].
    exists [request]. split; [done|]. split; [by left | by intros ? [=]].
  - exists [], [Notify (msg_id request)]. simpl. rewrite Nat.add_0_r, results_eta.
    split; [|split; [done|split; [set_solver|done]]].
    exists [request]. split; [done|]. split; [right; eauto | by intros ? [=]].
  - exists [request], []. simpl.
    split; [|split; [done|split; [set_solver|unfold countSent; f_equal; lia]]].
    exists []. split; [done|]. split; [by left | done].
Qed.

Lemma notifyAll_summary pendingRequests f out f' :
  notifyAll pendingRequests f = (out, f') ->
  exists done tail, notificationSummary pendingRequests f f' out done tail.
Proof.
  revert f. induction pendingRequests as [|request rest IH]; intros f.
  - intros [= <- <-]. exists [], []. unfold notificationSummary. simpl.
    rewrite Nat.add_0_r, results_eta, app_nil_r.
    split; [|split; [done|split; [set_solver|done]]].
    exists []. split; [done|]. split; [by left | done].
  - cbn [Agent.notifyAll]. unfold bind.
    destruct (notifyRequest request f) as [[[]|message] f1] eqn:Hstep;
      apply notifyRequest_notified in Hstep.
    + intros Hrest. apply IH in Hrest as (done2 & tail2 & Hsum2).
      inversion Hstep; subst.
      destruct Hsum2 as ((rest2 & Hsplit & Htail & Hok) & Hcalls & Hproc & Hres).
      exists (request :: done2), tail2. unfold notificationSummary.
      unfold frameWith in *. simpl in *.
      split; [|split; [|split]].
      * exists rest2. split; [by rewrite Hsplit | done].
      * rewrite Hcalls. by rewrite <- !app_assoc.
      * rewrite Hproc. set_solver.
      * rewrite Hres. f_equal. lia.
    + intros [= <- <-]. apply notified_summary in Hstep as (done1 & tail1 & Hsum1).
      destruct Hsum1 as ((rest1 & Hsplit & Htail & Hok) & Hcalls & Hproc & Hres).
      exists done1, tail1. unfold notificationSummary.
      split; [|done].
      exists (rest1 ++ rest)%list. split; [by rewrite app_assoc, <- Hsplit|].
      split; [|by intros ? [=]].
      destruct Htail as [->|(r & rest' & -> & ->)]; [by left|].
      right. exists r, (rest' ++ rest)%list. done.
Qed.

Local Abbreviation runSummary :=
  (@Agent.runSummary W gmailClient REPLY_TIMEOUT_HOURS).
Local Abbreviation searchDistinct :=
  (@Agent.searchDistinct W gmailClient REPLY_TIMEOUT_HOURS).

Lemma runOnce_cases a out a' :
  runOnce a = (out, a') ->
  match authenticate gmailClient (world a) with
  | (Throw message, w) =>
      out = Throw message /\ a' = mkAgent w (processedRequests a) (calls a)
  | (Ok _, w) => exists r, out = Ok r /\ runSummary a a' r
  end.
Proof.
  unfold Agent.runOnce.
  destruct (authenticate gmailClient (world a)) as [[[]|message] w] eqn:Hauth;
    [|by intros [= <- <-]].
  unfold Agent.scan, bind, perform, update, record, ret. simpl.
  destruct (findLeaveRequests gmailClient (daysBack REPLY_TIMEOUT_HOURS) w)
    as [[leaveRequests|message] w0] eqn:Hfind; simpl.
  2:{ intros [= <- <-]. eexists. split; [reflexivity|].
      exists [], (mkFrame (mkAgent w0 (processedRequests a) (calls a)) emptyResults),
        (mkFrame (mkAgent w0 (processedRequests a) (calls a)) emptyResults),
        [], [], [], [], [], [].
      simpl. rewrite app_nil_r.
      split; [intros _; constructor|]. do 2 (split; [done|]).
      split; [apply evaluationSummary_nil|]. do 2 (split; [done|]).
      split; [set_solver|]. do 2 (split; [done|]).
      split; [by left|]. split; [by left|]. split; [done|]. right. eauto. }
  set (f0 := mkFrame (mkAgent w0 (processedRequests a) (calls a))
               (mkResults (length leaveRequests) 0 0 [])).
  destruct (evaluateAll leaveRequests [] f0) as [[pendingRequests|message] f1] eqn:Heval;
    apply evaluateAll_summary in Heval as (new & added & Hsum & Hout); simpl.
  2:{ intros [= <- <-]. eexists. split; [reflexivity|].
      exists leaveRequests, f0, f1, new, added, [], added, [], [].
      destruct Hsum as (Hc & Hp & Hn & Hs & Hr & Hm & Hin & Hsub & Hadd & Hres & Hnd).
      rewrite Hres. simpl. rewrite app_nil_r.
      split; [intros Hd; exact (Hd _ _ _ _ Hauth Hfind)|]. do 2 (split; [done|]).
      split; [done|]. do 2 (split; [done|]).
      split; [set_solver|]. do 2 (split; [done|]).
      split; [by left|]. split; [by left|]. split; [done|]. right. eauto. }
  specialize (Hout _ eq_refl). simpl in Hout. subst pendingRequests.
  destruct (notifyAll added f1) as [[[]|message] f2] eqn:Hnotify;
    apply notifyAll_summary in Hnotify
      as (done & tail & (rest & Hsplit & Htail & Hok) & Hcalls & Hproc & Hres2);
    destruct Hsum as (Hc & Hp & Hn & Hs & Hr & Hm & Hin & Hsub & Hadd & Hres & Hnd);
    pose proof (conj Hc (conj Hp (conj Hn (conj Hs (conj Hr (conj Hm (conj Hin
                 (conj Hsub (conj Hadd (conj Hres Hnd)))))))))) as Hsum;
    simpl.
  2:{ intros [= <- <-]. eexists. split; [reflexivity|].
      exists leaveRequests, f0, f1, new, added, done, rest, tail, [].
      rewrite Hres2, Hres. simpl. rewrite app_nil_r.
      split; [intros Hd; exact (Hd _ _ _ _ Hauth Hfind)|]. do 2 (split; [done|]).
      split; [done|]. split; [done|]. split; [done|]. split; [done|].
      do 2 (split; [done|]).
      split; [done|]. split; [by left|]. split; [done|]. right. eauto. }
  destruct (Hok _ eq_refl) as [-> ->]. rewrite app_nil_r in Hsplit. subst done.
  destruct (0 <? length added)%nat eqn:Hlen; simpl.
  - destruct (notifySummary notificationService (length added) (world (agent f2)))
      as [[delivered|message] w3]; simpl.
    + intros [= <- <-]. eexists. split; [reflexivity|].
      exists leaveRequests, f0, f1, new, added, added, [], [], [Summary (length added)].
      rewrite Hres2, Hres. simpl.
      split; [intros Hd; exact (Hd _ _ _ _ Hauth Hfind)|]. do 2 (split; [done|]).
      split; [done|]. split; [by rewrite app_nil_r|].
      split; [rewrite Hcalls; by rewrite <- ?app_assoc, ?app_nil_r|]. split; [done|].
      do 2 (split; [done|]).
      split; [by left|]. split; [by right|]. split; [done|]. by left.
    + intros [= <- <-]. eexists. split; [reflexivity|].
      exists leaveRequests, f0, f1, new, added, added, [], [], [Summary (length added)].
      rewrite Hres2, Hres. simpl.
      split; [intros Hd; exact (Hd _ _ _ _ Hauth Hfind)|]. do 2 (split; [done|]).
      split; [done|]. split; [by rewrite app_nil_r|].
      split; [rewrite Hcalls; by rewrite <- ?app_assoc, ?app_nil_r|]. split; [done|].
      do 2 (split; [done|]).
      split; [by left|]. split; [by right|]. split; [done|]. right. eauto.
  - intros [= <- <-]. eexists. split; [reflexivity|].
    exists leaveRequests, f0, f1, new, added, added, [], [], [].
    rewrite Hres2, Hres. simpl.
    split; [intros Hd; exact (Hd _ _ _ _ Hauth Hfind)|]. do 2 (split; [done|]).
    split; [done|]. split; [by rewrite app_nil_r|].
    split; [rewrite Hcalls; by rewrite <- ?app_assoc, ?app_nil_r|]. split; [done|].
    do 2 (split; [done|]).
    split; [by left|]. split; [by left|]. split; [done|]. by left.
Qed.

(** *** Alerts and marks in the call log *)

Lemma noNotifyAfterMark_app l1 l2 :
  noNotifyAfterMark l1 -> noNotifyAfterMark l2 ->
  (forall requestId, MarkProcessed requestId ∈ l1 -> Notify requestId ∉ l2) ->
  noNotifyAfterMark (l1 ++ l2).
Proof.
  intros H1 H2 Hcross before after id Heq Hin.
  apply app_eq_app in Heq as [l [[-> Heq]|[-> ->]]].
  - destruct l as [|c l]; simpl in Heq.
    + subst l2. by eapply (H2 []).
    + injection Heq as Hc Ha. subst c after. apply elem_of_app in Hin as [Hin|Hin].
      * by eapply H1.
      * eapply Hcross; [|exact Hin]. set_solver.
  - by eapply H2.
Qed.

Lemma noNotifyAfterMark_no_notify l :
  (forall requestId, Notify requestId ∉ l) -> noNotifyAfterMark l.
Proof. intros H before after id -> Hin. apply (H id). set_solver. Qed.

Lemma noNotifyAfterMark_no_mark l :
  (forall requestId, MarkProcessed requestId ∉ l) -> noNotifyAfterMark l.
Proof. intros H before after id -> Hin. apply (H id). set_solver. Qed.

Lemma elem_of_alerts (c : Call) (done : list Email) :
  c ∈ done ≫= alertCalls ->
  exists request, request ∈ done /\
    (c = Notify (msg_id request) \/ c = MarkProcessed (msg_id request)).
Proof.
  intros H. apply list_elem_of_bind in H as (request & Hc & Hr).
  exists request. split; [done|]. unfold alertCalls in Hc. set_solver.
Qed.

Lemma noNotifyAfterMark_alerts (done : list Email) :
  NoDup (msg_id <$> done) -> noNotifyAfterMark (done ≫= alertCalls).
Proof.
  induction done as [|request rest IH]; intros Hnd.
  - apply noNotifyAfterMark_no_notify. set_solver.
  - rewrite fmap_cons in Hnd. apply NoDup_cons in Hnd as [Hfresh Hnd].
    change ((request :: rest) ≫= alertCalls)
      with (alertCalls request ++ (rest ≫= alertCalls))%list.
    apply noNotifyAfterMark_app; [|by apply IH|].
    + intros before after id Heq Hin. unfold alertCalls in Heq.
      destruct before as [|c1 [|c2 [|c3 before]]]; simpl in Heq; try discriminate.
      all: try (destruct before; discriminate).
      injection Heq as _ _ <-. set_solver.
    + intros id Hm Hn. unfold alertCalls in Hm.
      assert (id = msg_id request) as -> by set_solver.
      apply elem_of_alerts in Hn as (r & Hr & [[= Hid]|[=]]).
      apply Hfresh. rewrite Hid. by apply list_elem_of_fmap_2.
Qed.

(** The facts about one run that the claims draw on. *)
(** *** The alerts of a log *)

Lemma elem_of_notifyIds (requestId : string) (log : list Call) :
  requestId ∈ notifyIds log <-> Notify requestId ∈ log.
Proof.
  unfold notifyIds. rewrite list_elem_of_omap. split.
  - intros (c & Hin & Hc). destruct c; try discriminate. by injection Hc as ->.
  - intros Hin. by exists (Notify requestId).
Qed.

Lemma notifyIds_app (l1 l2 : list Call) :
  notifyIds (l1 ++ l2) = (notifyIds l1 ++ notifyIds l2)%list.
Proof. apply omap_app. Qed.

Lemma notifyIds_none (log : list Call) :
  (forall requestId, Notify requestId ∉ log) -> notifyIds log = [].
Proof.
  intros Hno. destruct (notifyIds log) as [|requestId rest] eqn:Hids; [done|].
  exfalso. apply (Hno requestId), elem_of_notifyIds. rewrite Hids. apply list_elem_of_here.
Qed.

Lemma notifyIds_alerts (done : list Email) :
  notifyIds (done ≫= alertCalls) = msg_id <$> done.
Proof. induction done as [|request rest IH]; [done|]. cbn. by rewrite <- IH. Qed.

Lemma runSummary_facts a a' r :
  runSummary a a' r ->
  exists new,
    calls a' = (calls a ++ new)%list /\
    processedRequests a ⊆ processedRequests a' /\
    (forall requestId, Notify requestId ∈ new -> requestId ∉ processedRequests a) /\
    (forall requestId, CheckForReply requestId ∈ new ->
       exists hoursOld, Evaluated requestId hoursOld ∈ new /\
         Qltb hoursOld (inject_Z REPLY_TIMEOUT_HOURS) = false) /\
    (forall requestId, requestId ∈ processedRequests a' ->
       requestId ∈ processedRequests a \/
       (CheckForReply requestId ∈ new /\ MarkProcessed requestId ∈ new)) /\
    (forall requestId, MarkProcessed requestId ∈ new ->
       requestId ∈ processedRequests a' /\ CheckForReply requestId ∈ new) /\
    (errors r = [] \/ (exists count, Summary count ∈ new) ->
       notifications_sent r = pending_requests r /\
       forall requestId, Notify requestId ∈ new ->
                         requestId ∈ processedRequests a') /\
    ((notifications_sent r <= length (notifyIds new))%nat /\
     (errors r = [] -> notifications_sent r = length (notifyIds new))) /\
    (searchDistinct a -> noNotifyAfterMark new).
Proof.
  intros (leaveRequests & f0 & f1 & new & added & done & rest & tail & fin &
          Hdist & Hp0 & Hc0 & Hsum & Hsplit & Hcalls & Hproc & Hpend & Hsent &
          Htail & Hfin & Herr & Hshape).
  destruct Hsum as (Hc & Hp & Hn & Hs & Hr & Hm & Hin & Hsub & Hadd & Hres & Hnd).
  rewrite Hp0 in *. rewrite Hc0 in *.
  exists (new ++ (done ≫= alertCalls) ++ tail ++ fin)%list.
  assert (Htail' : forall c, c ∈ tail ->
            exists request, request ∈ rest /\ c = Notify (msg_id request)).
  { intros c Hc'. destruct Htail as [->|(request & rest' & -> & ->)]; [set_solver|].
    exists request. set_solver. }
  assert (Hfin' : forall c, c ∈ fin -> c = Summary (length added)).
  { intros c Hc'. destruct Hfin as [->|(-> & _)]; set_solver. }
  assert (Hnotify : forall id,
            Notify id ∈ (new ++ (done ≫= alertCalls) ++ tail ++ fin)%list ->
            exists request, request ∈ added /\ id = msg_id request).
  { intros id Hid. rewrite !elem_of_app in Hid.
    destruct Hid as [Hid|[Hid|[Hid|Hid]]].
    - by apply Hn in Hid.
    - apply elem_of_alerts in Hid as (request & Hreq & [[= ->]|[=]]).
      exists request. set_solver.
    - apply Htail' in Hid as (request & Hreq & [= ->]). exists request. set_solver.
    - apply Hfin' in Hid. discriminate. }
  split; [rewrite Hcalls, Hc; by rewrite <- app_assoc|].
  split; [set_solver|].
  split.
  { intros id Hid. apply Hnotify in Hid as (request & Hreq & ->). by apply Hadd. }
  split.
  { intros id Hid. rewrite !elem_of_app in Hid.
    destruct Hid as [Hid|[Hid|[Hid|Hid]]].
    - destruct (Hr id Hid) as (h & Hh & Hlt). exists h. set_solver.
    - apply elem_of_alerts in Hid as (request & _ & [[=]|[=]]).
    - apply Htail' in Hid as (request & _ & [=]).
    - apply Hfin' in Hid. discriminate. }
  split.
  { intros id Hid. rewrite Hproc in Hid. apply elem_of_union in Hid as [Hid|Hid].
    - right. apply elem_of_list_to_set, list_elem_of_fmap in Hid as (request & -> & Hreq).
      split.
      + destruct (Hadd request) as [_ Hcheck]; set_solver.
      + rewrite !elem_of_app. right; left. apply list_elem_of_bind.
        exists request. unfold alertCalls. set_solver.
    - apply Hin in Hid as [Hid|Hid]; [by left|]. right.
      destruct (Hm id Hid) as (Hcheck & _ & _). set_solver. }
  split.
  { intros id Hid. rewrite Hproc. rewrite !elem_of_app in Hid.
    destruct Hid as [Hid|[Hid|[Hid|Hid]]].
    - destruct (Hm id Hid) as (Hcheck & Hin' & _). set_solver.
    - apply elem_of_alerts in Hid as (request & Hreq & [[=]|[= ->]]). split.
      + apply elem_of_union_l, elem_of_list_to_set. by apply list_elem_of_fmap_2.
      + destruct (Hadd request) as [_ Hcheck]; set_solver.
    - apply Htail' in Hid as (request & _ & [=]).
    - apply Hfin' in Hid. discriminate. }
  split.
  { intros Hcomplete.
    assert (rest = [] /\ tail = []) as [-> ->].
    { destruct Hcomplete as [He|[count Hcount]]; [by apply Herr in He as (? & ? & _)|].
      rewrite !elem_of_app in Hcount. destruct Hcount as [Hc'|[Hc'|[Hc'|Hc']]].
      - by apply Hs in Hc'.
      - apply elem_of_alerts in Hc' as (request & _ & [[=]|[=]]).
      - apply Htail' in Hc' as (request & _ & [=]).
      - destruct Hfin as [->|(_ & -> & ->)]; [set_solver | done]. }
    rewrite app_nil_r in Hsplit. subst done.
    split; [congruence|].
    intros id Hid. apply Hnotify in Hid as (request & Hreq & ->).
    rewrite Hproc. apply elem_of_union_l, elem_of_list_to_set.
    by apply list_elem_of_fmap_2. }
  split.
  { rewrite !notifyIds_app, (notifyIds_none new Hn), notifyIds_alerts.
    assert (notifyIds fin = []) as ->.
    { apply notifyIds_none. intros id Hid. apply Hfin' in Hid. discriminate. }
    rewrite app_nil_r, app_nil_l, length_app, length_fmap, Hsent. split; [lia|].
    intros He. destruct (Herr He) as (_ & -> & _). cbn. lia. }
  intros Hd. specialize (Hdist Hd). specialize (Hnd Hdist).
  assert (Hadded : NoDup (msg_id <$> added)).
  { eapply sublist_NoDup; [exact Hdist | by apply (fmap_sublist msg_id)]. }
  rewrite Hsplit, fmap_app in Hadded. apply NoDup_app in Hadded as (Hdone & Hdisj & Hrest).
  apply noNotifyAfterMark_app; [by apply noNotifyAfterMark_no_notify| |].
  - apply noNotifyAfterMark_app; [by apply noNotifyAfterMark_alerts| |].
    + apply noNotifyAfterMark_no_mark. intros id Hid.
      apply elem_of_app in Hid as [Hid|Hid].
      * apply Htail' in Hid as (request & _ & [=]).
      * apply Hfin' in Hid. discriminate.
    + intros id Hmark Hid.
      apply elem_of_alerts in Hmark as (r1 & Hr1 & [[=]|[= ->]]).
      apply elem_of_app in Hid as [Hid|Hid].
      * apply Htail' in Hid as (r2 & Hr2 & [= Heq]).
        apply (Hdisj (msg_id r1)); [by apply list_elem_of_fmap_2|].
        rewrite Heq. by apply list_elem_of_fmap_2.
      * apply Hfin' in Hid. discriminate.
  - intros id Hmark Hid. destruct (Hm id Hmark) as (_ & Hin1 & _).
    assert (Hid' : Notify id ∈ (new ++ (done ≫= alertCalls) ++ tail ++ fin)%list)
      by set_solver.
    apply Hnotify in Hid' as (request & Hreq & ->). by apply (Hnd request).
Qed.

Lemma runOnce_run_facts a out a' :
  runOnce a = (out, a') ->
  exists new,
    calls a' = (calls a ++ new)%list /\
    processedRequests a ⊆ processedRequests a' /\
    (forall requestId, Notify requestId ∈ new -> requestId ∉ processedRequests a) /\
    (forall requestId, CheckForReply requestId ∈ new ->
       exists hoursOld, Evaluated requestId hoursOld ∈ new /\
         Qltb hoursOld (inject_Z REPLY_TIMEOUT_HOURS) = false) /\
    (forall requestId, requestId ∈ processedRequests a' ->
       requestId ∈ processedRequests a \/
       (CheckForReply requestId ∈ new /\ MarkProcessed requestId ∈ new)) /\
    (forall requestId, MarkProcessed requestId ∈ new ->
       requestId ∈ processedRequests a' /\ CheckForReply requestId ∈ new) /\
    (searchDistinct a -> noNotifyAfterMark new).
Proof.
  intros Hrun. apply runOnce_cases in Hrun.
  destruct (authenticate gmailClient (world a)) as [[[]|message] w].
  - destruct Hrun as (r & -> & Hsum).
    apply runSummary_facts in Hsum
      as (new & H1 & H2 & H3 & H4 & H5 & H6 & _ & _ & H9).
    exists new. done.
  - destruct Hrun as [-> ->]. exists []. simpl. rewrite app_nil_r.
    split; [done|]. split; [done|]. split; [set_solver|]. split; [set_solver|].
    split; [by left|]. split; [set_solver|].
    intros _. apply noNotifyAfterMark_no_notify. set_solver.
Qed.

Local Abbreviation later :=
  (@Agent.later W gmailClient notificationService REPLY_TIMEOUT_HOURS).

Lemma later_trans a a' a'' : later a a' -> later a' a'' -> later a a''.
Proof.
  intros H1 H2. induction H2 as [|a' b b' out H2 IH Hrun|a' b w H2 IH]; [done| |].
  - eapply later_run; [by apply IH | exact Hrun].
  - apply later_world. by apply IH.
Qed.

Lemma later_facts a a' :
  later a a' ->
  processedRequests a ⊆ processedRequests a' /\
  exists new, calls a' = (calls a ++ new)%list /\
    forall requestId, requestId ∈ processedRequests a -> Notify requestId ∉ new.
Proof.
  induction 1 as [a|a a' a'' out Hlater IH Hrun|a a' w Hlater IH].
  - split; [done|]. exists []. rewrite app_nil_r. set_solver.
  - destruct IH as (Hsub & new1 & Hc1 & Hn1).
    apply runOnce_run_facts in Hrun as (new2 & Hc2 & Hsub2 & Hn2 & _).
    split; [set_solver|]. exists (new1 ++ new2)%list.
    split; [rewrite Hc2, Hc1; by rewrite app_assoc|].
    intros id Hid Hin. apply elem_of_app in Hin as [Hin|Hin]; [by eapply Hn1|].
    eapply Hn2; [exact Hin|]. set_solver.
  - exact IH.
Qed.

Local Abbreviation laterDistinct :=
  (@Agent.laterDistinct W gmailClient notificationService REPLY_TIMEOUT_HOURS).

Lemma laterDistinct_later a a' : laterDistinct a a' -> later a a'.
Proof.
  induction 1 as [a|a a' a'' out _ IH _ Hrun|a a' w _ IH].
  - apply later_refl.
  - by eapply later_run.
  - by apply later_world.
Qed.

(** An instance is consistent when its log shows no alert for an id after
    the id was marked, and every marked id is in the processed set. *)
Lemma laterDistinct_consistent a a' :
  laterDistinct a a' ->
  noNotifyAfterMark (calls a) ->
  (forall requestId, MarkProcessed requestId ∈ calls a ->
                     requestId ∈ processedRequests a) ->
  noNotifyAfterMark (calls a') /\
  (forall requestId, MarkProcessed requestId ∈ calls a' ->
                     requestId ∈ processedRequests a').
Proof.
  induction 1 as [a|a a' a'' out Hlater IH Hdistinct Hrun|a a' w Hlater IH];
    intros Hlog Hmarks; [done| |by apply IH].
  destruct (IH Hlog Hmarks) as [Hlog' Hmarks'].
  apply runOnce_run_facts in Hrun as (new & Hc & Hsub & Hn & _ & _ & Hm & Hnew).
  rewrite Hc. split.
  - apply noNotifyAfterMark_app; [done | by apply Hnew |].
    intros id Hid Hin. by apply (Hn id Hin), Hmarks'.
  - intros id Hid. apply elem_of_app in Hid as [Hid|Hid]; [|by apply Hm].
    apply Hsub. by apply Hmarks'.
Qed.

(** Over the life of an instance, with any injected collaborators. *)
Lemma processed_ids_over_the_life (w : W) (a a' : Agent) :
  later (newAgent w) a ->
  later a a' ->
  processedRequests a ⊆ processedRequests a' /\
  (exists new, calls a' = (calls a ++ new)%list /\
     forall requestId, requestId ∈ processedRequests a -> Notify requestId ∉ new) /\
  (forall r a'', runOnce a' = (Ok r, a'') ->
     exists new,
       calls a'' = (calls a' ++ new)%list /\
       (notifications_sent r <= length (notifyIds new))%nat /\
       (errors r = [] -> notifications_sent r = length (notifyIds new)) /\
       forall requestId, requestId ∈ notifyIds new ->
                         (requestId ∉ processedRequests a') /\
                         (requestId ∉ processedRequests a)) /\
  (laterDistinct (newAgent w) a' -> noNotifyAfterMark (calls a')).
Proof.
  intros Hnew Hlater.
  destruct (later_facts _ _ Hlater) as [Hsub Hcalls].
  split; [done|]. split; [done|]. split.
  - intros r a'' Hrun. apply runOnce_cases in Hrun.
    destruct (authenticate gmailClient (world a')) as [[[]|message] w'];
      [|by destruct Hrun].
    destruct Hrun as (r' & [= <-] & Hsum).
    apply runSummary_facts in Hsum
      as (new & Hc & _ & Hno & _ & _ & _ & _ & [Hle Heq] & _).
    exists new. do 3 (split; [done|]).
    intros requestId Hid. apply elem_of_notifyIds in Hid.
    specialize (Hno _ Hid). split; [done | set_solver].
  - intros Hall.
    eapply laterDistinct_consistent; [exact Hall | |].
    + apply noNotifyAfterMark_no_notify. set_solver.
    + set_solver.
Qed.

(** *** Exceptions inside the scan *)

Lemma evaluateAll_app before rest : forall pendingRequests f,
  evaluateAll (before ++ rest) pendingRequests f =
  match evaluateAll before pendingRequests f with
  | (Ok pendingRequests', f') => evaluateAll rest pendingRequests' f'
  | (Throw message, f') => (Throw message, f')
  end.
Proof.
  induction before as [|request before IH]; intros pendingRequests f; [done|].
  cbn [app Agent.evaluateAll]. unfold bind.
  destruct (evaluateRequest request pendingRequests f) as [[p|m] f1]; [apply IH | done].
Qed.

Lemma notifyAll_app before rest : forall f,
  notifyAll (before ++ rest) f =
  match notifyAll before f with
  | (Ok _, f') => notifyAll rest f'
  | (Throw message, f') => (Throw message, f')
  end.
Proof.
  induction before as [|request before IH]; intros f; [done|].
  cbn [app Agent.notifyAll]. unfold bind.
  destruct (notifyRequest request f) as [[[]|m] f1]; [apply IH | done].
Qed.

Lemma evaluateRequest_throw_results request pendingRequests f message f' :
  evaluateRequest request pendingRequests f = (Throw message, f') ->
  results f' = results f.
Proof. intros H. apply evaluateRequest_evaluated in H. by inversion H. Qed.

Lemma notifyRequest_throw_results request f message f' :
  notifyRequest request f = (Throw message, f') -> results f' = results f.
Proof. intros H. apply notifyRequest_notified in H. by inversion H. Qed.

Lemma evaluateAll_ok_results leaveRequests f pendingRequests f' :
  evaluateAll leaveRequests [] f = (Ok pendingRequests, f') ->
  results f' =
    mkResults (checked_requests (results f))
      (pending_requests (results f) + length pendingRequests)
      (notifications_sent (results f)) (errors (results f)).
Proof.
  intros H. apply evaluateAll_summary in H as (new & added & Hsum & Hout).
  rewrite (Hout _ eq_refl). by destruct Hsum as (_ & _ & _ & _ & _ & _ & _ & _ & _ & -> & _).
Qed.

Lemma notifyAll_ok_results pendingRequests f f' :
  notifyAll pendingRequests f = (Ok tt, f') ->
  results f' =
    mkResults (checked_requests (results f)) (pending_requests (results f))
      (notifications_sent (results f) + length pendingRequests) (errors (results f)).
Proof.
  intros H. apply notifyAll_summary in H
    as (done & tail & (rest & Hsplit & _ & Hok) & _ & _ & Hres).
  destruct (Hok _ eq_refl) as [-> _]. rewrite app_nil_r in Hsplit. by subst.
Qed.

(** C3 (as amended). [runOnce] throws what [initialize()] throws, and
    returns the summary whenever [initialize()] succeeds. Inside the scan
    there is one [try]: an exception raised by the search, by an iteration
    of the first loop (after the candidates [before] were evaluated), by an
    iteration of the second loop (after the candidates [before] were
    alerted) or by the summary ends the scan there. The instance returned is
    the one the throwing call left, so the remaining candidates are neither
    evaluated nor notified; the counters are those reached; and [errors]
    holds exactly "Error during agent execution: " followed by the
    message. *)
Theorem C3_scan_errors_are_caught_and_end_the_scan (a : Agent) :
  match authenticate gmailClient (world a) with
  | (Throw message, w) =>
      runOnce a = (Throw message, mkAgent w (processedRequests a) (calls a))
  | (Ok _, w) =>
      (exists r a', runOnce a = (Ok r, a') /\
         (errors r = [] \/
          exists message,
            errors r = [("Error during agent execution: " ++ message)%string])) /\
      (forall message w0,
         findLeaveRequests gmailClient (daysBack REPLY_TIMEOUT_HOURS) w
           = (Throw message, w0) ->
         runOnce a =
           (Ok (mkResults 0 0 0 [("Error during agent execution: " ++ message)%string]),
            mkAgent w0 (processedRequests a) (calls a))) /\
      (forall leaveRequests w0,
         findLeaveRequests gmailClient (daysBack REPLY_TIMEOUT_HOURS) w
           = (Ok leaveRequests, w0) ->
         (forall before request rest pendingRequests f1 message f2,
            leaveRequests = (before ++ request :: rest)%list ->
            evaluateAll before []
              (mkFrame (mkAgent w0 (processedRequests a) (calls a))
                 (mkResults (length leaveRequests) 0 0 []))
              = (Ok pendingRequests, f1) ->
            evaluateRequest request pendingRequests f1 = (Throw message, f2) ->
            runOnce a =
              (Ok (mkResults (length leaveRequests) (length pendingRequests) 0
                     [("Error during agent execution: " ++ message)%string]),
               agent f2)) /\
         (forall pendingRequests f1 before request rest f2 message f3,
            evaluateAll leaveRequests []
              (mkFrame (mkAgent w0 (processedRequests a) (calls a))
                 (mkResults (length leaveRequests) 0 0 []))
              = (Ok pendingRequests, f1) ->
            pendingRequests = (before ++ request :: rest)%list ->
            notifyAll before f1 = (Ok tt, f2) ->
            notifyRequest request f2 = (Throw message, f3) ->
            runOnce a =
              (Ok (mkResults (length leaveRequests) (length pendingRequests)
                     (length before)
                     [("Error during agent execution: " ++ message)%string]),
               agent f3)) /\
         (forall pendingRequests f1 f2 message w3,
            evaluateAll leaveRequests []
              (mkFrame (mkAgent w0 (processedRequests a) (calls a))
                 (mkResults (length leaveRequests) 0 0 []))
              = (Ok pendingRequests, f1) ->
            notifyAll pendingRequests f1 = (Ok tt, f2) ->
            pendingRequests <> [] ->
            notifySummary notificationService (length pendingRequests)
              (world (agent f2)) = (Throw message, w3) ->
            runOnce a =
              (Ok (mkResults (length leaveRequests) (length pendingRequests)
                     (length pendingRequests)
                     [("Error during agent execution: " ++ message)%string]),
               mkAgent w3 (processedRequests (agent f2))
                 (calls (agent f2) ++ [Summary (length pendingRequests)])%list)))
  end.
Proof.
  destruct (authenticate gmailClient (world a)) as [[[]|message] w] eqn:Hauth;
    [|unfold Agent.runOnce; by rewrite Hauth].
  split.
  { destruct (runOnce a) as [out a'] eqn:Hrun.
    pose proof (runOnce_cases _ _ _ Hrun) as Hcases. rewrite Hauth in Hcases.
    destruct Hcases as (r & -> & Hsum). exists r, a'. split; [done|].
    destruct Hsum as (? & ? & ? & ? & ? & ? & ? & ? & ? & Hsum).
    by destruct Hsum as (_ & _ & _ & _ & _ & _ & _ & _ & _ & _ & _ & _ & Hshape). }
  assert (Hrun : forall rest,
    scan (mkFrame (mkAgent w (processedRequests a) (calls a)) emptyResults) = rest ->
    runOnce a =
      match rest with
      | (Ok _, f) => (Ok (results f), agent f)
      | (Throw message, f) =>
          (Ok (mkResults (checked_requests (results f)) (pending_requests (results f))
                 (notifications_sent (results f))
                 (errors (results f)
                  ++ [("Error during agent execution: " ++ message)%string])%list),
           agent f)
      end).
  { intros rest <-. unfold Agent.runOnce. by rewrite Hauth. }
  assert (Hscan : forall leaveRequests w0,
    findLeaveRequests gmailClient (daysBack REPLY_TIMEOUT_HOURS) w
      = (Ok leaveRequests, w0) ->
    scan (mkFrame (mkAgent w (processedRequests a) (calls a)) emptyResults) =
    match evaluateAll leaveRequests []
            (mkFrame (mkAgent w0 (processedRequests a) (calls a))
               (mkResults (length leaveRequests) 0 0 [])) with
    | (Ok pendingRequests, f1) =>
        match notifyAll pendingRequests f1 with
        | (Ok _, f2) =>
            if (0 <? length pendingRequests)%nat then
              match notifySummary notificationService (length pendingRequests)
                      (world (agent f2)) with
              | (Ok _, w3) =>
                  (Ok tt, mkFrame (mkAgent w3 (processedRequests (agent f2))
                                     (calls (agent f2)
                                      ++ [Summary (length pendingRequests)])%list)
                            (results f2))
              | (Throw message, w3) =>
                  (Throw message,
                   mkFrame (mkAgent w3 (processedRequests (agent f2))
                              (calls (agent f2)
                               ++ [Summary (length pendingRequests)])%list)
                     (results f2))
              end
            else (Ok tt, f2)
        | (Throw message, f2) => (Throw message, f2)
        end
    | (Throw message, f1) => (Throw message, f1)
    end).
  { intros leaveRequests w0 Hfind.
    unfold Agent.scan, bind, perform, update, record, ret. cbn. rewrite Hfind. cbn.
    destruct (evaluateAll leaveRequests [] _) as [[pendingRequests|message] f1]; [|done].
    destruct (notifyAll pendingRequests f1) as [[[]|message] f2]; [|done].
    destruct pendingRequests as [|request rest]; cbn; [done|].
    by destruct (notifySummary notificationService _ _) as [[delivered|message] w3]. }
  split.
  { intros message w0 Hfind. rewrite (Hrun _ eq_refl).
    unfold Agent.scan, bind, perform, update, record, ret. cbn. by rewrite Hfind. }
  intros leaveRequests w0 Hfind.
  rewrite (Hrun _ (Hscan _ _ Hfind)).
  split; [|split].
  - intros before request rest pendingRequests f1 message f2 Hsplit Hbefore Hthrow.
    subst leaveRequests. rewrite evaluateAll_app, Hbefore.
    cbn [Agent.evaluateAll]. unfold bind at 1. rewrite Hthrow.
    rewrite (evaluateRequest_throw_results _ _ _ _ _ Hthrow),
      (evaluateAll_ok_results _ _ _ _ Hbefore). done.
  - intros pendingRequests f1 before request rest f2 message f3 Heval Hsplit Hbefore Hthrow.
    subst pendingRequests. rewrite Heval, notifyAll_app, Hbefore.
    cbn [Agent.notifyAll]. unfold bind at 1. rewrite Hthrow.
    rewrite (notifyRequest_throw_results _ _ _ _ Hthrow),
      (notifyAll_ok_results _ _ _ Hbefore), (evaluateAll_ok_results _ _ _ _ Heval). done.
  - intros pendingRequests f1 f2 message w3 Heval Hnotify Hne Hthrow.
    rewrite Heval, Hnotify.
    assert (Hpos : (0 <? length pendingRequests)%nat = true)
      by (by destruct pendingRequests).
    rewrite Hpos, Hthrow.
    cbn [results agent checked_requests pending_requests notifications_sent errors].
    rewrite (notifyAll_ok_results _ _ _ Hnotify), (evaluateAll_ok_results _ _ _ _ Heval).
    done.
Qed.

(** C6. In a run, an id whose every computed age was strictly below
    [REPLY_TIMEOUT_HOURS] is never passed to [checkForReply] and is not
    added to the processed set by that run; the iteration that finds a
    candidate within the timeout only reads the clock. *)
Theorem C6_within_timeout_is_neither_resolved_nor_marked (a : Agent) out a' :
  runOnce a = (out, a') ->
  (exists new,
     calls a' = (calls a ++ new)%list /\
     forall requestId,
       (forall hoursOld, Evaluated requestId hoursOld ∈ new ->
          Qltb hoursOld (inject_Z REPLY_TIMEOUT_HOURS) = true) ->
       (CheckForReply requestId ∉ new) /\
       (MarkProcessed requestId ∉ new) /\
       (requestId ∈ processedRequests a' -> requestId ∈ processedRequests a)) /\
  (forall request pendingRequests f hoursOld w',
     msg_id request ∉ processedRequests (agent f) ->
     getEmailAgeHours gmailClient request (world (agent f)) = (Ok hoursOld, w') ->
     Qltb hoursOld (inject_Z REPLY_TIMEOUT_HOURS) = true ->
     evaluateRequest request pendingRequests f =
       (Ok pendingRequests,
        mkFrame (mkAgent w' (processedRequests (agent f))
                   (calls (agent f) ++ [Evaluated (msg_id request) hoursOld])%list)
                (results f))).
Proof.
  intros Hrun. split.
  - apply runOnce_run_facts in Hrun as (new & Hc & Hsub & Hn & Hcheck & Hproc & Hm & _).
    exists new. split; [done|]. intros id Hages.
    assert (Hno : CheckForReply id ∉ new).
    { intros Hin. destruct (Hcheck id Hin) as (h & Hh & Hlt).
      rewrite (Hages h Hh) in Hlt. discriminate. }
    split; [done|]. split.
    + intros Hin. by apply Hm in Hin as [_ Hin].
    + intros Hin. by apply Hproc in Hin as [Hin|[Hin _]].
  - intros request pendingRequests f hoursOld w' Hp Hage Hlt.
    unfold Agent.evaluateRequest, bind, hasProcessed, perform, record, ret. simpl.
    rewrite bool_decide_eq_false_2 by done. rewrite Hage. simpl. by rewrite Hlt.
Qed.

(** C10. [notifications_sent] counts dispatch attempts: whatever the
    notification service returns, a run whose second loop runs to its end
    (no error recorded, or the summary call was reached) reports as many
    notifications sent as requests pending, and every id alerted is in the
    processed set afterwards; the loop adds one to the counter and marks the
    id for each queued request, never looking at the value returned. *)
Theorem C10_notifications_sent_counts_dispatches (a : Agent) r a' :
  runOnce a = (Ok r, a') ->
  (exists new,
     calls a' = (calls a ++ new)%list /\
     (errors r = [] \/ (exists count, Summary count ∈ new) ->
      notifications_sent r = pending_requests r /\
      forall requestId, Notify requestId ∈ new ->
                        requestId ∈ processedRequests a')) /\
  (forall pendingRequests f f',
     notifyAll pendingRequests f = (Ok tt, f') ->
     notifications_sent (results f') =
       (notifications_sent (results f) + length pendingRequests)%nat /\
     forall request, request ∈ pendingRequests ->
                     msg_id request ∈ processedRequests (agent f')).
Proof.
  intros Hrun. split.
  - apply runOnce_cases in Hrun.
    destruct (authenticate gmailClient (world a)) as [[[]|message] w];
      [|by destruct Hrun].
    destruct Hrun as (r' & [= <-] & Hsum).
    apply runSummary_facts in Hsum as (new & Hc & _ & _ & _ & _ & _ & Hdone & _).
    exists new. done.
  - intros pendingRequests f f' Hloop.
    apply notifyAll_summary in Hloop
      as (done & tail & (rest & Hsplit & _ & Hok) & _ & Hproc & Hres).
    destruct (Hok tt eq_refl) as [-> _]. rewrite app_nil_r in Hsplit. subst done.
    split; [by rewrite Hres|].
    intros request Hreq. rewrite Hproc.
    apply elem_of_union_l, elem_of_list_to_set. by apply list_elem_of_fmap_2.
Qed.

End OrchestratorFacts.

(** ** Push channel: pruning of failed tokens *)

Section PushFacts.
Import FirebaseService.

Lemma elem_of_deleteToken token other (tokens : list string) :
  token ∈ deleteToken other tokens <-> token ∈ tokens /\ token <> other.
Proof.
  unfold deleteToken. rewrite list_elem_of_In, filter_In, <- list_elem_of_In.
  destruct (String.eqb_spec token other); simpl; split; intros [? ?]; split; congruence.
Qed.

Lemma pruneFailed_spec resps : forall idx tokens registry,
  (idx + length resps <= length tokens)%nat ->
  exists registry',
    pruneFailed resps idx tokens registry = (true, registry') /\
    forall token, token ∈ registry' <->
      token ∈ registry /\
      ~ exists j, tokens !! (idx + j)%nat = Some token /\ resps !! j = Some false.
Proof.
  induction resps as [|success rest IH]; intros idx tokens registry Hlen.
  - exists registry. split; [done|]. intros token. split; [|tauto].
    intros Hin. split; [done|]. intros (j & _ & Hj). by rewrite lookup_nil in Hj.
  - simpl in Hlen. cbn [pruneFailed]. destruct success.
    + destruct (IH (S idx) tokens registry ltac:(lia)) as (registry' & Heq & Hspec).
      exists registry'. split; [done|]. intros token. rewrite Hspec.
      split; intros [Hin Hno]; (split; [done|]); intros (j & Hj1 & Hj2); apply Hno.
      * destruct j as [|j]; [discriminate|]. exists j.
        split; [|done]. by replace (S idx + j)%nat with (idx + S j)%nat by lia.
      * exists (S j). split; [|done]. by replace (idx + S j)%nat with (S idx + j)%nat by lia.
    + destruct (lookup_lt_is_Some_2 tokens idx ltac:(lia)) as [failedToken Hfailed].
      rewrite Hfailed.
      destruct (IH (S idx) tokens (deleteToken failedToken registry) ltac:(lia))
        as (registry' & Heq & Hspec).
      exists registry'. split; [done|]. intros token.
      rewrite Hspec, elem_of_deleteToken.
      split.
      * intros [[Hin Hne] Hno]. split; [done|]. intros (j & Hj1 & Hj2).
        destruct j as [|j].
        -- rewrite Nat.add_0_r in Hj1. congruence.
        -- apply Hno. exists j. split; [|done].
           by replace (S idx + j)%nat with (idx + S j)%nat by lia.
      * intros [Hin Hno]. split; [split; [done|]|].
        -- intros ->. apply Hno. exists 0%nat. by rewrite Nat.add_0_r.
        -- intros (j & Hj1 & Hj2). apply Hno. exists (S j). split; [|done].
           by replace (idx + S j)%nat with (S idx + j)%nat by lia.
Qed.

Lemma count_failures_positive (resps : list bool) idx :
  resps !! idx = Some false -> (0 < length (List.filter negb resps))%nat.
Proof.
  revert idx. induction resps as [|b rest IH]; intros idx H; [by rewrite lookup_nil in H|].
  destruct idx as [|idx]; simpl in *.
  - injection H as ->. simpl. lia.
  - destruct b; simpl; [by eapply IH | lia].
Qed.

(** C5. When the push service answers with one result per token sent and
    a failure count that is the number of failed results, [sendNotification]
    returns with the registry holding exactly the old tokens whose result
    did not fail. *)
Theorem C5_failed_tokens_are_pruned
    (sendMulticast : list string -> option BatchResponse) (fs : t)
    (response : BatchResponse) :
  initialized fs = true ->
  fcmTokens fs <> [] ->
  sendMulticast (fcmTokens fs) = Some response ->
  length (responses response) = length (fcmTokens fs) ->
  failureCount response = length (List.filter negb (responses response)) ->
  (sendNotification sendMulticast fs).1 = true /\
  initialized (sendNotification sendMulticast fs).2 = true /\
  forall token,
    token ∈ fcmTokens (sendNotification sendMulticast fs).2 <->
    token ∈ fcmTokens fs /\ ~ failed (fcmTokens fs) response token.
Proof.
  intros Hinit Hne Hsend Hlen Hcount. unfold sendNotification.
  rewrite Hinit. simpl.
  destruct (fcmTokens fs) as [|t0 ts] eqn:Htokens; [done|]. cbn [length Nat.eqb].
  rewrite <- Htokens in *. rewrite Hsend.
  destruct (0 <? failureCount response)%nat eqn:Hfail.
  - destruct (pruneFailed_spec (responses response) 0 (fcmTokens fs) (fcmTokens fs)
                ltac:(lia)) as (registry' & Heq & Hspec).
    rewrite Heq. simpl. split; [done|]. split; [done|]. exact Hspec.
  - simpl. split; [done|]. split; [done|]. intros token. split; [|tauto].
    intros Hin. split; [done|]. intros (idx & _ & Hidx).
    apply count_failures_positive in Hidx. apply Nat.ltb_ge in Hfail. lia.
Qed.

End PushFacts.

(** ** Web channel: the history buffer *)

Section WebBufferFacts.
Import NotificationService.

Lemma sliceFrom_last {A} (limit : Z) (l : list A) :
  (0 < limit)%Z ->
  sliceFrom (- limit) l = drop (length l - Z.to_nat limit) l.
Proof.
  intros Hpos. unfold sliceFrom.
  destruct (Z.ltb_spec (- limit) 0) as [_|?]; [|lia]. f_equal. lia.
Qed.

(** C7 (as amended). The history buffer of the web channel is append-only:
    every per-candidate or summary record dispatched in production mode is
    added at its end and nothing is ever removed, so its length is the
    number of records dispatched. What is bounded is the view
    [getRecentNotifications(limit)]: for a positive [limit] (10 by default)
    it returns at most [limit] records, and they are the most recent ones,
    the last [min limit n] of the buffer in order. *)
Theorem C7_recent_view_is_bounded_buffer_is_not :
  (forall ns request hoursOld recipientEmail,
     isProduction ns = true ->
     exists record,
       webNotifications (notifyPendingLeaveRequest ns request hoursOld recipientEmail).2
       = (webNotifications ns ++ [record])%list) /\
  (forall ns count,
     isProduction ns = true -> count <> 0%nat ->
     exists record,
       webNotifications (notifySummary ns count).2
       = (webNotifications ns ++ [record])%list) /\
  (forall ns limit,
     (0 < limit)%Z ->
     (Z.of_nat (length (getRecentNotifications ns limit)) <= limit)%Z /\
     length (getRecentNotifications ns limit)
       = Nat.min (Z.to_nat limit) (length (webNotifications ns)) /\
     exists older,
       webNotifications ns = (older ++ getRecentNotifications ns limit)%list).
Proof.
  split; [|split].
  - intros ns request hoursOld recipientEmail Hprod.
    unfold notifyPendingLeaveRequest. rewrite Hprod. simpl. eauto.
  - intros ns count Hprod Hcount. unfold notifySummary.
    destruct (Nat.eqb_spec count 0); [done|]. rewrite Hprod. simpl. eauto.
  - intros ns limit Hpos. unfold getRecentNotifications.
    rewrite sliceFrom_last by done. rewrite length_drop.
    split; [lia|]. split; [lia|].
    exists (take (length (webNotifications ns) - Z.to_nat limit) (webNotifications ns)).
    by rewrite take_drop.
Qed.

End WebBufferFacts.

(** ** Age and lookback window *)

Section AgeFacts.
Import GmailClient.

Lemma Qltb_zero_positive (T : Z) : (0 < T)%Z -> Agent.Qltb 0 (inject_Z T) = true.
Proof.
  intros HT. unfold Agent.Qltb. apply negb_true_iff.
  destruct (Qle_bool (inject_Z T) 0) eqn:E; [|done].
  apply Qle_bool_iff in E. unfold Qle in E. simpl in E. lia.
Qed.

(** C8. [getEmailAgeHours] is exactly (now - internal_date) milliseconds
    expressed in hours, with no rounding to whole hours, and exactly 0 when
    the internal date is 0 or absent; an age of 0 is below every positive
    timeout, so the orchestrator leaves such a message alone: it is not
    resolved, not queued and not marked. *)
Theorem C8_age_is_exact_and_zero_when_unknown (now : Z) (email : Email) :
  (parseIntOr0 (internal_date email) <> 0%Z ->
   (getEmailAgeHours now email * inject_Z 3600000
    == inject_Z (now - parseIntOr0 (internal_date email)))%Q) /\
  (internal_date email = None \/ internal_date email = Some 0%Z ->
   getEmailAgeHours now email = 0%Q /\
   (forall T : Z, (0 < T)%Z ->
      Agent.Qltb (getEmailAgeHours now email) (inject_Z T) = true) /\
   (forall config pendingRequests f,
      (0 < Deployment.REPLY_TIMEOUT_HOURS config)%Z ->
      msg_id email ∉ Agent.processedRequests (Agent.agent f) ->
      Agent.evaluateRequest (Deployment.gmailClient config)
        (Deployment.REPLY_TIMEOUT_HOURS config) email pendingRequests f
      = (Agent.Ok pendingRequests,
         Agent.mkFrame
           (Agent.mkAgent (Agent.world (Agent.agent f))
              (Agent.processedRequests (Agent.agent f))
              (Agent.calls (Agent.agent f) ++ [Agent.Evaluated (msg_id email) 0])%list)
           (Agent.results f)))).
Proof.
  split.
  - intros Hd. unfold getEmailAgeHours.
    destruct (Z.eqb_spec (parseIntOr0 (internal_date email)) 0) as [|_]; [done|].
    change (1000 * 60 * 60)%Z with 3600000%Z. field.
  - intros Hd.
    assert (Hzero : forall t, getEmailAgeHours t email = 0%Q).
    { intros t. unfold getEmailAgeHours. by destruct Hd as [-> | ->]. }
    rewrite Hzero. split; [done|]. split.
    + intros T HT. by apply Qltb_zero_positive.
    + intros config pendingRequests f HT Hp.
      unfold Agent.evaluateRequest, Agent.bind, Agent.hasProcessed, Agent.perform,
        Agent.record, Agent.ret. simpl.
      rewrite bool_decide_eq_false_2 by done. simpl.
      rewrite Hzero. by rewrite (Qltb_zero_positive _ HT).
Qed.

(** The ceiling of the quotient, in integer arithmetic. *)
Lemma ceil_div24 (T : Z) : Qceiling (inject_Z T / 24) = ((T + 23) / 24)%Z.
Proof.
  unfold Qceiling, Qfloor, Qdiv, Qmult, Qinv, Qopp, inject_Z. simpl.
  rewrite Z.mul_1_r. change (Z.pos (1 * 24)) with 24%Z.
  pose proof (Z.div_mod (- T) 24 ltac:(lia)) as H1.
  pose proof (Z.mod_pos_bound (- T) 24 ltac:(lia)) as H2.
  pose proof (Z.div_mod (T + 23) 24 ltac:(lia)) as H3.
  pose proof (Z.mod_pos_bound (T + 23) 24 ltac:(lia)) as H4.
  lia.
Qed.

(** C9. The lookback window is max(7, ceil(timeout / 24) + 1) days, the
    ceiling being the least whole number of days that holds the timeout, and
    24 times the window is at least the timeout, for every integer timeout
    (the non-negative ones in particular). *)
Theorem C9_lookback_window_covers_timeout (REPLY_TIMEOUT_HOURS : Z) :
  Agent.daysBack REPLY_TIMEOUT_HOURS
    = Z.max 7 (Qceiling (inject_Z REPLY_TIMEOUT_HOURS / 24) + 1) /\
  Agent.daysBack REPLY_TIMEOUT_HOURS
    = Z.max 7 ((REPLY_TIMEOUT_HOURS + 23) / 24 + 1) /\
  (7 <= Agent.daysBack REPLY_TIMEOUT_HOURS)%Z /\
  (REPLY_TIMEOUT_HOURS <= 24 * Agent.daysBack REPLY_TIMEOUT_HOURS)%Z.
Proof.
  split; [done|]. unfold Agent.daysBack. rewrite ceil_div24.
  split; [done|]. split; [lia|].
  pose proof (Z.div_mod (REPLY_TIMEOUT_HOURS + 23) 24 ltac:(lia)) as H1.
  pose proof (Z.mod_pos_bound (REPLY_TIMEOUT_HOURS + 23) 24 ltac:(lia)) as H2.
  lia.
Qed.

End AgeFacts.

(** ** The claims on the sample mailboxes *)

Section Scenarios.
Import Agent Deployment Scenario MoreSamples.

Example keywords_default :
  keywordsFromEnv None =
  ["leave request"; "leave application"; "vacation request"; "leave"].
Proof. reflexivity. Qed.

Example keywords_trailing_comma : keywordsFromEnv (Some "leave,") = ["leave"; ""].
Proof. reflexivity. Qed.

Example recipient_of_request : recipientEmailOf request = Some "boss@example.com".
Proof. vm_compute. reflexivity. Qed.

(** An unanswered request sent 72 hours ago, with a timeout of 48 hours:
    one pending request, one alert, then the summary. *)
Example unanswered_request_is_alerted :
  (Deployment.runOnce config48 (newAgent unanswered)).1
    = Ok (mkResults 1 1 1 []) /\
  calls (Deployment.runOnce config48 (newAgent unanswered)).2
    = [Evaluated "m1" (259200000 # 3600000); CheckForReply "m1";
       Notify "m1"; MarkProcessed "m1"; Summary 1] /\
  NotificationService.type <$>
    NotificationService.webNotifications
      (notifications (world (Deployment.runOnce config48 (newAgent unanswered)).2))
    = [NotificationService.leave_request; NotificationService.summary].
Proof. vm_compute. done. Qed.

(** The same request with a reply from another sender ten hours later:
    nothing pending, no notification, the request marked processed. *)
Example answered_request_is_marked :
  (Deployment.runOnce config48 (newAgent answered)).1
    = Ok (mkResults 1 0 0 []) /\
  calls (Deployment.runOnce config48 (newAgent answered)).2
    = [Evaluated "m1" (259200000 # 3600000); CheckForReply "m1";
       MarkProcessed "m1"] /\
  NotificationService.webNotifications
    (notifications (world (Deployment.runOnce config48 (newAgent answered)).2))
    = [].
Proof. vm_compute. done. Qed.

Lemma blank_space : Classifier.blank " ".
Proof. constructor; [|constructor]. unfold Classifier.whiteSpaceUnit. vm_compute. tauto. Qed.

Lemma blank_nbsp_tab : Classifier.blank (nbsp ++ String (ascii_of_nat 9) "").
Proof.
  constructor; [|constructor; [|constructor]];
    unfold Classifier.whiteSpaceUnit; vm_compute; tauto.
Qed.

(** The request, "  LEAVE REQUEST  " and the subject with the capital
    E acute are kept; the reply, the reply after a space, the forward after
    a no-break space and a tab, and the message without subject are not. *)
Lemma C4_witness :
  ("" ∉ ["leave request"; accentedKeyword]) /\
  Classifier.classify ["leave request"; accentedKeyword]
    [request; reply; noSubject; paddedReply; nbspReply; paddedRequest; accentedRequest]
    = [request; paddedRequest; accentedRequest] /\
  (reply ∉ Classifier.classify ["leave request"; accentedKeyword]
     [request; reply; noSubject; paddedReply; nbspReply; paddedRequest; accentedRequest]) /\
  (paddedReply ∉ Classifier.classify ["leave request"; accentedKeyword]
     [request; reply; noSubject; paddedReply; nbspReply; paddedRequest; accentedRequest]) /\
  (nbspReply ∉ Classifier.classify ["leave request"; accentedKeyword]
     [request; reply; noSubject; paddedReply; nbspReply; paddedRequest; accentedRequest]) /\
  (noSubject ∉ Classifier.classify ["leave request"; accentedKeyword]
     [request; reply; noSubject; paddedReply; nbspReply; paddedRequest; accentedRequest]).
Proof.
  destruct (C4_classify_keeps_exactly_qualifying ["leave request"; accentedKeyword]
              [request; reply; noSubject; paddedReply; nbspReply; paddedRequest;
               accentedRequest]) as (Hiff & Heq & Hprefix & Hpadded & Hempty).
  assert (Hkw : "" ∉ ["leave request"; accentedKeyword]).
  { intros H. apply elem_of_cons in H as [H|H]; [discriminate H|].
    apply list_elem_of_singleton in H. discriminate H. }
  split; [exact Hkw|]. split; [|split; [|split; [|split]]].
  - rewrite Heq. vm_compute. reflexivity.
  - apply (Hprefix reply "re: leave request - john").
    + apply subjectLower_normalized. vm_compute. reflexivity.
    + exists " leave request - john". by left.
  - apply (Hpadded paddedReply " " "Re:" " leave request");
      [reflexivity | exact blank_space |].
    left. apply toLowerCase_lowerCased. vm_compute. reflexivity.
  - apply (Hpadded nbspReply (nbsp ++ String (ascii_of_nat 9) "") "FWD:" " leave request");
      [reflexivity | exact blank_nbsp_tab |].
    right; left. apply toLowerCase_lowerCased. vm_compute. reflexivity.
  - apply (Hempty Hkw). by left.
Defined.

(** With an empty keyword configured, a message without a subject is kept. *)
Lemma C4_counterexample :
  subject noSubject = None /\
  Classifier.classify (keywordsFromEnv (Some "leave,")) [noSubject] = [noSubject].
Proof. split; vm_compute; reflexivity. Qed.

Lemma later_first_run : later (gmailClient config48) notificationService 48
                          (newAgent unanswered) afterFirstRun.
Proof.
  exact (later_run (gmailClient config48) notificationService 48 _ _ _ _
           (later_refl _ _ _ _)
           (surjective_pairing (Deployment.runOnce config48 (newAgent unanswered)))).
Defined.

Lemma later_second_run : later (gmailClient config48) notificationService 48
                           afterFirstRun afterSecondRun.
Proof.
  exact (later_run (gmailClient config48) notificationService 48 _ _ _ _
           (later_refl _ _ _ _)
           (surjective_pairing (Deployment.runOnce config48 afterFirstRun))).
Defined.

(** What an adapter that lists the same message twice in one search would
    cause: the second alert for m1 is dispatched after m1 was added to the
    processed set. *)
Example listed_twice_is_alerted_twice :
  calls (Deployment.runOnce config48 (newAgent listedTwice)).2
    = [Evaluated "m1" (259200000 # 3600000); CheckForReply "m1";
       Evaluated "m1" (259200000 # 3600000); CheckForReply "m1";
       Notify "m1"; MarkProcessed "m1"; Notify "m1"; MarkProcessed "m1";
       Summary 2] /\
  (Deployment.runOnce config48 (newAgent listedTwice)).1 = Ok (mkResults 2 2 2 []) /\
  ~ noNotifyAfterMark (calls (Deployment.runOnce config48 (newAgent listedTwice)).2).
Proof.
  assert (Hcalls : calls (Deployment.runOnce config48 (newAgent listedTwice)).2
    = [Evaluated "m1" (259200000 # 3600000); CheckForReply "m1";
       Evaluated "m1" (259200000 # 3600000); CheckForReply "m1";
       Notify "m1"; MarkProcessed "m1"; Notify "m1"; MarkProcessed "m1";
       Summary 2]) by (vm_compute; reflexivity).
  split; [exact Hcalls|]. split; [vm_compute; reflexivity|].
  rewrite Hcalls. intros H.
  apply (H [Evaluated "m1" (259200000 # 3600000); CheckForReply "m1";
            Evaluated "m1" (259200000 # 3600000); CheckForReply "m1";
            Notify "m1"]
           [Notify "m1"; MarkProcessed "m1"; Summary 2] "m1"); [reflexivity | left].
Qed.

(** The client whose [checkForReply] rejects for m1, on the mailbox with
    two overdue requests: the first iteration of the first loop throws. *)
Lemma C3_witness :
  findLeaveRequests (rejectingClient config48 "m1" "boom") (daysBack 48) twoRequests
    = (Ok [request; second], twoRequests) /\
  evaluateAll (rejectingClient config48 "m1" "boom") 48 [] []
    (mkFrame (mkAgent twoRequests ∅ []) (mkResults 2 0 0 []))
    = (Ok [], mkFrame (mkAgent twoRequests ∅ []) (mkResults 2 0 0 [])) /\
  evaluateRequest (rejectingClient config48 "m1" "boom") 48 request []
    (mkFrame (mkAgent twoRequests ∅ []) (mkResults 2 0 0 []))
    = (Throw "boom",
       mkFrame (mkAgent twoRequests ∅
                  [Evaluated "m1" (259200000 # 3600000); CheckForReply "m1"])
         (mkResults 2 0 0 [])) /\
  Agent.runOnce (rejectingClient config48 "m1" "boom") notificationService 48
    (newAgent twoRequests)
    = (Ok (mkResults 2 0 0 ["Error during agent execution: boom"]),
       mkAgent twoRequests ∅
         [Evaluated "m1" (259200000 # 3600000); CheckForReply "m1"]).
Proof.
  assert (Hfind :
    findLeaveRequests (rejectingClient config48 "m1" "boom") (daysBack 48) twoRequests
      = (Ok [request; second], twoRequests)) by (vm_compute; reflexivity).
  assert (Hbefore :
    evaluateAll (rejectingClient config48 "m1" "boom") 48 [] []
      (mkFrame (mkAgent twoRequests ∅ []) (mkResults 2 0 0 []))
      = (Ok [], mkFrame (mkAgent twoRequests ∅ []) (mkResults 2 0 0 []))) by reflexivity.
  assert (Hthrow :
    evaluateRequest (rejectingClient config48 "m1" "boom") 48 request []
      (mkFrame (mkAgent twoRequests ∅ []) (mkResults 2 0 0 []))
      = (Throw "boom",
         mkFrame (mkAgent twoRequests ∅
                    [Evaluated "m1" (259200000 # 3600000); CheckForReply "m1"])
           (mkResults 2 0 0 []))) by (vm_compute; reflexivity).
  split; [exact Hfind|]. split; [exact Hbefore|]. split; [exact Hthrow|].
  pose proof (C3_scan_errors_are_caught_and_end_the_scan
                (rejectingClient config48 "m1" "boom") notificationService 48
                (newAgent twoRequests)) as (_ & _ & Hok).
  exact (proj1 (Hok [request; second] twoRequests Hfind)
           [] request [second] [] _ "boom" _ eq_refl Hbefore Hthrow).
Defined.

(** A client whose [checkForReply] rejects for the first of two overdue,
    unanswered requests: the error is recorded, and the second request is
    neither evaluated nor notified, although a run without the error alerts
    it. A missing credentials file makes [runOnce] itself throw. *)
Lemma C3_counterexample :
  (Agent.runOnce (rejectingClient config48 "m1" "boom") notificationService 48
     (newAgent twoRequests)).1
    = Ok (mkResults 2 0 0 ["Error during agent execution: boom"]) /\
  calls (Agent.runOnce (rejectingClient config48 "m1" "boom") notificationService 48
           (newAgent twoRequests)).2
    = [Evaluated "m1" (259200000 # 3600000); CheckForReply "m1"] /\
  calls (Deployment.runOnce config48 (newAgent twoRequests)).2
    = [Evaluated "m1" (259200000 # 3600000); CheckForReply "m1";
       Evaluated "m3" (259200000 # 3600000); CheckForReply "m3";
       Notify "m1"; MarkProcessed "m1"; Notify "m3"; MarkProcessed "m3";
       Summary 2] /\
  (Deployment.runOnce config48 (newAgent noCredentials)).1
    = Throw "Gmail credentials file not found".
Proof. vm_compute. done. Qed.

Lemma C6_witness :
  calls (Deployment.runOnce config48 (newAgent tooEarly)).2
    = [Evaluated "m1" (36000000 # 3600000)] /\
  Qltb (36000000 # 3600000) (inject_Z 48) = true /\
  (exists new,
     calls (Deployment.runOnce config48 (newAgent tooEarly)).2
       = (calls (newAgent tooEarly) ++ new)%list /\
     forall requestId,
       (forall hoursOld, Evaluated requestId hoursOld ∈ new ->
          Qltb hoursOld (inject_Z 48) = true) ->
       (CheckForReply requestId ∉ new) /\
       (MarkProcessed requestId ∉ new) /\
       (requestId ∈ processedRequests (Deployment.runOnce config48 (newAgent tooEarly)).2 ->
        requestId ∈ processedRequests (newAgent tooEarly))).
Proof.
  split; [vm_compute; reflexivity|]. split; [vm_compute; reflexivity|].
  exact (proj1 (C6_within_timeout_is_neither_resolved_nor_marked
                  (gmailClient config48) notificationService 48 (newAgent tooEarly)
                  (Deployment.runOnce config48 (newAgent tooEarly)).1
                  (Deployment.runOnce config48 (newAgent tooEarly)).2
                  (surjective_pairing
                     (Deployment.runOnce config48 (newAgent tooEarly))))).
Defined.

(** The platform notifier fails, [notifyPendingLeaveRequest] returns false,
    and the run still counts one notification sent and marks the request. *)
Lemma C10_witness :
  (NotificationService.notifyPendingLeaveRequest (desktop false) request 72 None).1
    = false /\
  (Deployment.runOnce config48 (newAgent notifierDown)).1 = Ok (mkResults 1 1 1 []) /\
  "m1" ∈ processedRequests (Deployment.runOnce config48 (newAgent notifierDown)).2 /\
  (exists new,
     calls (Deployment.runOnce config48 (newAgent notifierDown)).2
       = (calls (newAgent notifierDown) ++ new)%list /\
     (errors (mkResults 1 1 1 []) = [] \/ (exists count, Summary count ∈ new) ->
      notifications_sent (mkResults 1 1 1 []) = pending_requests (mkResults 1 1 1 []) /\
      forall requestId, Notify requestId ∈ new ->
        requestId ∈ processedRequests
                      (Deployment.runOnce config48 (newAgent notifierDown)).2)).
Proof.
  assert (Hfst : (Deployment.runOnce config48 (newAgent notifierDown)).1
                 = Ok (mkResults 1 1 1 [])) by (vm_compute; reflexivity).
  assert (Hrun : Deployment.runOnce config48 (newAgent notifierDown)
                 = (Ok (mkResults 1 1 1 []),
                    (Deployment.runOnce config48 (newAgent notifierDown)).2))
    by (rewrite <- Hfst; apply surjective_pairing).
  split; [reflexivity|]. split; [exact Hfst|].
  split; [compute_done|].
  exact (proj1 (C10_notifications_sent_counts_dispatches
                  (gmailClient config48) notificationService 48 (newAgent notifierDown)
                  (mkResults 1 1 1 [])
                  (Deployment.runOnce config48 (newAgent notifierDown)).2 Hrun)).
Defined.

Example prune_A_B_C :
  FirebaseService.sendNotification failsForB pushABC
    = (true, FirebaseService.mk true ["A"; "C"]).
Proof. reflexivity. Qed.

Lemma C5_witness :
  (FirebaseService.sendNotification failsForB pushABC).1 = true /\
  FirebaseService.fcmTokens (FirebaseService.sendNotification failsForB pushABC).2
    = ["A"; "C"] /\
  forall token,
    token ∈ FirebaseService.fcmTokens
              (FirebaseService.sendNotification failsForB pushABC).2 <->
    token ∈ ["A"; "B"; "C"] /\
    ~ FirebaseService.failed ["A"; "B"; "C"]
        (FirebaseService.mkResponse [true; false; true] 2 1) token.
Proof.
  destruct (C5_failed_tokens_are_pruned failsForB pushABC
              (FirebaseService.mkResponse [true; false; true] 2 1))
    as (Hsent & _ & Hspec); [reflexivity | discriminate | reflexivity
                            | reflexivity | reflexivity |].
  split; [exact Hsent|]. split; [reflexivity | exact Hspec].
Defined.

Lemma C7_witness :
  NotificationService.isProduction production = true /\
  (0 < NotificationService.defaultLimit)%Z /\
  length (NotificationService.getRecentNotifications elevenAlerts
            NotificationService.defaultLimit) = 10%nat /\
  exists older,
    NotificationService.webNotifications elevenAlerts
    = (older ++ NotificationService.getRecentNotifications elevenAlerts
                  NotificationService.defaultLimit)%list.
Proof.
  destruct C7_recent_view_is_bounded_buffer_is_not as (_ & _ & Hview).
  destruct (Hview elevenAlerts NotificationService.defaultLimit ltac:(reflexivity))
    as (_ & Hlen & Holder).
  split; [reflexivity|]. split; [reflexivity|]. split; [|exact Holder].
  rewrite Hlen. vm_compute. reflexivity.
Defined.

(** Eleven records dispatched: the buffer holds all eleven, more than the
    default capacity of ten. *)
Lemma C7_counterexample :
  length (NotificationService.webNotifications elevenAlerts) = 11%nat /\
  (NotificationService.defaultLimit < 11)%Z.
Proof. split; [vm_compute; reflexivity | reflexivity]. Qed.

Lemma C8_witness :
  parseIntOr0 (internal_date request) <> 0%Z /\
  (GmailClient.getEmailAgeHours (sentAt + 72 * hour) request * inject_Z 3600000
   == inject_Z (sentAt + 72 * hour - parseIntOr0 (internal_date request)))%Q /\
  GmailClient.getEmailAgeHours (sentAt + 72 * hour)
    (mkEmail "m0" None "" None None None None None "") = 0%Q /\
  Qltb (GmailClient.getEmailAgeHours (sentAt + 72 * hour)
          (mkEmail "m0" None "" None None None None None "")) (inject_Z 1) = true.
Proof.
  assert (Hd : parseIntOr0 (internal_date request) <> 0%Z) by (vm_compute; discriminate).
  split; [exact Hd|]. split.
  - exact (proj1 (C8_age_is_exact_and_zero_when_unknown (sentAt + 72 * hour) request) Hd).
  - destruct (proj2 (C8_age_is_exact_and_zero_when_unknown (sentAt + 72 * hour)
                       (mkEmail "m0" None "" None None None None None ""))
                    (or_introl eq_refl)) as (Hzero & Hlt & _).
    split; [exact Hzero|]. apply Hlt. reflexivity.
Defined.

End Scenarios.

(** ** Further properties of the Gmail client *)

Section GmailClientMore.
Import JS GmailClient Derived.

Lemma setHeader_fixed emailData header :
  msg_id (setHeader emailData header) = msg_id emailData /\
  thread_id (setHeader emailData header) = thread_id emailData /\
  snippet (setHeader emailData header) = snippet emailData /\
  internal_date (setHeader emailData header) = internal_date emailData /\
  body (setHeader emailData header) = body emailData.
Proof.
  unfold setHeader.
  repeat (destruct (String.eqb _ _); [done|]). done.
Qed.

Lemma fold_setHeader_fixed headers : forall emailData,
  msg_id (fold_left setHeader headers emailData) = msg_id emailData /\
  thread_id (fold_left setHeader headers emailData) = thread_id emailData /\
  snippet (fold_left setHeader headers emailData) = snippet emailData /\
  internal_date (fold_left setHeader headers emailData) = internal_date emailData.
Proof.
  induction headers as [|h rest IH]; intros emailData; simpl; [done|].
  destruct (IH (setHeader emailData h)) as (-> & -> & -> & ->).
  by destruct (setHeader_fixed emailData h) as (-> & -> & -> & -> & _).
Qed.

Lemma fold_setHeader_headers headers : forall emailData,
  from_ (fold_left setHeader headers emailData)
    = from_option Some (from_ emailData) (headerValue "from" headers) /\
  to_ (fold_left setHeader headers emailData)
    = from_option Some (to_ emailData) (headerValue "to" headers) /\
  subject (fold_left setHeader headers emailData)
    = from_option Some (subject emailData) (headerValue "subject" headers) /\
  date (fold_left setHeader headers emailData)
    = from_option Some (date emailData) (headerValue "date" headers).
Proof.
  induction headers as [|h rest IH]; intros emailData; simpl; [done|].
  destruct (IH (setHeader emailData h)) as (-> & -> & -> & ->).
  unfold setHeader. set (name := toLowerCase h.1).
  destruct (String.eqb name "from") eqn:E1, (String.eqb name "to") eqn:E2,
    (String.eqb name "subject") eqn:E3, (String.eqb name "date") eqn:E4;
    repeat match goal with
           | H : String.eqb _ _ = true |- _ => apply String.eqb_eq in H
           end;
    try congruence; simpl;
    by destruct (headerValue "from" rest), (headerValue "to" rest),
         (headerValue "subject" rest), (headerValue "date" rest).
Qed.

(** X1. [getEmailDetails] returns null exactly when the message cannot be
    fetched. Otherwise the record carries the id asked for, the thread id of
    the message, an internal date that is always present (0 when the message
    has none), and for each of From, To, Subject and Date the value of the
    last header of that name, names compared without regard to case; a
    header that does not occur leaves its field absent. *)
Theorem X1_getEmailDetails_reads_last_header (service : GmailService) (messageId : string) :
  match messages_get service messageId with
  | None => getEmailDetails service messageId = None
  | Some message =>
      exists email,
        getEmailDetails service messageId = Some email /\
        msg_id email = messageId /\
        thread_id email = threadId message /\
        internal_date email = Some (parseIntOr0 (internalDate message)) /\
        from_ email = headerValue "from" (headers message) /\
        to_ email = headerValue "to" (headers message) /\
        subject email = headerValue "subject" (headers message) /\
        date email = headerValue "date" (headers message)
  end.
Proof.
  unfold getEmailDetails.
  destruct (messages_get service messageId) as [message|]; [|done].
  eexists. split; [reflexivity|]. simpl.
  match goal with |- context [fold_left setHeader ?hs ?e0] =>
    destruct (fold_setHeader_fixed hs e0) as (-> & -> & _ & ->);
    destruct (fold_setHeader_headers hs e0) as (-> & -> & -> & ->)
  end. simpl.
  repeat split; by destruct (headerValue _ _).
Qed.

Lemma collectDetails_omap service ids : forall emailList,
  collectDetails service ids emailList
  = (emailList ++ omap (getEmailDetails service) ids)%list.
Proof.
  induction ids as [|msgId rest IH]; intros emailList; simpl.
  - by rewrite app_nil_r.
  - destruct (getEmailDetails service msgId) as [emailData|]; rewrite IH; simpl.
    + by rewrite <- app_assoc.
    + done.
Qed.

Lemma getEmailDetails_id service messageId email :
  getEmailDetails service messageId = Some email -> msg_id email = messageId.
Proof.
  unfold getEmailDetails.
  destruct (messages_get service messageId) as [message|]; [|done].
  intros [= <-]. simpl.
  match goal with |- context [fold_left setHeader ?hs ?e0] =>
    by destruct (fold_setHeader_fixed hs e0) as (-> & _)
  end.
Qed.

Lemma omap_ids_sublist service ids :
  msg_id <$> omap (getEmailDetails service) ids `sublist_of` ids.
Proof.
  induction ids as [|msgId rest IH]; simpl; [constructor|].
  destruct (getEmailDetails service msgId) as [email|] eqn:He; simpl.
  - rewrite (getEmailDetails_id _ _ _ He). by apply sublist_skip.
  - by apply sublist_cons.
Qed.

(** X2. [searchEmails] never fails: a rejected list request gives the
    empty list, and otherwise the result is the details of the listed ids
    in the order listed, the ids whose details cannot be fetched being left
    out. So the ids of the result are a subsequence of the ids listed, and
    the same holds after the leave-request filter of [findLeaveRequests]:
    when the provider lists no id twice, no id occurs twice in either. *)
Theorem X2_searchEmails_keeps_listing_order
    (service : GmailService) (query : string) (keywords : list string)
    (dateStr : string) :
  match messages_list service query with
  | None => searchEmails service query = []
  | Some ids =>
      searchEmails service query = omap (getEmailDetails service) ids /\
      msg_id <$> searchEmails service query `sublist_of` ids /\
      (NoDup ids -> NoDup (msg_id <$> searchEmails service query))
  end /\
  match messages_list service (buildQuery keywords dateStr) with
  | None => findLeaveRequests service keywords dateStr = []
  | Some ids =>
      msg_id <$> findLeaveRequests service keywords dateStr `sublist_of` ids /\
      (NoDup ids -> NoDup (msg_id <$> findLeaveRequests service keywords dateStr))
  end.
Proof.
  assert (Hsearch : forall q ids, messages_list service q = Some ids ->
            searchEmails service q = omap (getEmailDetails service) ids).
  { intros q ids Hq. unfold searchEmails. rewrite Hq. by rewrite collectDetails_omap. }
  split.
  - destruct (messages_list service query) as [ids|] eqn:Hq;
      [|unfold searchEmails; by rewrite Hq].
    rewrite (Hsearch _ _ Hq). split; [done|].
    split; [apply omap_ids_sublist|].
    intros Hnd. eapply sublist_NoDup; [exact Hnd | apply omap_ids_sublist].
  - unfold findLeaveRequests.
    destruct (messages_list service (buildQuery keywords dateStr)) as [ids|] eqn:Hq.
    + rewrite (Hsearch _ _ Hq). unfold Classifier.classify.
      rewrite classifyLoop_filter. simpl.
      assert (Hsub : msg_id <$> List.filter (Classifier.keeps keywords)
                                  (omap (getEmailDetails service) ids)
                     `sublist_of` ids).
      { etrans; [|apply (omap_ids_sublist service)]. apply (fmap_sublist msg_id).
        generalize (omap (getEmailDetails service) ids). intros l.
        induction l as [|e l IH]; simpl; [constructor|].
        destruct (Classifier.keeps keywords e);
          [by apply sublist_skip | by apply sublist_cons]. }
      split; [done|]. intros Hnd. by eapply sublist_NoDup.
    + unfold searchEmails. by rewrite Hq.
Qed.

Lemma sentAtTime_insertByDate d m sorted :
  sentAtTime d (insertByDate m sorted)
  = if (date_of m =? d)%Z then m :: sentAtTime d sorted else sentAtTime d sorted.
Proof.
  unfold sentAtTime. induction sorted as [|x rest IH]; cbn [insertByDate List.filter].
  { by destruct (date_of m =? d)%Z. }
  destruct (Z.leb_spec (date_of m) (date_of x)) as [Hle|Hgt]; cbn [List.filter].
  { by destruct (date_of m =? d)%Z. }
  rewrite IH.
  destruct (Z.eqb_spec (date_of x) d), (Z.eqb_spec (date_of m) d); try done. lia.
Qed.

(** X3. The sort of the thread in [checkForReply] reorders the thread and
    nothing else, puts it in ascending order of internal date, and is
    stable: messages with the same internal date keep the order in which
    the thread listed them. So the message taken as the first one is, among
    the earliest messages, the one listed first. *)
Theorem X3_thread_sort_is_stable (messages : list RawMessage) :
  sortByDate messages ≡ₚ messages /\
  ascending (sortByDate messages) /\
  (forall d, sentAtTime d (sortByDate messages) = sentAtTime d messages) /\
  (forall before first after,
     messages = (before ++ first :: after)%list ->
     (forall m, m ∈ before -> (date_of first < date_of m)%Z) ->
     (forall m, m ∈ after -> (date_of first <= date_of m)%Z) ->
     firstMessageId messages = Some (raw_id first)).
Proof.
  split; [apply sortByDate_Permutation|]. split; [apply sortByDate_ascending|].
  split.
  - intros d. induction messages as [|m rest IH]; simpl; [done|].
    rewrite sentAtTime_insertByDate, IH. unfold sentAtTime. simpl.
    by destruct (date_of m =? d)%Z.
  - intros before first after -> Hb Ha. unfold firstMessageId.
    by rewrite (firstMessage_first_of_earliest before first after Hb Ha).
Qed.

End GmailClientMore.

(* ------------------------------------------------------------------ *)
(** ** C1: the Reply Resolver *)

Section ReplyResolverClaim.
Import JS GmailClient Derived ReplyResolver.

Lemma checkForReply_genuine service originalEmail tid messages :
  thread_id originalEmail = Some tid -> tid <> "" ->
  threads_get service tid = Some messages ->
  checkForReply service originalEmail = true <->
  exists m, genuineReply service originalEmail messages m.
Proof.
  intros Htid Hne Hget.
  unfold checkForReply. rewrite Htid, (truthy_Some _ Hne). cbn [negb].
  assert (or_else (Some tid) "" = tid) as ->.
  { simpl. destruct (String.eqb_spec tid ""); [contradiction | reflexivity]. }
  rewrite Hget, replyLoop_true. unfold genuineReply, laterMessage. split.
  - intros (m & Hm & H1 & H2 & H3 & d & Hd & Hl). exists m.
    split; [by rewrite <- (not_first_iff _ _ Hm)|]. exists d. split; [done|].
    apply looksLikeReply_spec in Hl as [Hl|Hl]; [by left|right].
    apply prefix_app in Hl as [rest Hl].
    exists (toLowerCase (or_else (subject d) "")), rest.
    split; [by apply toLowerCase_lowerCased | exact Hl].
  - intros (m & (Hm & H1 & H2 & H3) & d & Hd & Hl). exists m.
    split; [done|]. split; [done|]. split; [by apply not_first_iff|]. split; [done|].
    exists d. split; [done|]. apply looksLikeReply_spec.
    destruct Hl as [Hl|(lowered & rest & Hlow & ->)]; [by left|right].
    apply toLowerCase_lowerCased in Hlow. rewrite <- Hlow.
    apply prefix_app. by exists rest.
Qed.

(** The details of a message that is fetched as the thread lists it. *)
Lemma details_as_listed service (m : RawMessage) :
  messages_get service (raw_id m) = Some m ->
  exists details,
    getEmailDetails service (raw_id m) = Some details /\
    from_ details = headerValue "from" (headers m) /\
    subject details = headerValue "subject" (headers m).
Proof.
  intros Hget. unfold getEmailDetails. rewrite Hget. eexists. split; [reflexivity|].
  cbn [from_ subject].
  match goal with |- context [fold_left setHeader ?hs ?e0] =>
    destruct (fold_setHeader_headers hs e0) as (-> & _ & -> & _)
  end.
  cbn [from_ subject].
  by destruct (headerValue "from" (headers m)), (headerValue "subject" (headers m)).
Qed.

(** C1 (as amended). With the thread of the original fetched,
    [checkForReply] answers true exactly when the thread holds a message,
    other than the original's id and the id of the earliest message of the
    thread sorted ascending by internal date, that was sent strictly after
    the original and whose details, fetched again by its id, are available
    and show a sender different from the original's or a lower-cased
    subject starting with re:. When every message of the thread is fetched
    as the thread lists it, this is the claim as stated, with the sender
    and the subject of the message itself. A thread of a single message
    gives false, and so do an original whose thread id is absent or empty
    and a thread that cannot be fetched. *)
Theorem C1_checkForReply_iff_genuine_reply :
  (forall service originalEmail tid messages,
      thread_id originalEmail = Some tid -> tid <> "" ->
      threads_get service tid = Some messages ->
      (checkForReply service originalEmail = true <->
       exists m, genuineReply service originalEmail messages m)) /\
  (forall service originalEmail tid messages,
      thread_id originalEmail = Some tid -> tid <> "" ->
      threads_get service tid = Some messages ->
      (forall m, m ∈ messages -> messages_get service (raw_id m) = Some m) ->
      (checkForReply service originalEmail = true <->
       exists m, claimedReply originalEmail messages m)) /\
  (forall service originalEmail tid m,
      thread_id originalEmail = Some tid ->
      threads_get service tid = Some [m] ->
      checkForReply service originalEmail = false) /\
  (forall service originalEmail,
      thread_id originalEmail = None \/ thread_id originalEmail = Some "" ->
      checkForReply service originalEmail = false) /\
  (forall service originalEmail tid,
      thread_id originalEmail = Some tid ->
      threads_get service tid = None ->
      checkForReply service originalEmail = false).
Proof.
  split; [exact checkForReply_genuine|]. split; [|split; [|split]].
  - intros service originalEmail tid messages Htid Hne Hget Hlisted.
    rewrite (checkForReply_genuine _ _ _ _ Htid Hne Hget).
    unfold genuineReply, claimedReply. split.
    + intros (m & Hlater & d & Hd & Hl). exists m. split; [done|].
      destruct (details_as_listed service m (Hlisted m (proj1 Hlater)))
        as (d' & Hd' & Hfrom & Hsubject).
      rewrite Hd in Hd'. injection Hd' as <-. by rewrite <- Hfrom, <- Hsubject.
    + intros (m & Hlater & Hl). exists m. split; [done|].
      destruct (details_as_listed service m (Hlisted m (proj1 Hlater)))
        as (d & Hd & Hfrom & Hsubject).
      exists d. split; [done|]. by rewrite Hfrom, Hsubject.
  - intros service originalEmail tid m Htid Hget. unfold checkForReply. rewrite Htid.
    destruct (truthy (Some tid)) eqn:Ht; [|reflexivity]. cbn [negb].
    assert (or_else (Some tid) "" = tid) as ->.
    { pose proof (or_else_truthy (Some tid) "" Ht) as H. congruence. }
    rewrite Hget. unfold firstMessageId. cbn.
    rewrite bool_decide_eq_true_2 by reflexivity. by rewrite orb_true_r.
  - intros service originalEmail [Htid|Htid]; unfold checkForReply; by rewrite Htid.
  - intros service originalEmail tid Htid Hget. unfold checkForReply. rewrite Htid.
    destruct (truthy (Some tid)) eqn:Ht; [|reflexivity]. cbn [negb].
    assert (or_else (Some tid) "" = tid) as ->.
    { pose proof (or_else_truthy (Some tid) "" Ht) as H. congruence. }
    by rewrite Hget.
Qed.

End ReplyResolverClaim.

(** ** The recipient address extracted for an alert *)

Section RecipientFacts.
Import JS RegExp Derived.

Lemma plusClass_sound p s k rest :
  plusClass p s k = Some rest ->
  exists run s', s = run ++ s' /\ run <> "" /\ everyChar p run = true /\
                 k s' = Some rest.
Proof.
  revert rest. induction s as [|c s IH]; intros rest; simpl; [done|].
  destruct (p c) eqn:Hc; [|done].
  destruct (plusClass p s k) as [r|] eqn:Hrun; simpl.
  - intros [= <-]. destruct (IH r eq_refl) as (run & s' & -> & _ & Hall & Hk).
    exists (String c run), s'. cbn [everyChar]. by rewrite Hc, Hall.
  - intros Hk. exists (String c ""), s. cbn [everyChar]. by rewrite Hc.
Qed.

Lemma emailAddress_sound s rest :
  rmatch emailAddress s Some = Some rest ->
  exists m, s = m ++ rest /\ addressShaped m.
Proof.
  unfold emailAddress. cbn [rmatch]. intros H.
  apply plusClass_sound in H as (localPart & s1 & -> & Hl & Hlc & H).
  destruct s1 as [|c1 s1]; [done|].
  destruct (Ascii.eqb_spec "@" c1) as [<-|]; [|done].
  apply plusClass_sound in H as (domain & s2 & -> & Hd & Hdc & H).
  destruct s2 as [|c2 s2]; [done|].
  destruct (Ascii.eqb_spec "." c2) as [<-|]; [|done].
  apply plusClass_sound in H as (tld & s3 & -> & Ht & Htc & [= ->]).
  exists (localPart ++ "@" ++ domain ++ "." ++ tld). split.
  - by rewrite !append_assoc.
  - by exists localPart, domain, tld.
Qed.

Lemma search_emailAddress_sound s m :
  search emailAddress s = Some m ->
  Classifier.isSubstring m s /\ addressShaped m.
Proof.
  assert (Hfound : forall t rest, rmatch emailAddress t Some = Some rest ->
            Classifier.isSubstring
              (String.substring 0 (String.length t - String.length rest) t) t /\
            addressShaped
              (String.substring 0 (String.length t - String.length rest) t)).
  { intros t rest Hm. apply emailAddress_sound in Hm as (m' & -> & Hshape).
    rewrite length_append.
    replace (String.length m' + String.length rest - String.length rest)%nat
      with (String.length m') by lia.
    rewrite substring_prefix. split; [|done]. by exists "", rest. }
  induction s as [|c s IH]; cbn [search].
  - destruct (rmatch emailAddress "" Some) as [rest|] eqn:Hm; [|done].
    intros [= <-]. exact (Hfound "" rest Hm).
  - destruct (rmatch emailAddress (String c s) Some) as [rest|] eqn:Hm.
    + intros [= <-]. exact (Hfound (String c s) rest Hm).
    + intros Hrest. destruct (IH Hrest) as [(a & b & ->) Hshape].
      split; [|done]. by exists (String c a), b.
Qed.

Lemma includes_false_no_match s :
  includes s "@" = false -> forall a b, s <> a ++ "@" ++ b.
Proof.
  intros Hno a b ->.
  assert (includes (a ++ "@" ++ b) "@" = true); [|congruence].
  apply includes_isSubstring. by exists a, b.
Qed.

(** X4. The recipient address that [runOnce] passes to the alert is, when
    there is one, a piece of the To header of the shape local@domain.tld
    (non-empty parts; letters, digits, underscores, dots and hyphens around
    one at-sign; a last part of letters, digits and underscores after a
    dot), so never the display name or the angle brackets. A request whose
    To header is absent, empty or without an at-sign gets no recipient. *)
Theorem X4_recipient_is_an_address_of_the_To_header (request : Email) :
  (forall address, Agent.recipientEmailOf request = Some address ->
     Classifier.isSubstring address (or_else (to_ request) "Unknown") /\
     addressShaped address) /\
  (to_ request = None \/ to_ request = Some "" \/
   includes (or_else (to_ request) "Unknown") "@" = false ->
   Agent.recipientEmailOf request = None).
Proof.
  unfold Agent.recipientEmailOf. split.
  - intros address.
    destruct (includes (or_else (to_ request) "Unknown") "@"); [|done].
    apply search_emailAddress_sound.
  - intros [-> | [-> | ->]]; reflexivity.
Qed.

End RecipientFacts.

(** ** Further properties of the push channel *)

Section PushMore.
Import FirebaseService.

Lemma deleteToken_fresh token (tokens : list string) :
  token ∉ tokens -> deleteToken token tokens = tokens.
Proof.
  unfold deleteToken. induction tokens as [|t' rest IH]; intros Hno; simpl; [done|].
  apply not_elem_of_cons in Hno as [Hne Hno].
  destruct (String.eqb_spec t' token); [congruence|]. simpl. by rewrite IH.
Qed.

Lemma deleteToken_app token (l1 l2 : list string) :
  deleteToken token (l1 ++ l2) = (deleteToken token l1 ++ deleteToken token l2)%list.
Proof. unfold deleteToken. apply List.filter_app. Qed.

Lemma deleteToken_NoDup token (tokens : list string) :
  NoDup tokens -> NoDup (deleteToken token tokens).
Proof.
  intros Hnd. unfold deleteToken. apply NoDup_ListNoDup, List.NoDup_filter.
  by apply NoDup_ListNoDup.
Qed.

(** X5. The token registry behaves as a set of non-empty strings: adding
    the empty string changes nothing, adding a token makes it a member and
    keeps the others, adding it again changes nothing, and no token ever
    occurs twice; removing a token removes that token and no other, and
    removing a token just added to a registry that did not hold it gives
    the registry back. *)
Theorem X5_token_registry_is_a_set (fs : t) (token : string) :
  addFCMToken fs "" = fs /\
  (forall other, other ∈ fcmTokens (addFCMToken fs token) <->
                 other ∈ fcmTokens fs \/ (other = token /\ token <> "")) /\
  addFCMToken (addFCMToken fs token) token = addFCMToken fs token /\
  (NoDup (fcmTokens fs) -> NoDup (fcmTokens (addFCMToken fs token))) /\
  (forall other, other ∈ fcmTokens (removeFCMToken fs token) <->
                 other ∈ fcmTokens fs /\ other <> token) /\
  (NoDup (fcmTokens fs) -> NoDup (fcmTokens (removeFCMToken fs token))) /\
  (token ∉ fcmTokens fs ->
   fcmTokens (removeFCMToken (addFCMToken fs token) token) = fcmTokens fs).
Proof.
  split; [done|]. split; [|split; [|split; [|split; [|split]]]].
  - intros other. unfold addFCMToken.
    destruct (String.eqb_spec token "") as [->|Hne]; simpl; [naive_solver|].
    case_bool_decide; simpl; [naive_solver|].
    rewrite elem_of_app, list_elem_of_singleton. naive_solver.
  - unfold addFCMToken.
    destruct (String.eqb_spec token "") as [->|Hne]; simpl; [done|].
    destruct (String.eqb_spec token ""); [done|]. simpl.
    destruct (decide (token ∈ fcmTokens fs)) as [Hin|Hin].
    + by rewrite !(bool_decide_eq_true_2 _ Hin).
    + rewrite !(bool_decide_eq_false_2 _ Hin). simpl.
      rewrite bool_decide_eq_true_2; [done|]. set_solver.
  - intros Hnd. unfold addFCMToken.
    destruct (String.eqb token ""); simpl; [done|].
    case_bool_decide as Hin; simpl; [done|].
    apply NoDup_app. split; [done|]. split; [set_solver | apply NoDup_singleton].
  - intros other. apply elem_of_deleteToken.
  - apply deleteToken_NoDup.
  - intros Hno. unfold removeFCMToken, addFCMToken.
    destruct (String.eqb_spec token "") as [->|Hne]; simpl.
    + by apply deleteToken_fresh.
    + rewrite bool_decide_eq_false_2 by done. simpl.
      rewrite deleteToken_app, (deleteToken_fresh _ _ Hno). unfold deleteToken. simpl.
      rewrite String.eqb_refl. simpl. by rewrite app_nil_r.
Qed.

Lemma pruneFailed_only_removes_failed resps : forall idx tokens registry,
  forall token,
    (token ∈ (pruneFailed resps idx tokens registry).2 -> token ∈ registry) /\
    (token ∈ registry -> token ∉ (pruneFailed resps idx tokens registry).2 ->
     exists j, tokens !! (idx + j)%nat = Some token /\ resps !! j = Some false).
Proof.
  induction resps as [|success rest IH]; intros idx tokens registry token;
    cbn [pruneFailed]; [done|].
  destruct success.
  - destruct (IH (S idx) tokens registry token) as [H1 H2]. split; [done|].
    intros Hin Hout. destruct (H2 Hin Hout) as (j & Hj1 & Hj2).
    exists (S j). split; [|done]. by replace (idx + S j)%nat with (S idx + j)%nat by lia.
  - destruct (tokens !! idx) as [failedToken|] eqn:Hidx; [|done].
    destruct (IH (S idx) tokens (deleteToken failedToken registry) token) as [H1 H2].
    split.
    + intros Hin. apply H1 in Hin. by apply elem_of_deleteToken in Hin as [? _].
    + intros Hin Hout. destruct (decide (token = failedToken)) as [->|Hne].
      * exists 0%nat. by rewrite Nat.add_0_r.
      * destruct (H2 ltac:(by apply elem_of_deleteToken) Hout) as (j & Hj1 & Hj2).
        exists (S j). split; [|done].
        by replace (idx + S j)%nat with (S idx + j)%nat by lia.
Qed.

Lemma pruneFailed_NoDup resps : forall idx tokens registry,
  NoDup registry -> NoDup (pruneFailed resps idx tokens registry).2.
Proof.
  induction resps as [|success rest IH]; intros idx tokens registry Hnd;
    cbn [pruneFailed]; [done|].
  destruct success; [by apply IH|].
  destruct (tokens !! idx); [|done]. by apply IH, deleteToken_NoDup.
Qed.

(** X6. Whatever the push service answers, [sendNotification] never adds
    a token, never changes the initialized flag, keeps the registry free
    of duplicates, and removes a token only if the answer reported a failed
    result at that token's position. When the service is not initialized or
    the registry is empty it returns false without asking the push service,
    and when the push service rejects the request it returns false with the
    registry as it was. [sendSummaryNotification] of a count of 0 returns
    true without sending, initialized or not. *)
Theorem X6_sendNotification_only_prunes_failed
    (sendMulticast : list string -> option BatchResponse) (fs : t) :
  initialized (sendNotification sendMulticast fs).2 = initialized fs /\
  (forall token, token ∈ fcmTokens (sendNotification sendMulticast fs).2 ->
                 token ∈ fcmTokens fs) /\
  (forall token, token ∈ fcmTokens fs ->
     token ∉ fcmTokens (sendNotification sendMulticast fs).2 ->
     exists response, sendMulticast (fcmTokens fs) = Some response /\
                      failed (fcmTokens fs) response token) /\
  (NoDup (fcmTokens fs) -> NoDup (fcmTokens (sendNotification sendMulticast fs).2)) /\
  (initialized fs = false \/ fcmTokens fs = [] ->
   forall other, sendNotification other fs = (false, fs)) /\
  (sendMulticast (fcmTokens fs) = None ->
   sendNotification sendMulticast fs = (false, fs)) /\
  sendSummaryNotification sendMulticast fs 0 = (true, fs).
Proof.
  assert (Hquiet : initialized fs = false \/ fcmTokens fs = [] ->
            forall other, sendNotification other fs = (false, fs)).
  { intros [Hi|Hl] other; unfold sendNotification; rewrite ?Hi, ?Hl; simpl; [done|].
    by rewrite orb_true_r. }
  assert (Hrejected : sendMulticast (fcmTokens fs) = None ->
            sendNotification sendMulticast fs = (false, fs)).
  { intros Hnone. unfold sendNotification. rewrite Hnone.
    by destruct (negb (initialized fs) || (length (fcmTokens fs) =? 0)%nat). }
  assert (Hcases :
    sendNotification sendMulticast fs = (false, fs) \/
    sendNotification sendMulticast fs = (true, fs) \/
    exists response, sendMulticast (fcmTokens fs) = Some response /\
      sendNotification sendMulticast fs =
        ((pruneFailed (responses response) 0 (fcmTokens fs) (fcmTokens fs)).1,
         mk (initialized fs)
            (pruneFailed (responses response) 0 (fcmTokens fs) (fcmTokens fs)).2)).
  { unfold sendNotification.
    destruct (negb (initialized fs) || (length (fcmTokens fs) =? 0)%nat); [by left|].
    destruct (sendMulticast (fcmTokens fs)) as [response|]; [|by left].
    destruct (0 <? failureCount response)%nat; [|by right; left].
    right; right. exists response. split; [done|].
    by destruct (pruneFailed (responses response) 0 (fcmTokens fs) (fcmTokens fs)). }
  split; [|split; [|split; [|split; [|split; [done|split; [done|done]]]]]].
  - by destruct Hcases as [->|[->|(response & _ & ->)]].
  - intros token.
    destruct Hcases as [->|[->|(response & _ & ->)]]; simpl; [done|done|].
    apply pruneFailed_only_removes_failed.
  - intros token Hin.
    destruct Hcases as [->|[->|(response & Hsend & ->)]]; simpl; [done|done|].
    intros Hout. exists response. split; [done|].
    destruct (pruneFailed_only_removes_failed (responses response) 0 (fcmTokens fs)
                (fcmTokens fs) token) as [_ H2].
    destruct (H2 Hin Hout) as (j & Hj1 & Hj2). by exists j.
  - intros Hnd.
    destruct Hcases as [->|[->|(response & _ & ->)]]; simpl; [done|done|].
    by apply pruneFailed_NoDup.
Qed.

End PushMore.

(** ** Further properties of the notification service *)

Section NotifyMore.
Import JS NotificationService Derived.

Lemma substring_take (n : nat) : forall s : string,
  (n <= String.length s)%nat ->
  exists rest, s = String.substring 0 n s ++ rest /\
               String.length (String.substring 0 n s) = n.
Proof.
  induction n as [|n IH]; intros s Hlen.
  - exists s. by destruct s.
  - destruct s as [|c s]; cbn [String.length] in Hlen; [lia|].
    destruct (IH s ltac:(lia)) as (rest & Hs & Hl). exists rest.
    cbn [String.substring String.length]. rewrite append_cons, <- Hs, Hl. done.
Qed.

Lemma or_else_nonempty (x : option string) (d : string) :
  d <> "" -> or_else x d <> "".
Proof.
  intros Hd. unfold or_else. destruct x as [s|]; [|done].
  by destruct (String.eqb_spec s "").
Qed.

(** X7. The subject shown in an alert is never empty and never longer
    than 60 characters: a subject of at most 60 characters is shown as it
    is (an absent or empty one as "No Subject"), a longer one as its first
    57 characters followed by three dots. In production mode the record
    appended to the history carries that short subject next to the full
    one. *)
Theorem X7_alert_subject_is_at_most_60_characters
    (ns : t) (request : Email) (hoursOld : Q) (recipientEmail : option string) :
  or_else (subject request) "No Subject" <> "" /\
  (String.length (truncateSubject (or_else (subject request) "No Subject")) <= 60)%nat /\
  ((String.length (or_else (subject request) "No Subject") <= 60)%nat ->
   truncateSubject (or_else (subject request) "No Subject")
     = or_else (subject request) "No Subject") /\
  ((60 < String.length (or_else (subject request) "No Subject"))%nat ->
   exists kept rest,
     or_else (subject request) "No Subject" = kept ++ rest /\
     String.length kept = 57%nat /\
     truncateSubject (or_else (subject request) "No Subject") = kept ++ "...") /\
  (isProduction ns = true ->
   exists record,
     webNotifications (notifyPendingLeaveRequest ns request hoursOld recipientEmail).2
       = (webNotifications ns ++ [record])%list /\
     type record = leave_request /\
     shortSubject record
       = Some (truncateSubject (or_else (subject request) "No Subject")) /\
     data_subject record = Some (or_else (subject request) "No Subject") /\
     data_hoursOld record = Some hoursOld /\
     data_recipientEmail record = recipientEmail).
Proof.
  set (full := or_else (subject request) "No Subject").
  split; [by apply or_else_nonempty|]. split; [|split; [|split]].
  - unfold truncateSubject. destruct (Nat.ltb_spec 60 (String.length full)) as [Hlong|]; [|done].
    destruct (substring_take 57 full ltac:(lia)) as (rest & _ & Hl).
    rewrite length_append, Hl. cbn [String.length]. lia.
  - intros Hshort. unfold truncateSubject.
    destruct (Nat.ltb_spec 60 (String.length full)); [lia|done].
  - intros Hlong. unfold truncateSubject.
    destruct (Nat.ltb_spec 60 (String.length full)); [|lia].
    destruct (substring_take 57 full ltac:(lia)) as (rest & Hs & Hl).
    by exists (String.substring 0 57 full), rest.
  - intros Hprod. unfold notifyPendingLeaveRequest. rewrite Hprod. simpl.
    eexists. split; [reflexivity|]. done.
Qed.

(** X8. [getRecentNotifications] for the limits that are not positive:
    whatever the limit, the view is the history with some first records
    dropped, in order; a limit of 0 gives the whole history, not an empty
    view; a negative limit -k drops the first k records and gives all the
    others, so the view is not bounded by the limit. *)
Theorem X8_recent_view_for_limits_that_are_not_positive (ns : t) (limit : Z) :
  (exists k, getRecentNotifications ns limit = drop k (webNotifications ns)) /\
  (limit = 0%Z -> getRecentNotifications ns limit = webNotifications ns) /\
  ((limit < 0)%Z ->
   getRecentNotifications ns limit = drop (Z.to_nat (- limit)) (webNotifications ns) /\
   length (getRecentNotifications ns limit)
     = (length (webNotifications ns) - Z.to_nat (- limit))%nat).
Proof.
  unfold getRecentNotifications, sliceFrom. split; [eauto|]. split.
  - intros ->. simpl. by rewrite Z.min_l by lia.
  - intros Hneg. destruct (Z.ltb_spec (- limit) 0) as [?|_]; [lia|].
    assert (Hdrop : drop (Z.to_nat (Z.min (- limit) (Z.of_nat (length (webNotifications ns)))))
                      (webNotifications ns)
                    = drop (Z.to_nat (- limit)) (webNotifications ns)).
    { destruct (Z.min_spec (- limit) (Z.of_nat (length (webNotifications ns))))
        as [[_ ->]|[Hle ->]]; [done|].
      rewrite Nat2Z.id. rewrite !drop_ge; [done|lia|lia]. }
    rewrite Hdrop. split; [done|]. by rewrite length_drop.
Qed.

Lemma filter_sublist_of {A} (p : A -> bool) (l : list A) :
  List.filter p l `sublist_of` l.
Proof.
  induction l as [|x l IH]; simpl; [constructor|].
  destruct (p x); by constructor.
Qed.

Lemma dispatch_step (ns : t) (d : Dispatch) :
  isProduction (dispatch ns d).2 = isProduction ns /\
  desktopWorks (dispatch ns d).2 = desktopWorks ns /\
  webNotifications ns `prefix_of` webNotifications (dispatch ns d).2 /\
  webClients (dispatch ns d).2 `sublist_of` webClients ns /\
  (forall client, client ∈ webClients ns -> writable client = true ->
                  client ∈ webClients (dispatch ns d).2) /\
  (isProduction ns = false -> (dispatch ns d).2 = ns) /\
  (isProduction ns = true -> (dispatch ns d).1 = true).
Proof.
  assert (Hkeep : forall client, client ∈ webClients ns -> writable client = true ->
                    client ∈ List.filter writable (webClients ns)).
  { intros client Hin Hw. apply list_elem_of_In, List.filter_In.
    split; [by apply list_elem_of_In | done]. }
  destruct d as [request hoursOld recipientEmail|count|]; simpl;
    unfold notifyPendingLeaveRequest, notifySummary, testNotification;
    try destruct (count =? 0)%nat; destruct (isProduction ns) eqn:Hprod; simpl;
    rewrite ?Hprod;
    (split; [done|]); (split; [done|]);
    (split; [first [done | by apply prefix_app_r]|]);
    (split; [first [done | apply filter_sublist_of]|]);
    (split; [first [done | exact Hkeep]|]); done.
Qed.

(** X9. Over every sequence of alerts, summaries and test messages the
    notification service keeps its mode, its history only grows at the end,
    no client is ever added and a client whose writes succeed is never
    detached. In development mode the service keeps no state at all: it is
    unchanged after the sequence. In production mode every dispatch reports
    success, whether or not a client is connected or a write succeeded. *)
Theorem X9_service_state_over_dispatches (ns : t) (ds : list Dispatch) :
  isProduction (dispatchAll ns ds) = isProduction ns /\
  desktopWorks (dispatchAll ns ds) = desktopWorks ns /\
  webNotifications ns `prefix_of` webNotifications (dispatchAll ns ds) /\
  webClients (dispatchAll ns ds) `sublist_of` webClients ns /\
  (forall client, client ∈ webClients ns -> writable client = true ->
                  client ∈ webClients (dispatchAll ns ds)) /\
  (isProduction ns = false -> dispatchAll ns ds = ns) /\
  (isProduction ns = true ->
   forall d, (dispatch (dispatchAll ns ds) d).1 = true).
Proof.
  revert ns. induction ds as [|d rest IH]; intros ns; cbn [dispatchAll].
  - repeat (split; [done|]). intros Hprod d. by apply dispatch_step.
  - destruct (dispatch_step ns d) as (H1 & H2 & H3 & H4 & H5 & H6 & H7).
    destruct (IH (dispatch ns d).2) as (I1 & I2 & I3 & I4 & I5 & I6 & I7).
    split; [congruence|]. split; [congruence|].
    split; [by etrans|]. split; [by etrans|].
    split; [intros client Hin Hw; apply I5; [by apply H5 | done]|].
    split.
    + intros Hprod. rewrite I6 by congruence. by apply H6.
    + intros Hprod. apply I7. congruence.
Qed.

End NotifyMore.

(** ** Further properties of the configuration *)

Section ConfigMore.
Import JS RegExp Classifier Deployment.

Lemma splitComma_nonempty (s : string) : forall current, splitComma s current <> [].
Proof.
  induction s as [|c s IH]; intros current; cbn [splitComma]; [done|].
  destruct (Ascii.eqb c ","); [done | apply IH].
Qed.

Lemma splitComma_trailing (s : string) : forall current,
  "" ∈ splitComma (s ++ ",") current.
Proof.
  induction s as [|c s IH]; intros current.
  - change ("" ++ ",") with ",". cbn [splitComma]. rewrite Ascii.eqb_refl.
    apply list_elem_of_further, list_elem_of_here.
  - rewrite append_cons. cbn [splitComma].
    destruct (Ascii.eqb c ","); [apply list_elem_of_further|]; apply IH.
Qed.

Lemma includes_empty (s : string) : includes s "" = true.
Proof. by destruct s. Qed.

(** X10. The keyword list read from the environment is never empty, and an
    unset or empty LEAVE_REQUEST_KEYWORDS gives the four default keywords.
    A value that ends in a comma yields the empty keyword; with the empty
    keyword in the list the subject filter of [findLeaveRequests] keeps
    every message found whose subject does not start with re:, fwd: or fw:,
    whatever the subject says. *)
Theorem X10_trailing_comma_makes_every_subject_match
    (value : string) (service : GmailService) (dateStr : string) :
  (forall env, keywordsFromEnv env <> []) /\
  keywordsFromEnv (Some "") = keywordsFromEnv None /\
  "" ∈ keywordsFromEnv (Some (value ++ ",")) /\
  (forall keywords emails,
     "" ∈ keywords ->
     classify keywords emails
       = List.filter (fun email =>
                        negb (matchAtStart replyOrForward (subjectLower email))) emails) /\
  GmailClient.findLeaveRequests service (keywordsFromEnv (Some (value ++ ","))) dateStr
    = List.filter (fun email =>
                     negb (matchAtStart replyOrForward (subjectLower email)))
        (GmailClient.searchEmails service
           (GmailClient.buildQuery (keywordsFromEnv (Some (value ++ ","))) dateStr)).
Proof.
  assert (Hempty : "" ∈ keywordsFromEnv (Some (value ++ ","))).
  { unfold keywordsFromEnv.
    assert (Hor : or_else (Some (value ++ ","))
                    "leave request,leave application,vacation request,leave"
                  = value ++ ",").
    { unfold or_else. destruct (String.eqb_spec (value ++ ",") "") as [Heq|]; [|done].
      destruct value; discriminate Heq. }
    rewrite Hor. apply list_elem_of_In.
    change "" with (trim "") at 1. apply in_map, list_elem_of_In, splitComma_trailing. }
  assert (Hall : forall keywords emails,
     "" ∈ keywords ->
     classify keywords emails
       = List.filter (fun email =>
                        negb (matchAtStart replyOrForward (subjectLower email))) emails).
  { intros keywords emails Hin. unfold classify. rewrite classifyLoop_filter, app_nil_l.
    apply List.filter_ext. intros email. unfold keeps.
    assert (Hex : existsb (fun keyword =>
                     includes (subjectLower email) (toLowerCase keyword)) keywords = true).
    { apply existsb_exists. exists "". split; [by apply list_elem_of_In|].
      apply includes_empty. }
    rewrite Hex. apply andb_true_r. }
  split; [|split; [vm_compute; reflexivity|split; [exact Hempty|split; [exact Hall|]]]].
  - intros env Hnil. unfold keywordsFromEnv in Hnil.
    apply map_eq_nil in Hnil. by apply splitComma_nonempty in Hnil.
  - unfold GmailClient.findLeaveRequests. by apply Hall.
Qed.

End ConfigMore.

(** ** Further properties of the age test and the lookback window *)

Section TimeMore.
Import GmailClient.

Lemma overdue_elapsed (now T : Z) (email : Email) :
  parseIntOr0 (internal_date email) <> 0%Z ->
  Agent.Qltb (getEmailAgeHours now email) (inject_Z T) = false <->
  (T * 3600000 <= now - parseIntOr0 (internal_date email))%Z.
Proof.
  intros Hd. unfold Agent.Qltb, getEmailAgeHours.
  destruct (Z.eqb_spec (parseIntOr0 (internal_date email)) 0) as [|_]; [done|].
  rewrite negb_false_iff, Qle_bool_iff.
  change (1000 * 60 * 60)%Z with 3600000%Z.
  unfold Qle, Qdiv, Qmult, Qinv, inject_Z. simpl.
  change (Z.pos (1 * 3600000)) with 3600000%Z. lia.
Qed.

Lemma overdue_unknown (now T : Z) (email : Email) :
  parseIntOr0 (internal_date email) = 0%Z ->
  Agent.Qltb (getEmailAgeHours now email) (inject_Z T) = false <-> (T <= 0)%Z.
Proof.
  intros Hd. unfold Agent.Qltb, getEmailAgeHours. rewrite Hd. simpl.
  rewrite negb_false_iff, Qle_bool_iff. unfold Qle. simpl. lia.
Qed.

(** X11. The timeout test of the first loop in whole numbers: a message
    with a known timestamp has reached the timeout of T hours exactly when
    now - internal_date is at least T * 3 600 000 milliseconds, so a
    message dated in the future never has for a timeout that is not
    negative; a message without a timestamp has reached it only for a
    timeout of 0 or less. A message that has reached the timeout at one
    reading of the clock has reached it at every later one. *)
Theorem X11_timeout_test_in_milliseconds (now T : Z) (email : Email) :
  (parseIntOr0 (internal_date email) <> 0%Z ->
   (Agent.Qltb (getEmailAgeHours now email) (inject_Z T) = false <->
    (T * 3600000 <= now - parseIntOr0 (internal_date email))%Z)) /\
  (parseIntOr0 (internal_date email) <> 0%Z ->
   (now < parseIntOr0 (internal_date email))%Z -> (0 <= T)%Z ->
   Agent.Qltb (getEmailAgeHours now email) (inject_Z T) = true) /\
  (parseIntOr0 (internal_date email) = 0%Z ->
   (Agent.Qltb (getEmailAgeHours now email) (inject_Z T) = false <-> (T <= 0)%Z)) /\
  (forall later : Z,
     (now <= later)%Z ->
     Agent.Qltb (getEmailAgeHours now email) (inject_Z T) = false ->
     Agent.Qltb (getEmailAgeHours later email) (inject_Z T) = false).
Proof.
  split; [apply overdue_elapsed|]. split; [|split; [apply overdue_unknown|]].
  - intros Hd Hfuture HT.
    destruct (Agent.Qltb (getEmailAgeHours now email) (inject_Z T)) eqn:E; [done|].
    apply overdue_elapsed in E; [lia|done].
  - intros later Hle.
    destruct (Z.eq_dec (parseIntOr0 (internal_date email)) 0%Z) as [Hd|Hd].
    + rewrite !overdue_unknown by done. done.
    + rewrite !overdue_elapsed by done. lia.
Qed.

(** X12. The lookback window in days: it is 7 for every timeout of at most
    144 hours (the default timeout of 1 hour included), and
    floor((T + 23) / 24) + 1, more than 7, for a longer one; it never
    decreases when the timeout grows. *)
Theorem X12_lookback_is_a_week_up_to_144_hours (T : Z) :
  ((T <= 144)%Z -> Agent.daysBack T = 7%Z) /\
  ((144 < T)%Z ->
   Agent.daysBack T = ((T + 23) / 24 + 1)%Z /\ (7 < Agent.daysBack T)%Z) /\
  (forall T' : Z, (T <= T')%Z -> (Agent.daysBack T <= Agent.daysBack T')%Z) /\
  Agent.daysBack (Deployment.REPLY_TIMEOUT_HOURS Deployment.defaultConfig) = 7%Z.
Proof.
  unfold Agent.daysBack.
  pose proof (Z.div_mod (T + 23) 24 ltac:(lia)) as H1.
  pose proof (Z.mod_pos_bound (T + 23) 24 ltac:(lia)) as H2.
  split; [|split; [|split]].
  - intros HT. rewrite ceil_div24. lia.
  - intros HT. rewrite ceil_div24. lia.
  - intros T' Hle. rewrite !ceil_div24.
    pose proof (Z.div_le_mono (T + 23) (T' + 23) 24 ltac:(lia) ltac:(lia)). lia.
  - rewrite ceil_div24. reflexivity.
Qed.

End TimeMore.

(** ** Further properties of a run *)

Section OrchestratorMore.
Import Agent.

Context {W : Type}.
Variable gmailClient : @GmailClientOps W.
Variable notificationService : @NotificationOps W.
Variable REPLY_TIMEOUT_HOURS : Z.

Local Abbreviation runOnce := (runOnce gmailClient notificationService REPLY_TIMEOUT_HOURS).

Lemma no_summary_in_alerts (count : nat) (done : list Email) :
  Summary count ∉ done ≫= alertCalls.
Proof.
  intros Hin. apply elem_of_alerts in Hin as (request & _ & [Heq|Heq]); discriminate Heq.
Qed.

(** X13. The counters of a run that got past [initialize()] are ordered:
    notifications_sent <= pending_requests <= checked_requests, and at most
    one error is recorded. The summary notification is requested at most
    once, as the last call of the run, only when at least one request is
    pending and after every pending request was alerted, with the number of
    pending requests as its count; a run without error that has a pending
    request does request it. *)
Theorem X13_counters_are_ordered_and_summary_comes_last (a : Agent) r a' :
  runOnce a = (Ok r, a') ->
  (notifications_sent r <= pending_requests r)%nat /\
  (pending_requests r <= checked_requests r)%nat /\
  (length (errors r) <= 1)%nat /\
  exists new,
    calls a' = (calls a ++ new)%list /\
    (forall count, Summary count ∈ new ->
       count = pending_requests r /\ (0 < count)%nat /\
       notifications_sent r = count /\
       exists before, new = (before ++ [Summary count])%list /\
                      forall other, Summary other ∉ before) /\
    (errors r = [] -> (0 < pending_requests r)%nat ->
     Summary (pending_requests r) ∈ new).
Proof.
  unfold Agent.runOnce.
  destruct (authenticate gmailClient (world a)) as [[[]|message] w]; [|by intros [=]].
  unfold Agent.scan, bind, perform, update, record, ret. simpl.
  destruct (findLeaveRequests gmailClient (daysBack REPLY_TIMEOUT_HOURS) w)
    as [[leaveRequests|message] w0] eqn:Hfind; simpl.
  2:{ intros [= <- <-]. simpl. split; [lia|]. split; [lia|]. split; [lia|].
      exists []. rewrite app_nil_r. split; [done|].
      split; [intros count Hin; by apply elem_of_nil in Hin | done]. }
  set (f0 := mkFrame (mkAgent w0 (processedRequests a) (calls a))
               (mkResults (length leaveRequests) 0 0 [])).
  destruct (evaluateAll gmailClient REPLY_TIMEOUT_HOURS leaveRequests [] f0)
    as [[pendingRequests|message] f1] eqn:Heval;
    apply evaluateAll_summary in Heval as (new & added & Hsum & Hout); simpl;
    destruct Hsum as (Hc & Hp & Hn & Hs & Hr & Hm & Hin & Hsub & Hadd & Hres & Hnd);
    pose proof (sublist_length _ _ Hsub) as Hlength.
  2:{ intros [= <- <-]. rewrite Hres. simpl. split; [lia|]. split; [lia|]. split; [lia|].
      exists new. split; [done|].
      split; [intros count Hcount; by apply Hs in Hcount | done]. }
  specialize (Hout _ eq_refl). simpl in Hout. subst pendingRequests.
  destruct (notifyAll gmailClient notificationService added f1) as [[[]|message] f2] eqn:Hnotify;
    apply notifyAll_summary in Hnotify
      as (done & tail & (rest & Hsplit & Htail & Hok) & Hcalls & Hproc & Hres2);
    simpl.
  2:{ intros [= <- <-]. rewrite Hres2, Hres. simpl.
      assert (length added = length done + length rest)%nat as Hl
        by (by rewrite Hsplit, length_app).
      split; [lia|]. split; [lia|]. split; [lia|].
      exists (new ++ (done ≫= alertCalls) ++ tail)%list.
      split; [rewrite Hcalls, Hc; by rewrite <- !app_assoc|].
      split; [|done].
      intros count Hcount. exfalso.
      apply elem_of_app in Hcount as [Hcount|Hcount]; [by apply Hs in Hcount|].
      apply elem_of_app in Hcount as [Hcount|Hcount];
        [by apply no_summary_in_alerts in Hcount|].
      destruct Htail as [->|(request & rest' & _ & ->)];
        [by apply elem_of_nil in Hcount|].
      apply list_elem_of_singleton in Hcount. discriminate Hcount. }
  destruct (Hok _ eq_refl) as [-> ->]. rewrite app_nil_r in Hsplit. subst done.
  assert (Hquiet : forall other, Summary other ∉ (new ++ (added ≫= alertCalls))%list).
  { intros other Hother.
    apply elem_of_app in Hother as [Hother|Hother]; [by apply Hs in Hother|].
    by apply no_summary_in_alerts in Hother. }
  assert (Hlast : forall count,
            Summary count ∈ ((new ++ (added ≫= alertCalls)) ++ [Summary (length added)])%list ->
            count = length added).
  { intros count Hcount. apply elem_of_app in Hcount as [Hcount|Hcount];
      [by apply Hquiet in Hcount|].
    apply list_elem_of_singleton in Hcount. by injection Hcount. }
  destruct (0 <? length added)%nat eqn:Hlen; simpl.
  - apply Nat.ltb_lt in Hlen.
    destruct (notifySummary notificationService (length added) (world (agent f2)))
      as [[delivered|message] w3]; simpl;
      intros [= <- <-]; rewrite Hres2, Hres; simpl;
      (split; [lia|]); (split; [lia|]); (split; [lia|]);
      exists ((new ++ (added ≫= alertCalls)) ++ [Summary (length added)])%list;
      (split; [rewrite Hcalls, Hc, app_nil_r; by rewrite <- !app_assoc|]); simpl.
    + split.
      * intros count Hcount. apply Hlast in Hcount as ->.
        do 3 (split; [done|]). by exists (new ++ (added ≫= alertCalls))%list.
      * intros _ _. apply elem_of_app. right. apply list_elem_of_singleton. done.
    + split; [|done].
      intros count Hcount. apply Hlast in Hcount as ->.
      do 3 (split; [done|]). by exists (new ++ (added ≫= alertCalls))%list.
  - apply Nat.ltb_ge in Hlen.
    intros [= <- <-]. rewrite Hres2, Hres. simpl.
    split; [lia|]. split; [lia|]. split; [lia|].
    exists (new ++ (added ≫= alertCalls))%list.
    split; [rewrite Hcalls, Hc, app_nil_r; by rewrite <- !app_assoc|].
    split; [intros count Hcount; by apply Hquiet in Hcount | lia].
Qed.

End OrchestratorMore.

(** ** The run with the repository's own client and notification service *)

Section DeploymentMore.
Import Agent Deployment Derived.

Variable config : Config.

Lemma deployed_evaluateRequest request pendingRequests f :
  evaluateRequest (gmailClient config) (REPLY_TIMEOUT_HOURS config) request pendingRequests f =
    if bool_decide (msg_id request ∈ processedRequests (agent f)) then (Ok pendingRequests, f)
    else if negb (overdue config (world (agent f)) request) then
      (Ok pendingRequests,
       frameWith f (world (agent f)) (processedRequests (agent f))
         [Evaluated (msg_id request)
            (GmailClient.getEmailAgeHours (now (world (agent f))) request)]
         (results f))
    else if GmailClient.checkForReply (service (world (agent f))) request then
      (Ok pendingRequests,
       frameWith f (world (agent f)) ({[msg_id request]} ∪ processedRequests (agent f))
         [Evaluated (msg_id request)
            (GmailClient.getEmailAgeHours (now (world (agent f))) request);
          CheckForReply (msg_id request); MarkProcessed (msg_id request)]
         (results f))
    else
      (Ok (pendingRequests ++ [request])%list,
       frameWith f (world (agent f)) (processedRequests (agent f))
         [Evaluated (msg_id request)
            (GmailClient.getEmailAgeHours (now (world (agent f))) request);
          CheckForReply (msg_id request)]
         (countPending (results f))).
Proof.
  unfold evaluateRequest, bind, hasProcessed, perform, record, update, addProcessed, ret,
    frameWith, overdue, countPending.
  cbn [getEmailAgeHours checkForReply gmailClient agent world processedRequests calls
       results fst snd].
  case_bool_decide; [done|].
  rewrite negb_involutive.
  destruct (Qltb _ _); [done|].
  destruct (GmailClient.checkForReply _ _); cbn [agent world processedRequests calls results];
    by rewrite <- ?app_assoc.
Qed.

Lemma deployed_notifyRequest request f :
  notifyRequest (gmailClient config) notificationService request f =
    (Ok tt,
     frameWith f
       (withNotifications (world (agent f))
          (dispatch (notifications (world (agent f)))
             (Alert request
                (GmailClient.getEmailAgeHours (now (world (agent f))) request)
                (recipientEmailOf request))).2)
       ({[msg_id request]} ∪ processedRequests (agent f))
       (alertCalls request) (countSent (results f))).
Proof.
  unfold notifyRequest, bind, perform, record, update, addProcessed, ret,
    frameWith, countSent, alertCalls.
  cbn [getEmailAgeHours notifyPendingLeaveRequest gmailClient notificationService
       dispatch agent world processedRequests calls results fst snd].
  destruct (NotificationService.notifyPendingLeaveRequest _ _ _ _) as [sent ns].
  cbn [agent world processedRequests calls results fst snd].
  by rewrite <- app_assoc.
Qed.

Lemma deployed_evaluateAll requests : forall pendingRequests f,
  exists f',
    evaluateAll (gmailClient config) (REPLY_TIMEOUT_HOURS config) requests pendingRequests f
      = (Ok (pendingRequests ++
             (triage config (world (agent f)) (processedRequests (agent f)) requests).1)%list,
         f') /\
    world (agent f') = world (agent f) /\
    processedRequests (agent f')
      = (triage config (world (agent f)) (processedRequests (agent f)) requests).2 /\
    results f' =
      mkResults (checked_requests (results f))
        (pending_requests (results f) +
         length (triage config (world (agent f)) (processedRequests (agent f)) requests).1)
        (notifications_sent (results f)) (errors (results f)).
Proof.
  induction requests as [|request rest IH]; intros pendingRequests f.
  - exists f. cbn. by rewrite app_nil_r, Nat.add_0_r, results_eta.
  - cbn [evaluateAll triage]. unfold bind. rewrite deployed_evaluateRequest.
    case_bool_decide; [apply IH|].
    destruct (negb (overdue config (world (agent f)) request)).
    { match goal with |- context [evaluateAll _ _ rest pendingRequests ?f1] =>
        destruct (IH pendingRequests f1) as (f' & Heq & Hw & Hp & Hr) end.
      exists f'. by rewrite Heq. }
    destruct (GmailClient.checkForReply (service (world (agent f))) request).
    { match goal with |- context [evaluateAll _ _ rest pendingRequests ?f1] =>
        destruct (IH pendingRequests f1) as (f' & Heq & Hw & Hp & Hr) end.
      exists f'. by rewrite Heq. }
    match goal with |- context [evaluateAll _ _ rest ?pending ?f1] =>
      destruct (IH pending f1) as (f' & Heq & Hw & Hp & Hr) end.
    exists f'. rewrite Heq. unfold frameWith in *.
    cbn [agent world processedRequests calls results countPending
         checked_requests pending_requests notifications_sent errors] in *.
    destruct (triage config (world (agent f)) (processedRequests (agent f)) rest)
      as [queued resolved].
    cbn [fst snd length] in *. rewrite <- app_assoc.
    split; [done|]. split; [done|]. split; [done|]. rewrite Hr. f_equal. lia.
Qed.

Lemma deployed_notifyAll queued : forall f,
  exists f',
    notifyAll (gmailClient config) notificationService queued f = (Ok tt, f') /\
    service (world (agent f')) = service (world (agent f)) /\
    credentialsError (world (agent f')) = credentialsError (world (agent f)) /\
    now (world (agent f')) = now (world (agent f)) /\
    dateStr (world (agent f')) = dateStr (world (agent f)) /\
    notifications (world (agent f'))
      = dispatchAll (notifications (world (agent f)))
          (List.map (fun request =>
                       Alert request
                         (GmailClient.getEmailAgeHours (now (world (agent f))) request)
                         (recipientEmailOf request)) queued) /\
    processedRequests (agent f')
      = list_to_set (msg_id <$> queued) ∪ processedRequests (agent f) /\
    calls (agent f') = (calls (agent f) ++ (queued ≫= alertCalls))%list /\
    results f' =
      mkResults (checked_requests (results f)) (pending_requests (results f))
        (notifications_sent (results f) + length queued) (errors (results f)).
Proof.
  induction queued as [|request rest IH]; intros f.
  - exists f. cbn. rewrite app_nil_r, Nat.add_0_r, results_eta.
    repeat (split; [done|]). split; [set_solver|done].
  - cbn [notifyAll]. unfold bind. rewrite deployed_notifyRequest.
    match goal with |- context [notifyAll _ _ rest ?f1] =>
      destruct (IH f1) as (f' & Heq & Hs & Hc & Hn & Hd & Hns & Hp & Hcalls & Hr) end.
    exists f'. rewrite Heq. unfold frameWith in *.
    cbn [agent world processedRequests calls results countSent withNotifications
         service credentialsError now dateStr notifications
         checked_requests pending_requests notifications_sent errors] in *.
    do 5 (split; [done|]).
    split; [by rewrite Hns|].
    split; [rewrite Hp; set_solver|].
    split; [rewrite Hcalls; cbn; by rewrite <- app_assoc|].
    rewrite Hr. cbn [length]. f_equal. lia.
Qed.

Lemma dispatchAll_app ns (l1 l2 : list Dispatch) :
  dispatchAll ns (l1 ++ l2) = dispatchAll (dispatchAll ns l1) l2.
Proof. revert ns. induction l1 as [|d l1 IH]; intros ns; [done|]. cbn. apply IH. Qed.

Lemma deployed_runOnce (a : Agent) :
  credentialsError (world a) = None ->
  exists a' new,
    Deployment.runOnce config a
      = (Ok (mkResults (length (found config (world a)))
               (length (triage config (world a) (processedRequests a)
                          (found config (world a))).1)
               (length (triage config (world a) (processedRequests a)
                          (found config (world a))).1)
               (searchErrors config (world a))),
         a') /\
    service (world a') = service (world a) /\
    credentialsError (world a') = credentialsError (world a) /\
    now (world a') = now (world a) /\
    dateStr (world a') = dateStr (world a) /\
    notifications (world a')
      = dispatchAll (notifications (world a))
          (dispatchesFor (world a)
             (triage config (world a) (processedRequests a) (found config (world a))).1) /\
    processedRequests a'
      = list_to_set (msg_id <$> (triage config (world a) (processedRequests a)
                                   (found config (world a))).1)
        ∪ (triage config (world a) (processedRequests a) (found config (world a))).2 /\
    calls a'
      = (calls a ++ new
         ++ ((triage config (world a) (processedRequests a) (found config (world a))).1
             ≫= alertCalls)
         ++ (if (0 <? length (triage config (world a) (processedRequests a)
                                (found config (world a))).1)%nat
             then [Summary (length (triage config (world a) (processedRequests a)
                                      (found config (world a))).1)]
             else []))%list /\
    (forall requestId, Notify requestId ∉ new) /\
    (forall count, Summary count ∉ new) /\
    (forall requestId, MarkProcessed requestId ∈ new ->
       requestId ∈ (triage config (world a) (processedRequests a)
                      (found config (world a))).2) /\
    (found config (world a) = [] -> new = []).
Proof.
  intros Hcred. unfold Deployment.runOnce, Agent.runOnce.
  cbn [authenticate gmailClient]. rewrite Hcred.
  unfold scan, bind, perform, update, record, ret.
  cbn [findLeaveRequests gmailClient agent world processedRequests calls results
       checked_requests pending_requests notifications_sent errors emptyResults].
  destruct (dateStr (world a) (daysBack (REPLY_TIMEOUT_HOURS config)))
    as [since|] eqn:Hdate.
  2:{ assert (Hfound : found config (world a) = []) by (unfold found; by rewrite Hdate).
      assert (Herrors : searchErrors config (world a)
                        = ["Error during agent execution: Invalid time value"])
        by (unfold searchErrors; by rewrite Hdate).
      rewrite Hfound, Herrors. unfold dispatchesFor. cbn.
      exists (mkAgent (world a) (processedRequests a) (calls a)), []. cbn.
      split; [done|]. do 5 (split; [done|]).
      split; [by rewrite (left_id_L ∅ (∪))|]. split; [by rewrite app_nil_r|].
      do 3 (split; [intros ? Hin; by apply elem_of_nil in Hin|]). done. }
  assert (Hfound : GmailClient.findLeaveRequests (service (world a))
                     (LEAVE_REQUEST_SUBJECT_KEYWORDS config) since
                   = found config (world a)) by (unfold found; by rewrite Hdate).
  assert (Herrors : searchErrors config (world a) = [])
    by (unfold searchErrors; by rewrite Hdate).
  cbn [agent world processedRequests calls results
       checked_requests pending_requests notifications_sent errors emptyResults].
  rewrite Hfound, Herrors.
  set (f0 := mkFrame (mkAgent (world a) (processedRequests a) (calls a))
               (mkResults (length (found config (world a))) 0 0 [])).
  destruct (deployed_evaluateAll (found config (world a)) [] f0)
    as (f1 & Heq & Hw1 & Hp1 & Hr1).
  pose proof (evaluateAll_summary _ _ _ _ _ _ _ Heq) as (new & added & Hsum & _).
  destruct Hsum as (Hc & _ & Hn & Hs & _ & Hm & _).
  rewrite Heq. subst f0.
  cbn [app agent world processedRequests calls results
       checked_requests pending_requests notifications_sent errors] in *.
  set (queued := (triage config (world a) (processedRequests a) (found config (world a))).1) in *.
  destruct (deployed_notifyAll queued f1)
    as (f2 & Heq2 & Hs2 & Hc2 & Hn2 & Hd2 & Hns2 & Hp2 & Hcalls2 & Hr2).
  rewrite Heq2. rewrite Hw1 in *.
  assert (Hmark : forall requestId, MarkProcessed requestId ∈ new ->
            requestId ∈ (triage config (world a) (processedRequests a)
                           (found config (world a))).2).
  { intros requestId Hin. rewrite <- Hp1. by apply Hm. }
  assert (Hnil : found config (world a) = [] -> new = []).
  { intros Hnone. rewrite Hnone in Heq. cbn in Heq. injection Heq as _ <-.
    cbn in Hc. apply (app_inv_head (calls a)). by rewrite app_nil_r. }
  unfold dispatchesFor. fold queued.
  destruct (0 <? length queued)%nat eqn:Hlen.
  - cbn [notifySummary notificationService].
    destruct (NotificationService.notifySummary (notifications (world (agent f2)))
                (length queued)) as [sent ns] eqn:Hsummary.
    cbn [agent world processedRequests calls results withNotifications
         service credentialsError now dateStr notifications
         checked_requests pending_requests notifications_sent errors].
    eexists _, new. split.
    { rewrite Hr2, Hr1. cbn. reflexivity. }
    cbn [agent world processedRequests calls results withNotifications
         service credentialsError now dateStr notifications].
    do 4 (split; [congruence|]).
    split.
    { rewrite dispatchAll_app, <- Hns2. cbn [dispatchAll dispatch]. by rewrite Hsummary. }
    split; [by rewrite Hp2, Hp1|].
    split; [rewrite Hcalls2, Hc; by rewrite <- !app_assoc|].
    done.
  - eexists _, new. split.
    { rewrite Hr2, Hr1. cbn. reflexivity. }
    do 4 (split; [congruence|]).
    split; [by rewrite app_nil_r|].
    split; [by rewrite Hp2, Hp1|].
    split; [rewrite Hcalls2, Hc, app_nil_r; by rewrite <- !app_assoc|].
    done.
Qed.

Lemma triage_facts (w : World) (requests : list Email) : forall processed,
  processed ⊆ (triage config w processed requests).2 /\
  (triage config w processed requests).1 `sublist_of` requests /\
  (forall request, request ∈ (triage config w processed requests).1 ->
     (msg_id request ∉ processed) /\ overdue config w request = true /\
     GmailClient.checkForReply (service w) request = false) /\
  (forall requestId, requestId ∈ (triage config w processed requests).2 ->
     requestId ∈ processed \/
     exists request, request ∈ requests /\ msg_id request = requestId /\
       overdue config w request = true /\
       GmailClient.checkForReply (service w) request = true) /\
  (forall request, request ∈ requests -> overdue config w request = true ->
     msg_id request ∈ (triage config w processed requests).2 \/
     request ∈ (triage config w processed requests).1) /\
  ((forall r1 r2, r1 ∈ requests -> r2 ∈ requests -> msg_id r1 = msg_id r2 -> r1 = r2) ->
   forall request, request ∈ requests -> msg_id request ∉ processed ->
     overdue config w request = true ->
     GmailClient.checkForReply (service w) request = false ->
     request ∈ (triage config w processed requests).1).
Proof.
  induction requests as [|r rest IH]; intros processed; cbn [triage].
  - cbn. split; [done|]. split; [constructor|].
    split; [intros ? Hin; by apply elem_of_nil in Hin|]. split; [by left|].
    split; intros; by match goal with H : _ ∈ [] |- _ => apply elem_of_nil in H end.
  - assert (Hrest :
      (forall r1 r2, r1 ∈ r :: rest -> r2 ∈ r :: rest -> msg_id r1 = msg_id r2 -> r1 = r2) ->
      (forall r1 r2, r1 ∈ rest -> r2 ∈ rest -> msg_id r1 = msg_id r2 -> r1 = r2)).
    { intros Hu r1 r2 H1 H2. apply Hu; by apply list_elem_of_further. }
    case_bool_decide as Hproc.
    { destruct (IH processed) as (I1 & I2 & I3 & I4 & I5 & I6).
      split; [done|]. split; [by apply sublist_cons|]. split; [done|].
      split; [intros requestId Hin; destruct (I4 _ Hin) as [?|(x & ? & ?)];
              [by left | right; exists x; split; [by apply list_elem_of_further | done]]|].
      split.
      - intros request Hin Hover. apply elem_of_cons in Hin as [->|Hin]; [|by apply I5].
        left. by apply I1.
      - intros Hu request Hin Hno Hover Hreply.
        apply elem_of_cons in Hin as [->|Hin]; [done|]. apply I6; [by apply Hrest|done..]. }
    destruct (overdue config w r) eqn:Hover; cbn [negb].
    2:{ destruct (IH processed) as (I1 & I2 & I3 & I4 & I5 & I6).
      split; [done|]. split; [by apply sublist_cons|]. split; [done|].
      split; [intros requestId Hin; destruct (I4 _ Hin) as [?|(x & ? & ?)];
              [by left | right; exists x; split; [by apply list_elem_of_further | done]]|].
      split.
      - intros request Hin Hover'. apply elem_of_cons in Hin as [->|Hin]; [congruence|].
        by apply I5.
      - intros Hu request Hin Hno Hover' Hreply.
        apply elem_of_cons in Hin as [->|Hin]; [congruence|].
        apply I6; [by apply Hrest|done..]. }
    destruct (GmailClient.checkForReply (service w) r) eqn:Hreply.
    { destruct (IH ({[msg_id r]} ∪ processed)) as (I1 & I2 & I3 & I4 & I5 & I6).
      split; [set_solver|]. split; [by apply sublist_cons|].
      split; [intros request Hin; destruct (I3 _ Hin) as (? & ? & ?); set_solver|].
      split.
      - intros requestId Hin. destruct (I4 _ Hin) as [Hold|(x & ? & ?)].
        + apply elem_of_union in Hold as [Hold|Hold]; [|by left].
          apply elem_of_singleton in Hold as ->. right. exists r.
          split; [apply list_elem_of_here | done].
        + right. exists x. split; [by apply list_elem_of_further | done].
      - split.
        + intros request Hin Hover'. apply elem_of_cons in Hin as [->|Hin]; [|by apply I5].
          left. apply I1. set_solver.
        + intros Hu request Hin Hno Hover' Hreply'.
          apply elem_of_cons in Hin as [->|Hin]; [congruence|].
          apply I6; [by apply Hrest|done| |done..].
          intros Hin'. apply elem_of_union in Hin' as [Hin'|Hin']; [|done].
          apply elem_of_singleton in Hin'.
          assert (request = r) as ->; [|congruence].
          apply Hu; [by apply list_elem_of_further | apply list_elem_of_here | done]. }
    destruct (IH processed) as (I1 & I2 & I3 & I4 & I5 & I6).
    destruct (triage config w processed rest) as [queued resolved]. cbn [fst snd] in *.
    split; [done|]. split; [by apply sublist_skip|].
    split.
    { intros request Hin. apply elem_of_cons in Hin as [->|Hin]; [done | by apply I3]. }
    split; [intros requestId Hin; destruct (I4 _ Hin) as [?|(x & ? & ?)];
            [by left | right; exists x; split; [by apply list_elem_of_further | done]]|].
    split.
    + intros request Hin Hover'. apply elem_of_cons in Hin as [->|Hin].
      * right. apply list_elem_of_here.
      * destruct (I5 _ Hin Hover'); [by left | right; by apply list_elem_of_further].
    + intros Hu request Hin Hno Hover' Hreply'.
      apply elem_of_cons in Hin as [->|Hin]; [apply list_elem_of_here|].
      apply list_elem_of_further. apply I6; [by apply Hrest|done..].
Qed.

Lemma found_by_id (w : World) (request : Email) :
  request ∈ found config w ->
  GmailClient.getEmailDetails (service w) (msg_id request) = Some request.
Proof.
  unfold found, GmailClient.findLeaveRequests. intros Hin.
  destruct (dateStr w _) as [since|]; [|by apply elem_of_nil in Hin].
  apply classify_elem in Hin as [Hin _]. unfold GmailClient.searchEmails in Hin.
  destruct (messages_list (service w) _) as [ids|]; [|by apply elem_of_nil in Hin].
  rewrite collectDetails_omap in Hin. cbn [app] in Hin.
  apply list_elem_of_omap in Hin as (messageId & _ & Hget).
  by rewrite (getEmailDetails_id _ _ _ Hget).
Qed.

Lemma found_unique (w : World) (r1 r2 : Email) :
  r1 ∈ found config w -> r2 ∈ found config w -> msg_id r1 = msg_id r2 -> r1 = r2.
Proof.
  intros H1 H2 Hid. apply found_by_id in H1, H2. rewrite Hid in H1. congruence.
Qed.

Lemma notify_not_summary (requestId : string) (b : bool) (count : nat) :
  Notify requestId ∉ (if b then [Summary count] else []).
Proof.
  intros Hin. destruct b; [|by apply elem_of_nil in Hin].
  apply list_elem_of_singleton in Hin. discriminate Hin.
Qed.

Lemma notify_in_alerts (requestId : string) (queued : list Email) :
  Notify requestId ∈ queued ≫= alertCalls <->
  exists request, request ∈ queued /\ msg_id request = requestId.
Proof.
  split.
  - intros Hin. apply elem_of_alerts in Hin as (request & Hin & [Heq|Heq]); [|done].
    exists request. split; [done|]. by injection Heq.
  - intros (request & Hin & <-). apply list_elem_of_bind. exists request.
    split; [apply list_elem_of_here | done].
Qed.



End DeploymentMore.

(* ------------------------------------------------------------------ *)
(** ** C2: the processed set over the life of an instance *)

Section ProcessedSetClaim.
Import Agent Deployment Derived.

Variable config : Config.

Lemma triage_nothing (w : World) (processed : gset string) (requests : list Email) :
  (forall request, request ∈ requests -> overdue config w request = true ->
     msg_id request ∈ processed) ->
  triage config w processed requests = ([], processed).
Proof.
  induction requests as [|request rest IH]; intros Hall; [done|].
  cbn [triage].
  assert (Hrest : triage config w processed rest = ([], processed)).
  { apply IH. intros r Hin. apply Hall. by apply list_elem_of_further. }
  case_bool_decide as Hproc; [done|].
  destruct (overdue config w request) eqn:Hover; [|done].
  destruct Hproc. apply Hall; [apply list_elem_of_here | done].
Qed.

(** A mailbox that lists a message at most once per search gives a search
    result without a repeated id. *)
Lemma deployed_searchDistinct (a : Agent) :
  (forall query ids, messages_list (service (world a)) query = Some ids -> NoDup ids) ->
  searchDistinct (gmailClient config) (REPLY_TIMEOUT_HOURS config) a.
Proof.
  intros Hlist u w leaveRequests w'. cbn [authenticate findLeaveRequests gmailClient].
  destruct (credentialsError (world a)); [done|]. intros [= _ <-].
  destruct (dateStr (world a) _) as [since|]; [|done]. intros [= <- _].
  unfold GmailClient.findLeaveRequests, Classifier.classify, GmailClient.searchEmails.
  rewrite classifyLoop_filter, app_nil_l.
  destruct (messages_list (service (world a)) _) as [ids|] eqn:Hids; [|constructor].
  rewrite collectDetails_omap, app_nil_l.
  eapply sublist_NoDup; [exact (Hlist _ _ Hids)|].
  etrans; [|apply omap_ids_sublist]. apply (fmap_sublist msg_id), filter_sublist_of.
Qed.

(** Two runs in a row on the same mailbox at the same time. *)
Lemma deployed_second_run (a : Agent) :
  credentialsError (world a) = None ->
  exists r1 a1 r2 a2,
    Deployment.runOnce config a = (Ok r1, a1) /\
    Deployment.runOnce config a1 = (Ok r2, a2) /\
    checked_requests r2 = checked_requests r1 /\
    pending_requests r2 = 0%nat /\
    notifications_sent r2 = 0%nat /\
    processedRequests a2 = processedRequests a1 /\
    notifications (world a2) = notifications (world a1) /\
    exists new, calls a2 = (calls a1 ++ new)%list /\
                forall requestId, Notify requestId ∉ new.
Proof.
  intros Hcred.
  destruct (deployed_runOnce config a Hcred)
    as (a1 & new1 & Hrun1 & Hs & Hc & Hn & Hd & _ & Hp & _).
  assert (Hcred1 : credentialsError (world a1) = None) by congruence.
  destruct (deployed_runOnce config a1 Hcred1)
    as (a2 & new2 & Hrun2 & _ & _ & _ & _ & Hns & Hp2 & Hcalls & Hno & _).
  assert (Hfound : found config (world a1) = found config (world a)).
  { unfold found. by rewrite Hs, Hd. }
  assert (Hover : forall request,
             overdue config (world a1) request = overdue config (world a) request).
  { intros request. unfold overdue. by rewrite Hn. }
  assert (Htriage : triage config (world a1) (processedRequests a1) (found config (world a1))
                    = ([], processedRequests a1)).
  { apply triage_nothing. intros request Hin Hdue.
    rewrite Hfound in Hin. rewrite Hover in Hdue. rewrite Hp.
    destruct (triage_facts config (world a) (found config (world a)) (processedRequests a))
      as (_ & _ & _ & _ & T5 & _).
    destruct (T5 _ Hin Hdue) as [Hin'|Hin']; apply elem_of_union; [by right|left].
    apply elem_of_list_to_set, list_elem_of_fmap. by exists request. }
  rewrite Htriage in Hrun2, Hns, Hp2, Hcalls. cbn in Hrun2, Hns, Hp2, Hcalls.
  rewrite Hfound in Hrun2.
  eexists _, a1, _, a2. split; [exact Hrun1|]. split; [exact Hrun2|].
  cbn. do 3 (split; [done|]).
  split; [by rewrite Hp2, (left_id_L ∅ (∪))|]. split; [done|].
  exists new2. split; [by rewrite Hcalls, app_nil_r | done].
Qed.

(** C2. Over the life of an instance, whatever the collaborators: the
    processed set only grows; no run after an id entered the processed set
    dispatches a per-candidate alert for it; a further run counts in
    notifications_sent only alerts of that run, exactly their number when
    it records no error, and none of them is for an id processed before, so
    a candidate already processed contributes 0; and as long as no search
    lists a message twice, as [users.messages.list] never does, no
    iteration of any run dispatches an alert for an id after that id was
    marked. With the repository's own collaborators a search lists no id
    twice when the mailbox does not, and a second run on the same mailbox
    at the same time finds as many requests as the first, queues none,
    sends 0 notifications and leaves the processed set and the
    notification service as they were. *)
Theorem C2_processed_ids_are_not_alerted_again :
  (forall (W : Type) (gmailClient : @GmailClientOps W)
          (notificationService : @NotificationOps W) (REPLY_TIMEOUT_HOURS : Z)
          (w : W) (a a' : @Agent W),
      later gmailClient notificationService REPLY_TIMEOUT_HOURS (newAgent w) a ->
      later gmailClient notificationService REPLY_TIMEOUT_HOURS a a' ->
      processedRequests a ⊆ processedRequests a' /\
      (exists new, calls a' = (calls a ++ new)%list /\
         forall requestId, requestId ∈ processedRequests a -> Notify requestId ∉ new) /\
      (forall r a'',
         Agent.runOnce gmailClient notificationService REPLY_TIMEOUT_HOURS a' = (Ok r, a'') ->
         exists new,
           calls a'' = (calls a' ++ new)%list /\
           (notifications_sent r <= length (notifyIds new))%nat /\
           (errors r = [] -> notifications_sent r = length (notifyIds new)) /\
           forall requestId, requestId ∈ notifyIds new ->
                             (requestId ∉ processedRequests a') /\
                             (requestId ∉ processedRequests a)) /\
      (laterDistinct gmailClient notificationService REPLY_TIMEOUT_HOURS (newAgent w) a' ->
       noNotifyAfterMark (calls a'))) /\
  (forall a : @Agent World,
      (forall query ids, messages_list (service (world a)) query = Some ids -> NoDup ids) ->
      searchDistinct (gmailClient config) (REPLY_TIMEOUT_HOURS config) a) /\
  (forall a : @Agent World,
      credentialsError (world a) = None ->
      exists r1 a1 r2 a2,
        Deployment.runOnce config a = (Ok r1, a1) /\
        Deployment.runOnce config a1 = (Ok r2, a2) /\
        checked_requests r2 = checked_requests r1 /\
        pending_requests r2 = 0%nat /\
        notifications_sent r2 = 0%nat /\
        processedRequests a2 = processedRequests a1 /\
        notifications (world a2) = notifications (world a1) /\
        exists new, calls a2 = (calls a1 ++ new)%list /\
                    forall requestId, Notify requestId ∉ new).
Proof.
  split; [|split].
  - intros W gmailClient notificationService T w a a'.
    apply processed_ids_over_the_life.
  - exact deployed_searchDistinct.
  - exact deployed_second_run.
Qed.

End ProcessedSetClaim.

(** ** The API server and the scheduled job *)

Section ServerMore.
Import Agent Deployment Derived Server.

Variable config : Config.

Lemma overdue_later (w w' : World) (request : Email) :
  (now w <= now w')%Z ->
  overdue config w request = true -> overdue config w' request = true.
Proof.
  unfold overdue. rewrite !negb_true_iff. intros Hle.
  destruct (Z.eq_dec (parseIntOr0 (internal_date request)) 0%Z) as [Hd|Hd].
  - by rewrite !overdue_unknown.
  - rewrite !overdue_elapsed by done. lia.
Qed.

Lemma construct_run (env : Env) (auth : GmailService) :
  exists a' new,
    Deployment.runOnce config (construct env auth)
      = (Ok (mkResults (length (found config (world (construct env auth))))
               (length (triage config (world (construct env auth)) ∅
                          (found config (world (construct env auth)))).1)
               (length (triage config (world (construct env auth)) ∅
                          (found config (world (construct env auth)))).1)
               (searchErrors config (world (construct env auth)))),
         a') /\
    calls a'
      = (new
         ++ ((triage config (world (construct env auth)) ∅
                (found config (world (construct env auth)))).1 ≫= alertCalls)
         ++ (if (0 <? length (triage config (world (construct env auth)) ∅
                                (found config (world (construct env auth)))).1)%nat
             then [Summary (length (triage config (world (construct env auth)) ∅
                                      (found config (world (construct env auth)))).1)]
             else []))%list /\
    (forall requestId, Notify requestId ∉ new).
Proof.
  destruct (deployed_runOnce config (construct env auth) eq_refl)
    as (a' & new & Hrun & _ & _ & _ & _ & _ & _ & Hcalls & Hn & _).
  exists a', new. split; [exact Hrun|]. split; [exact Hcalls|exact Hn].
Qed.

Lemma construct_errors (env : Env) (auth : GmailService) :
  match dateOf env (daysBack (REPLY_TIMEOUT_HOURS config)) with
  | Some _ => searchErrors config (world (construct env auth)) = []
  | None =>
      mkResults (length (found config (world (construct env auth))))
        (length (triage config (world (construct env auth)) ∅
                   (found config (world (construct env auth)))).1)
        (length (triage config (world (construct env auth)) ∅
                   (found config (world (construct env auth)))).1)
        (searchErrors config (world (construct env auth)))
      = mkResults 0 0 0 ["Error during agent execution: Invalid time value"]
  end.
Proof.
  unfold searchErrors, found. cbn [world construct newAgent dateStr].
  by destruct (dateOf env (daysBack (REPLY_TIMEOUT_HOURS config))).
Qed.

(** X16. [POST /api/check] answers 200 with the results exactly when a
    user is named and tokens are stored for the user; the results then
    carry equal counts of pending requests and alerts, at most the number
    of requests found, and no error, unless the first day of the search is
    outside the range of [Date]: the results are then 0, 0, 0 with the
    error "Error during agent execution: Invalid time value", still with
    status 200. It answers 400 exactly when no user is named or no tokens
    are stored, and 500 only when the token lookup rejects, with the
    message of that rejection: the check itself never produces a 500. *)
Theorem X16_api_check_fails_only_on_the_token_lookup
    (env : Env) (userEmail : option string) :
  match apiCheck config env userEmail with
  | Json results =>
      JS.truthy userEmail = true /\
      (exists auth,
         getAuthorizedClient env (JS.or_else userEmail "") = Ok (Some auth) /\
         (Deployment.runOnce config (construct env auth)).1 = Ok results) /\
      match dateOf env (daysBack (REPLY_TIMEOUT_HOURS config)) with
      | Some _ => errors results = []
      | None =>
          results
          = mkResults 0 0 0 ["Error during agent execution: Invalid time value"]
      end /\
      notifications_sent results = pending_requests results /\
      (pending_requests results <= checked_requests results)%nat
  | Status code error =>
      (code = 400%Z /\
       (JS.truthy userEmail = false \/
        getAuthorizedClient env (JS.or_else userEmail "") = Ok None)) \/
      (code = 500%Z /\ JS.truthy userEmail = true /\
       getAuthorizedClient env (JS.or_else userEmail "") = Throw error)
  end.
Proof.
  unfold apiCheck. destruct (JS.truthy userEmail) eqn:Huser; cbn [negb]; [|by left; eauto].
  destruct (getAuthorizedClient env (JS.or_else userEmail "")) as [[auth|]|message] eqn:Hauth;
    [|by left; eauto|by right].
  destruct (construct_run env auth) as (a' & new & Hrun & _).
  rewrite Hrun. cbn [errors notifications_sent pending_requests checked_requests].
  split; [done|]. split; [exists auth; by rewrite Hrun|].
  split; [apply construct_errors|]. split; [done|].
  apply sublist_length.
  by destruct (triage_facts config (world (construct env auth))
                 (found config (world (construct env auth))) ∅) as (_ & Hsub & _).
Qed.

(** X17. In the scheduled job the users are checked independently: a user
    gets a result exactly when the token lookup for that user returns
    tokens, whatever happens to the other users (no tokens, or a lookup
    that rejects); results come in the order of the user list, each
    with equal counts of pending requests and alerts and without error,
    unless the first day of the search is outside the range of [Date] when
    the user's turn comes (the result is then 0, 0, 0 with that error);
    when the user list itself cannot be read nobody is checked. *)
Theorem X17_scheduled_checks_are_independent
    (envAt : string -> Env) (users : list string) :
  (forall message, scheduledChecks config envAt (Throw message) = []) /\
  (fst <$> scheduledChecks config envAt (Ok users)) `sublist_of` users /\
  (forall userEmail results,
     (userEmail, results) ∈ scheduledChecks config envAt (Ok users) <->
     userEmail ∈ users /\
     exists auth,
       getAuthorizedClient (envAt userEmail) userEmail = Ok (Some auth) /\
       (Deployment.runOnce config (construct (envAt userEmail) auth)).1 = Ok results) /\
  (forall userEmail results,
     (userEmail, results) ∈ scheduledChecks config envAt (Ok users) ->
     match dateOf (envAt userEmail) (daysBack (REPLY_TIMEOUT_HOURS config)) with
     | Some _ => errors results = []
     | None =>
         results
         = mkResults 0 0 0 ["Error during agent execution: Invalid time value"]
     end /\
     notifications_sent results = pending_requests results) /\
  (forall others : list string,
     scheduledChecks config envAt (Ok (users ++ others)%list)
     = (scheduledChecks config envAt (Ok users)
        ++ scheduledChecks config envAt (Ok others))%list).
Proof.
  assert (Hcheck : forall userEmail entry,
            checkUser config (envAt userEmail) userEmail = Some entry <->
            exists auth,
              getAuthorizedClient (envAt userEmail) userEmail = Ok (Some auth) /\
              entry.1 = userEmail /\
              (Deployment.runOnce config (construct (envAt userEmail) auth)).1 = Ok entry.2).
  { intros userEmail entry. unfold checkUser.
    destruct (getAuthorizedClient (envAt userEmail) userEmail) as [[auth|]|message];
      [|split; [done|by intros (? & ? & _)]..].
    destruct (construct_run (envAt userEmail) auth) as (a' & new & Hrun & _).
    rewrite Hrun. cbn [fst]. split.
    - intros [= <-]. exists auth. by rewrite Hrun.
    - intros (auth' & [= <-] & Hu & Hr). rewrite Hrun in Hr. cbn [fst] in Hr.
      injection Hr as Hr. destruct entry as [u r]. cbn [fst snd] in *. by subst. }
  split; [done|]. cbn [scheduledChecks]. split; [|split; [|split]].
  - induction users as [|u rest IH]; cbn; [constructor|].
    destruct (checkUser config (envAt u) u) as [entry|] eqn:Hu.
    + apply Hcheck in Hu as (auth & _ & <- & _). by apply sublist_skip.
    + by apply sublist_cons.
  - intros userEmail results. rewrite list_elem_of_omap. split.
    + intros (u & Hin & Hu). apply Hcheck in Hu as (auth & Hauth & Heq & Hr).
      cbn in Heq. subst u. split; [done|]. by exists auth.
    + intros (Hin & auth & Hauth & Hr). exists userEmail. split; [done|].
      apply Hcheck. by exists auth.
  - intros userEmail results Hin.
    apply list_elem_of_omap in Hin as (u & _ & Hu).
    apply Hcheck in Hu as (auth & _ & Heq & Hr). cbn [fst snd] in Heq, Hr. subst u.
    destruct (construct_run (envAt userEmail) auth) as (a' & new & Hrun & _).
    rewrite Hrun in Hr. cbn [fst] in Hr. injection Hr as <-.
    split; [apply construct_errors | done].
  - intros others. apply omap_app.
Qed.

(** X18. The server builds a new agent, with an empty processed set, for
    every check, so nothing is remembered from one check to the next: a
    message alerted in one check is alerted again in every later check of
    the same mailbox in which the search still finds it. On one agent
    instance, by contrast, a second run never alerts a message the first
    run alerted. *)
Theorem X18_server_checks_alert_again
    (env env' : Env) (auth : GmailService) (requestId : string) :
  (clock env <= clock env')%Z ->
  Notify requestId ∈ calls (Deployment.runOnce config (construct env auth)).2 ->
  ((exists request,
      request ∈ found config (world (construct env' auth)) /\
      msg_id request = requestId) ->
   Notify requestId ∈ calls (Deployment.runOnce config (construct env' auth)).2) /\
  (exists new,
     calls (Deployment.runOnce config
              (Deployment.runOnce config (construct env auth)).2).2
       = (calls (Deployment.runOnce config (construct env auth)).2 ++ new)%list /\
     (Notify requestId ∉ new)).
Proof.
  intros Hclock Hfirst.
  destruct (deployed_runOnce config (construct env auth) eq_refl)
    as (a1 & new1 & Hrun1 & Hs1 & Hc1 & Hn1 & Hd1 & _ & Hp1 & Hcalls1 & Hno1 & _).
  rewrite Hrun1 in *. cbn [snd] in *.
  destruct (triage_facts config (world (construct env auth))
              (found config (world (construct env auth))) ∅)
    as (_ & S1 & S3 & _).
  assert (Halerted : exists request,
            request ∈ found config (world (construct env auth)) /\
            msg_id request = requestId /\
            overdue config (world (construct env auth)) request = true /\
            GmailClient.checkForReply auth request = false /\
            requestId ∈ processedRequests a1).
  { rewrite Hcalls1 in Hfirst. cbn [calls construct newAgent app] in Hfirst.
    apply elem_of_app in Hfirst as [Hin|Hin]; [by apply Hno1 in Hin|].
    apply elem_of_app in Hin as [Hin|Hin].
    - apply notify_in_alerts in Hin as (request & Hin & <-).
      destruct (S3 _ Hin) as (_ & Hover & Hreply). exists request.
      split; [by eapply elem_of_sublist|]. do 3 (split; [done|]).
      rewrite Hp1. apply elem_of_union. left.
      apply elem_of_list_to_set, list_elem_of_fmap. by exists request.
    - by apply notify_not_summary in Hin. }
  destruct Halerted as (request & Hfound & Hid & Hover & Hreply & Hmarked).
  split.
  - intros (request' & Hfound' & Hid').
    destruct (deployed_runOnce config (construct env' auth) eq_refl)
      as (a2 & new2 & Hrun2 & _ & _ & _ & _ & _ & _ & Hcalls2 & _).
    rewrite Hrun2. cbn [snd]. rewrite Hcalls2.
    apply elem_of_app. right. apply elem_of_app. right. apply elem_of_app. left.
    apply notify_in_alerts. exists request'. split; [|done].
    assert (request' = request) as ->.
    { apply found_by_id in Hfound, Hfound'. cbn [world construct newAgent service] in *.
      rewrite Hid' in Hfound'. rewrite Hid in Hfound. congruence. }
    destruct (triage_facts config (world (construct env' auth))
                (found config (world (construct env' auth))) ∅)
      as (_ & _ & _ & _ & _ & S6).
    apply S6; [intros r1 r2; apply found_unique|done|set_solver| |done].
    by apply (overdue_later (world (construct env auth))).
  - assert (Hcred : credentialsError (world a1) = None) by (by rewrite Hc1).
    destruct (deployed_runOnce config a1 Hcred)
      as (a2 & new2 & Hrun2 & _ & _ & _ & _ & _ & _ & Hcalls2 & Hno2 & _).
    rewrite Hrun2. cbn [snd]. eexists. split; [exact Hcalls2|].
    intros Hin. apply elem_of_app in Hin as [Hin|Hin]; [by apply Hno2 in Hin|].
    apply elem_of_app in Hin as [Hin|Hin].
    + apply notify_in_alerts in Hin as (request' & Hin & Hid').
      destruct (triage_facts config (world a1) (found config (world a1))
                  (processedRequests a1)) as (_ & _ & T3 & _).
      destruct (T3 _ Hin) as (Hno & _). apply Hno. by rewrite Hid'.
    + by apply notify_not_summary in Hin.
Qed.

End ServerMore.

(** ** Sample runs for the further properties *)

Section MoreScenarios.
Import Agent Deployment Derived Scenario MoreSamples ServerScenario.

Lemma X13_witness :
  Deployment.runOnce config48 (newAgent unanswered)
    = (Ok (mkResults 1 1 1 []), afterFirstRun) /\
  (notifications_sent (mkResults 1 1 1 []) <= pending_requests (mkResults 1 1 1 []))%nat /\
  (pending_requests (mkResults 1 1 1 []) <= checked_requests (mkResults 1 1 1 []))%nat /\
  (length (errors (mkResults 1 1 1 [])) <= 1)%nat /\
  exists new,
    calls afterFirstRun = (calls (newAgent unanswered) ++ new)%list /\
    (forall count, Summary count ∈ new ->
       count = pending_requests (mkResults 1 1 1 []) /\ (0 < count)%nat /\
       notifications_sent (mkResults 1 1 1 []) = count /\
       exists before, new = (before ++ [Summary count])%list /\
                      forall other, Summary other ∉ before) /\
    (errors (mkResults 1 1 1 []) = [] ->
     (0 < pending_requests (mkResults 1 1 1 []))%nat ->
     Summary (pending_requests (mkResults 1 1 1 [])) ∈ new).
Proof.
  assert (Hfst : (Deployment.runOnce config48 (newAgent unanswered)).1
                 = Ok (mkResults 1 1 1 [])) by (vm_compute; reflexivity).
  assert (Hrun : Deployment.runOnce config48 (newAgent unanswered)
                 = (Ok (mkResults 1 1 1 []), afterFirstRun))
    by (rewrite <- Hfst; apply surjective_pairing).
  split; [exact Hrun|].
  exact (X13_counters_are_ordered_and_summary_comes_last
           (gmailClient config48) notificationService 48 (newAgent unanswered)
           (mkResults 1 1 1 []) afterFirstRun Hrun).
Defined.



Lemma X18_witness :
  (Server.clock (envAfter 72) <= Server.clock (envAfter 96))%Z /\
  Notify "m1" ∈ calls (Deployment.runOnce config48
                         (Server.construct (envAfter 72) inbox)).2 /\
  ((exists request,
      request ∈ found config48 (world (Server.construct (envAfter 96) inbox)) /\
      msg_id request = "m1") ->
   Notify "m1" ∈ calls (Deployment.runOnce config48
                          (Server.construct (envAfter 96) inbox)).2) /\
  (exists new,
     calls (Deployment.runOnce config48
              (Deployment.runOnce config48 (Server.construct (envAfter 72) inbox)).2).2
       = (calls (Deployment.runOnce config48
                   (Server.construct (envAfter 72) inbox)).2 ++ new)%list /\
     (Notify "m1" ∉ new)).
Proof.
  assert (Hclock : (Server.clock (envAfter 72) <= Server.clock (envAfter 96))%Z)
    by (vm_compute; discriminate).
  assert (Hcalls : calls (Deployment.runOnce config48
                            (Server.construct (envAfter 72) inbox)).2
                   = [Evaluated "m1" (259200000 # 3600000); CheckForReply "m1";
                      Notify "m1"; MarkProcessed "m1"; Summary 1])
    by (vm_compute; reflexivity).
  assert (Hfirst : Notify "m1" ∈ calls (Deployment.runOnce config48
                                          (Server.construct (envAfter 72) inbox)).2).
  { rewrite Hcalls. do 2 apply list_elem_of_further. apply list_elem_of_here. }
  split; [exact Hclock|]. split; [exact Hfirst|].
  exact (X18_server_checks_alert_again config48 (envAfter 72) (envAfter 96) inbox "m1"
           Hclock Hfirst).
Defined.

Example api_check_of_unanswered_mailbox :
  Server.apiCheck config48 (envAfter 72) (Some "john@example.com")
    = Server.Json (mkResults 1 1 1 []) /\
  Server.apiCheck config48 (envAfter 96) (Some "john@example.com")
    = Server.Json (mkResults 1 1 1 []) /\
  Server.apiCheck config48 (envAfter 72) None = Server.Status 400 "userEmail required".
Proof. split; [|split]; vm_compute; reflexivity. Qed.

(** A timeout of 3000000000 hours puts the first day of the search outside
    the range of [Date]: the run and the API check record the error. *)
Example run_with_a_lookback_out_of_range :
  daysBack (REPLY_TIMEOUT_HOURS config3e9) = 125000001%Z /\
  (Deployment.runOnce config3e9 (newAgent outOfRange)).1
    = Ok (mkResults 0 0 0 ["Error during agent execution: Invalid time value"]) /\
  calls (Deployment.runOnce config3e9 (newAgent outOfRange)).2 = [].
Proof. split; [|split]; vm_compute; reflexivity. Qed.

Lemma C1_witness :
  (GmailClient.checkForReply replyListedFirst request = true <->
   exists m, ReplyResolver.genuineReply replyListedFirst request [rawReply; rawRequest] m) /\
  ReplyResolver.earliestOf [rawReply; rawRequest] rawRequest /\
  ReplyResolver.genuineReply replyListedFirst request [rawReply; rawRequest] rawReply /\
  GmailClient.checkForReply replyListedFirst request = true /\
  (GmailClient.checkForReply (service answered) request = true <->
   exists m, ReplyResolver.claimedReply request [rawRequest; rawReply] m) /\
  GmailClient.checkForReply (service answered) request = true /\
  GmailClient.checkForReply (service unanswered) request = false.
Proof.
  destruct C1_checkForReply_iff_genuine_reply as (Hgenuine & Hclaimed & Hsingle & _).
  assert (Htid : thread_id request = Some "t1") by reflexivity.
  assert (Hne : "t1" <> "") by discriminate.
  assert (Hiff := Hgenuine replyListedFirst request "t1" [rawReply; rawRequest]
                    Htid Hne eq_refl).
  assert (Hearliest : ReplyResolver.earliestOf [rawReply; rawRequest] rawRequest).
  { exists [rawReply], []. split; [reflexivity|]. split.
    - intros m Hm. apply list_elem_of_singleton in Hm as ->. reflexivity.
    - intros m Hm. by apply elem_of_nil in Hm. }
  assert (Hreply : ReplyResolver.genuineReply replyListedFirst request
                     [rawReply; rawRequest] rawReply).
  { split.
    - split; [apply list_elem_of_here|]. split; [discriminate|].
      split; [|reflexivity]. exists rawRequest. split; [exact Hearliest | discriminate].
    - exists reply. split; [reflexivity|]. left. discriminate. }
  split; [exact Hiff|]. split; [exact Hearliest|]. split; [exact Hreply|].
  split; [apply Hiff; by exists rawReply|].
  assert (Hlisted : forall m, m ∈ [rawRequest; rawReply] ->
                      messages_get (service answered) (raw_id m) = Some m).
  { intros m Hm. apply elem_of_cons in Hm as [->|Hm]; [reflexivity|].
    apply list_elem_of_singleton in Hm as ->. reflexivity. }
  split; [exact (Hclaimed (service answered) request "t1" [rawRequest; rawReply]
                   Htid Hne eq_refl Hlisted)|].
  split; [vm_compute; reflexivity|].
  exact (Hsingle (service unanswered) request "t1" rawRequest Htid eq_refl).
Defined.

(** The thread holds the reply of somebody else, sent ten hours after the
    request, but its details cannot be fetched: the answer is false. *)
Lemma C1_counterexample :
  thread_id request = Some "t1" /\
  threads_get replyUnfetchable "t1" = Some [rawRequest; rawReply] /\
  ReplyResolver.claimedReply request [rawRequest; rawReply] rawReply /\
  GmailClient.getEmailDetails replyUnfetchable (raw_id rawReply) = None /\
  GmailClient.checkForReply replyUnfetchable request = false.
Proof.
  split; [reflexivity|]. split; [reflexivity|]. split; [|split; vm_compute; reflexivity].
  split.
  - split; [apply list_elem_of_further, list_elem_of_here|]. split; [discriminate|].
    split; [|reflexivity]. exists rawRequest. split; [|discriminate].
    exists [], [rawReply]. split; [reflexivity|]. split.
    + intros m Hm. by apply elem_of_nil in Hm.
    + intros m Hm. apply list_elem_of_singleton in Hm as ->. discriminate.
  - left. discriminate.
Qed.

Lemma searchDistinct_first_run :
  searchDistinct (gmailClient config48) 48 (newAgent unanswered).
Proof.
  apply (deployed_searchDistinct config48 (newAgent unanswered)).
  intros query ids [= <-]. apply NoDup_singleton.
Defined.

Lemma searchDistinct_second_run :
  searchDistinct (gmailClient config48) 48 afterFirstRun.
Proof.
  apply (deployed_searchDistinct config48 afterFirstRun).
  intros query ids Hids.
  assert (Hs : service (world afterFirstRun) = mailbox ["m1"] [rawRequest])
    by (vm_compute; reflexivity).
  rewrite Hs in Hids. injection Hids as <-. apply NoDup_singleton.
Defined.

Lemma C2_witness :
  later (gmailClient config48) notificationService 48 (newAgent unanswered) afterFirstRun /\
  later (gmailClient config48) notificationService 48 afterFirstRun afterSecondRun /\
  laterDistinct (gmailClient config48) notificationService 48
    (newAgent unanswered) afterSecondRun /\
  ("m1" ∈ processedRequests afterFirstRun) /\
  processedRequests afterFirstRun ⊆ processedRequests afterSecondRun /\
  (exists new, calls afterSecondRun = (calls afterFirstRun ++ new)%list /\
     forall requestId, requestId ∈ processedRequests afterFirstRun ->
                       Notify requestId ∉ new) /\
  (forall r a'',
     Agent.runOnce (gmailClient config48) notificationService 48 afterSecondRun
       = (Ok r, a'') ->
     exists new,
       calls a'' = (calls afterSecondRun ++ new)%list /\
       (notifications_sent r <= length (notifyIds new))%nat /\
       (errors r = [] -> notifications_sent r = length (notifyIds new)) /\
       forall requestId, requestId ∈ notifyIds new ->
                         (requestId ∉ processedRequests afterSecondRun) /\
                         (requestId ∉ processedRequests afterFirstRun)) /\
  noNotifyAfterMark (calls afterSecondRun) /\
  searchDistinct (gmailClient config48) (REPLY_TIMEOUT_HOURS config48)
    (newAgent unanswered) /\
  (exists r1 a1 r2 a2,
     Deployment.runOnce config48 (newAgent unanswered) = (Ok r1, a1) /\
     Deployment.runOnce config48 a1 = (Ok r2, a2) /\
     checked_requests r2 = checked_requests r1 /\
     pending_requests r2 = 0%nat /\
     notifications_sent r2 = 0%nat /\
     processedRequests a2 = processedRequests a1 /\
     notifications (world a2) = notifications (world a1) /\
     exists new, calls a2 = (calls a1 ++ new)%list /\
                 forall requestId, Notify requestId ∉ new) /\
  (Deployment.runOnce config48 (newAgent unanswered)).1 = Ok (mkResults 1 1 1 []) /\
  (Deployment.runOnce config48 afterFirstRun).1 = Ok (mkResults 1 0 0 []).
Proof.
  destruct (C2_processed_ids_are_not_alerted_again config48)
    as (Hlife & Hdistinct & Hsecond).
  assert (Hall : laterDistinct (gmailClient config48) notificationService 48
                   (newAgent unanswered) afterSecondRun).
  { refine (laterDistinct_run _ _ _ _ _ _ _
              (laterDistinct_run _ _ _ _ _ _ _ (laterDistinct_refl _ _ _ _)
                 searchDistinct_first_run
                 (surjective_pairing (Deployment.runOnce config48 (newAgent unanswered))))
              searchDistinct_second_run
              (surjective_pairing (Deployment.runOnce config48 afterFirstRun))). }
  destruct (Hlife World (gmailClient config48) notificationService 48%Z unanswered
              afterFirstRun afterSecondRun later_first_run later_second_run)
    as (Hgrow & Hno & Hsent & Hiter).
  split; [exact later_first_run|]. split; [exact later_second_run|].
  split; [exact Hall|]. split; [compute_done|].
  split; [exact Hgrow|]. split; [exact Hno|]. split; [exact Hsent|].
  split; [exact (Hiter Hall)|].
  split.
  { apply (Hdistinct (newAgent unanswered)).
    intros query ids [= <-]. apply NoDup_singleton. }
  split; [exact (Hsecond (newAgent unanswered) eq_refl)|].
  split; vm_compute; reflexivity.
Defined.

End MoreScenarios.

(** ** The push variant of the notification service *)

Section PushServiceMore.
Import PushNotificationService.

Local Abbreviation tokensOf ns := (FirebaseService.fcmTokens (firebaseService ns)).
Local Abbreviation pushReady ns := (FirebaseService.initialized (firebaseService ns)).

Lemma addFCMToken_facts (fs : FirebaseService.t) (token : string) :
  FirebaseService.initialized (FirebaseService.addFCMToken fs token)
    = FirebaseService.initialized fs /\
  (NoDup (FirebaseService.fcmTokens fs) ->
   NoDup (FirebaseService.fcmTokens (FirebaseService.addFCMToken fs token))) /\
  (forall other,
     other ∈ FirebaseService.fcmTokens (FirebaseService.addFCMToken fs token) ->
     other ∈ FirebaseService.fcmTokens fs \/ (other = token /\ token <> "")).
Proof.
  unfold FirebaseService.addFCMToken.
  destruct (String.eqb_spec token "") as [->|Hne]; cbn [negb]; [by eauto|].
  case_bool_decide as Hin; cbn; [by eauto|].
  split; [done|]. split.
  - intros Hnd. apply NoDup_app. split; [done|].
    split; [set_solver | apply NoDup_singleton].
  - intros other Hother. apply elem_of_app in Hother as [?|Hother]; [by left|].
    apply list_elem_of_singleton in Hother. by right.
Qed.

Lemma sendNotification_facts sendMulticast (fs : FirebaseService.t) :
  FirebaseService.initialized (FirebaseService.sendNotification sendMulticast fs).2
    = FirebaseService.initialized fs /\
  (NoDup (FirebaseService.fcmTokens fs) ->
   NoDup (FirebaseService.fcmTokens
            (FirebaseService.sendNotification sendMulticast fs).2)) /\
  (forall token,
     token ∈ FirebaseService.fcmTokens
               (FirebaseService.sendNotification sendMulticast fs).2 ->
     token ∈ FirebaseService.fcmTokens fs).
Proof.
  unfold FirebaseService.sendNotification.
  destruct (negb (FirebaseService.initialized fs) || _); [done|].
  destruct (sendMulticast (FirebaseService.fcmTokens fs)) as [response|]; [|done].
  destruct (0 <? FirebaseService.failureCount response)%nat; [|done].
  pose proof (pruneFailed_NoDup (FirebaseService.responses response) 0
                (FirebaseService.fcmTokens fs) (FirebaseService.fcmTokens fs)) as Hnd.
  pose proof (pruneFailed_only_removes_failed (FirebaseService.responses response) 0
                (FirebaseService.fcmTokens fs) (FirebaseService.fcmTokens fs)) as Hsub.
  destruct (FirebaseService.pruneFailed _ _ _ _) as [completed registry]. cbn in *.
  split; [done|]. split; [done|]. intros token. apply Hsub.
Qed.

Lemma sendSummaryNotification_facts sendMulticast (fs : FirebaseService.t) count :
  FirebaseService.initialized
    (FirebaseService.sendSummaryNotification sendMulticast fs count).2
    = FirebaseService.initialized fs /\
  (NoDup (FirebaseService.fcmTokens fs) ->
   NoDup (FirebaseService.fcmTokens
            (FirebaseService.sendSummaryNotification sendMulticast fs count).2)) /\
  (forall token,
     token ∈ FirebaseService.fcmTokens
               (FirebaseService.sendSummaryNotification sendMulticast fs count).2 ->
     token ∈ FirebaseService.fcmTokens fs).
Proof.
  unfold FirebaseService.sendSummaryNotification.
  destruct (count =? 0)%nat; [done | apply sendNotification_facts].
Qed.

(** What one call keeps. *)
Lemma step_facts (ns : t) (op : Op) :
  isProduction (step ns op) = isProduction ns /\
  desktopWorks (step ns op) = desktopWorks ns /\
  (NoDup (tokensOf ns) -> NoDup (tokensOf (step ns op))) /\
  (forall token, token ∈ tokensOf (step ns op) ->
     token ∈ tokensOf ns \/
     (op = Register token /\ token <> "" /\
      isProduction ns = true /\ initialized ns = true)) /\
  (pushReady (step ns op) = true ->
   pushReady ns = true \/ (op = Initialize true /\ isProduction ns = true)) /\
  (pushReady ns = true -> pushReady (step ns op) = true) /\
  (isProduction ns = true -> initialized (step ns op) = true ->
   pushReady (step ns op) = true \/ initialized ns = true) /\
  (initialized ns = false -> (forall configured, op <> Initialize configured) ->
   step ns op = ns) /\
  (isProduction ns = false -> firebaseService (step ns op) = firebaseService ns).
Proof.
  destruct op as [configured|token|token|sendMulticast|sendMulticast count|sendMulticast];
    cbn [step].
  - unfold initialize, firebaseInitialize.
    destruct (isProduction ns) eqn:Hprod; [destruct configured|]; cbn;
      rewrite ?Hprod; repeat split; try done; eauto; by intros ? Hc; destruct (Hc _ eq_refl).
  - unfold registerFCMToken.
    destruct (isProduction ns) eqn:Hprod, (initialized ns) eqn:Hinit; cbn;
      rewrite ?Hprod, ?Hinit; try (repeat split; try done; by eauto).
    destruct (addFCMToken_facts (firebaseService ns) token) as (Hi & Hnd & Hin).
    rewrite Hi. repeat split; try done; eauto.
    intros other Hother. destruct (Hin _ Hother) as [?|[-> ?]]; [by left | by right].
  - unfold unregisterFCMToken.
    destruct (isProduction ns) eqn:Hprod, (initialized ns) eqn:Hinit; cbn;
      rewrite ?Hprod, ?Hinit; try (repeat split; try done; by eauto).
    repeat split; try done; eauto.
    + apply deleteToken_NoDup.
    + intros other Hother. left. by apply elem_of_deleteToken in Hother as [? _].
  - unfold notifyPendingLeaveRequest.
    destruct (isProduction ns) eqn:Hprod, (initialized ns) eqn:Hinit; cbn;
      rewrite ?Hprod, ?Hinit; try (repeat split; try done; by eauto).
    destruct (sendNotification_facts sendMulticast (firebaseService ns)) as (Hi & Hnd & Hin).
    destruct (FirebaseService.sendNotification sendMulticast (firebaseService ns))
      as [sent fs]. cbn in *. rewrite Hi. repeat split; try done; eauto.
  - unfold notifySummary. destruct (count =? 0)%nat;
      [repeat split; try done; by eauto|].
    destruct (isProduction ns) eqn:Hprod, (initialized ns) eqn:Hinit; cbn;
      rewrite ?Hprod, ?Hinit; try (repeat split; try done; by eauto).
    destruct (sendSummaryNotification_facts sendMulticast (firebaseService ns) count)
      as (Hi & Hnd & Hin).
    destruct (FirebaseService.sendSummaryNotification sendMulticast (firebaseService ns) count)
      as [sent fs]. cbn in *. rewrite Hi. repeat split; try done; eauto.
  - unfold testNotification.
    destruct (isProduction ns) eqn:Hprod, (initialized ns) eqn:Hinit; cbn;
      rewrite ?Hprod, ?Hinit; try (repeat split; try done; by eauto).
    destruct (sendNotification_facts sendMulticast (firebaseService ns)) as (Hi & Hnd & Hin).
    destruct (FirebaseService.sendNotification sendMulticast (firebaseService ns))
      as [sent fs]. cbn in *. rewrite Hi. repeat split; try done; eauto.
Qed.

Lemma nonempty_elem {A} (l : list A) : l <> [] -> exists x, x ∈ l.
Proof. destruct l as [|x l]; [done|]. intros _. exists x. apply list_elem_of_here. Qed.

Local Abbreviation wellFormed ns :=
  ((isProduction ns = true -> initialized ns = true -> pushReady ns = true) /\
   (tokensOf ns <> [] -> pushReady ns = true)).

Lemma step_wellFormed (ns : t) (op : Op) : wellFormed ns -> wellFormed (step ns op).
Proof.
  intros [Hcons Htok].
  destruct (step_facts ns op) as (S1 & _ & _ & S4 & _ & S6 & S7 & _).
  split.
  - rewrite S1. intros Hprod Hinit. destruct (S7 Hprod Hinit) as [?|Hold]; [done|].
    by apply S6, Hcons.
  - intros Hne. destruct (nonempty_elem _ Hne) as (token & Hstep).
    destruct (S4 token Hstep) as [Hin|(_ & _ & Hprod & Hinit)].
    + apply S6, Htok. intros Hnil. rewrite Hnil in Hin. by apply elem_of_nil in Hin.
    + by apply S6, Hcons.
Qed.

Lemma run_facts (ops : list Op) : forall ns,
  isProduction (run ns ops) = isProduction ns /\
  desktopWorks (run ns ops) = desktopWorks ns /\
  (NoDup (tokensOf ns) -> NoDup (tokensOf (run ns ops))) /\
  (forall token, token ∈ tokensOf (run ns ops) ->
     token ∈ tokensOf ns \/
     (Register token ∈ ops /\ token <> "" /\ isProduction ns = true)) /\
  (pushReady (run ns ops) = true ->
   pushReady ns = true \/ (Initialize true ∈ ops /\ isProduction ns = true)) /\
  (wellFormed ns -> wellFormed (run ns ops)) /\
  (initialized ns = false -> (forall configured, Initialize configured ∉ ops) ->
   run ns ops = ns) /\
  (isProduction ns = false -> firebaseService (run ns ops) = firebaseService ns).
Proof.
  induction ops as [|op rest IH]; intros ns; cbn [run].
  - do 3 (split; [done|]). split; [by left|]. split; [by left|]. by do 2 (split; [done|]).
  - destruct (step_facts ns op) as (S1 & S2 & S3 & S4 & S5 & S6 & S7 & S8 & S9).
    destruct (IH (step ns op)) as (I1 & I2 & I3 & I4 & I5 & I6 & I7 & I8).
    split; [congruence|]. split; [congruence|]. split; [by eauto|].
    split.
    { intros token Hin. destruct (I4 _ Hin) as [Hstep|(Hreg & Hne & Hprod)].
      - destruct (S4 _ Hstep) as [?|(-> & ? & ? & ?)]; [by left|].
        right. split; [apply list_elem_of_here | done].
      - right. split; [by apply list_elem_of_further|]. split; [done | congruence]. }
    split.
    { intros Hready. destruct (I5 Hready) as [Hstep|(Hinit & Hprod)].
      - destruct (S5 Hstep) as [?|(-> & ?)]; [by left|].
        right. split; [apply list_elem_of_here | done].
      - right. split; [by apply list_elem_of_further | congruence]. }
    split; [intros Hwf; by apply I6, step_wellFormed|].
    split.
    { intros Hinit Hnone.
      assert (step ns op = ns) as Hsame.
      { apply S8; [done|]. intros configured ->. apply (Hnone configured), list_elem_of_here. }
      rewrite Hsame. rewrite Hsame in I7. apply I7; [done|].
      intros configured Hin. apply (Hnone configured). by apply list_elem_of_further. }
    intros Hprod. rewrite I8 by congruence. by apply S9.
Qed.

Lemma run_app (before rest : list Op) : forall ns,
  run ns (before ++ rest) = run (run ns before) rest.
Proof. induction before as [|op before IH]; intros ns; [done | apply IH]. Qed.

Lemma step_initialized (ns : t) (op : Op) :
  (forall configured, op <> Initialize configured) ->
  initialized (step ns op) = initialized ns.
Proof.
  intros Hop.
  destruct op as [configured|token|token|sendMulticast|sendMulticast count|sendMulticast];
    cbn [step]; [by destruct (Hop configured)|..];
    unfold registerFCMToken, unregisterFCMToken, notifyPendingLeaveRequest,
      notifySummary, testNotification;
    repeat match goal with
           | |- context [if ?b then _ else _] => destruct b
           | |- context [let '(_, _) := ?p in _] => destruct p
           end; done.
Qed.

Lemma step_initialize (ns : t) (configured : bool) :
  isProduction ns = true -> initialized (step ns (Initialize configured)) = configured.
Proof.
  intros Hprod. cbn [step]. unfold initialize, firebaseInitialize. rewrite Hprod.
  by destruct configured.
Qed.

(** In production mode a service is initialized after a sequence of calls
    only if it was so before and the sequence has no [initialize()], or if
    the last [initialize()] of the sequence succeeded. *)
Lemma run_initialized (ops : list Op) : forall ns,
  isProduction ns = true -> initialized (run ns ops) = true ->
  (initialized ns = true /\ forall configured, Initialize configured ∉ ops) \/
  exists before mid,
    ops = (before ++ Initialize true :: mid)%list /\
    forall configured, Initialize configured ∉ mid.
Proof.
  induction ops as [|op ops IH] using rev_ind; intros ns Hprod Hinit.
  { left. split; [done|]. intros configured Hin. by apply elem_of_nil in Hin. }
  rewrite run_app in Hinit. cbn [run] in Hinit.
  assert (Hprod' : isProduction (run ns ops) = true).
  { destruct (run_facts ops ns) as (-> & _). done. }
  assert (Hcases : (exists configured, op = Initialize configured)
                   \/ forall configured, op <> Initialize configured).
  { destruct op; [left; by eexists | right; done..]. }
  destruct Hcases as [[configured ->]|Hop].
  - rewrite (step_initialize _ _ Hprod') in Hinit. subst configured.
    right. exists ops, []. split; [done|].
    intros configured Hin. by apply elem_of_nil in Hin.
  - rewrite (step_initialized _ _ Hop) in Hinit.
    destruct (IH ns Hprod Hinit) as [[Hns Hnone]|(before & mid & -> & Hnone)].
    + left. split; [done|]. intros configured Hin.
      apply elem_of_app in Hin as [Hin|Hin]; [by apply (Hnone configured)|].
      apply list_elem_of_singleton in Hin. by apply (Hop configured).
    + right. exists before, (mid ++ [op])%list. split; [by rewrite <- app_assoc|].
      intros configured Hin.
      apply elem_of_app in Hin as [Hin|Hin]; [by apply (Hnone configured)|].
      apply list_elem_of_singleton in Hin. by apply (Hop configured).
Qed.

(** A token of the registry that was not there before was registered by a
    call made on an initialized service. *)
Lemma run_registered (ops : list Op) : forall ns token,
  token ∈ tokensOf (run ns ops) ->
  token ∈ tokensOf ns \/
  exists before after,
    ops = (before ++ Register token :: after)%list /\
    initialized (run ns before) = true.
Proof.
  induction ops as [|op rest IH]; intros ns token Hin; cbn [run] in Hin; [by left|].
  destruct (IH _ _ Hin) as [Hstep|(before & after & -> & Hinit)].
  - destruct (step_facts ns op) as (_ & _ & _ & S4 & _).
    destruct (S4 _ Hstep) as [?|(-> & _ & _ & Hinit)]; [by left|].
    right. by exists [], rest.
  - right. by exists (op :: before), after.
Qed.

(** X19. The push variant of the notification service, over every
    sequence of calls made on a newly constructed service: the token
    registry never holds the empty string or a token twice, and holds only
    tokens that were registered in production mode by a call that came
    after an [initialize()] that succeeded, with no other [initialize()]
    between the two; in production mode an initialized service has an
    initialized push channel. In development mode the push
    channel is never initialized and the registry stays empty. A service on
    which [initialize()] is never called stays exactly as constructed:
    tokens registered on it are dropped, and every alert, summary or test
    goes to the desktop notifier, in production mode too, without the push
    service being asked. *)
Theorem X19_push_variant_registers_only_after_initialization
    (production works : bool) (ops : list Op) :
  isProduction (run (construct production works) ops) = production /\
  desktopWorks (run (construct production works) ops) = works /\
  NoDup (tokensOf (run (construct production works) ops)) /\
  (forall token, token ∈ tokensOf (run (construct production works) ops) ->
     token <> "" /\ Register token ∈ ops /\ production = true /\
     Initialize true ∈ ops /\
     exists before mid after,
       ops = (before ++ Initialize true :: mid ++ Register token :: after)%list /\
       forall configured, Initialize configured ∉ mid) /\
  (production = true -> initialized (run (construct production works) ops) = true ->
   pushReady (run (construct production works) ops) = true) /\
  (production = false ->
   firebaseService (run (construct production works) ops) = FirebaseService.mk false []) /\
  ((forall configured, Initialize configured ∉ ops) ->
   run (construct production works) ops = construct production works /\
   forall sendMulticast count,
     notifyPendingLeaveRequest sendMulticast (run (construct production works) ops)
       = (works, construct production works) /\
     notifySummary sendMulticast (run (construct production works) ops) (S count)
       = (works, construct production works) /\
     testNotification sendMulticast (run (construct production works) ops)
       = (works, construct production works)).
Proof.
  destruct (run_facts ops (construct production works))
    as (R1 & R2 & R3 & R4 & R5 & R6 & R7 & R8).
  assert (Hwf : wellFormed (run (construct production works) ops)).
  { apply R6. by split. }
  destruct Hwf as [Hcons Htok].
  split; [exact R1|]. split; [exact R2|].
  split; [apply R3; cbn; constructor|].
  split.
  { intros token Hin.
    destruct (R4 _ Hin) as [Hold|(Hreg & Hne & Hprod)]; [by apply elem_of_nil in Hold|].
    do 3 (split; [done|]).
    split.
    { destruct R5 as [Hready|[? _]]; [|done|done].
      apply Htok. intros Hnil. rewrite Hnil in Hin. by apply elem_of_nil in Hin. }
    destruct (run_registered _ _ _ Hin)
      as [Hold|(before & after & -> & Hinit)]; [by apply elem_of_nil in Hold|].
    destruct (run_initialized before (construct production works) Hprod Hinit)
      as [[Hfalse _]|(before' & mid & -> & Hnone)]; [done|].
    exists before', mid, after. split; [by rewrite <- app_assoc|done]. }
  split; [intros Hprod; apply Hcons; by rewrite R1|].
  split; [intros ->; by apply R8|].
  intros Hnone. rewrite (R7 eq_refl Hnone). split; [done|].
  intros sendMulticast count.
  unfold notifyPendingLeaveRequest, notifySummary, testNotification. cbn.
  by rewrite andb_false_r.
Qed.

End PushServiceMore.
